(** * MyDevInsights: the analysis pipeline, embedded and verified

    A shallow embedding of the parts of the repository that the pipeline
    specification talks about:

    - [AnalysisQueue]    backend/src/lib/analysis-queue.ts and the worker's
                         queue manager (BullMQ queue options);
    - [RateLimiter]      the rate-limited executor of the analyzer worker;
    - [ClaudeAnalyzer]   the error handling of the analyzer client;
    - [ContextExtractor] analyzer-worker/src/lib/context-extractor.ts;
    - [LineCounter]      the worker's line counter;
    - [Validator]        file-watcher/src/lib/validator.ts;
    - [Debouncer]        the file watcher's debounce utility;
    - [FileWatcher]      the directory event handlers of
                         file-watcher/src/lib/file-watcher.ts;
    - [CacheManager]     analyzer-worker/src/lib/cache.ts;
    - [WorkerProcessor]  analyzer-worker/src/lib/worker-processor.ts.

    Conventions.  JavaScript numbers that hold counts, byte sizes and
    millisecond timestamps are integers ([Z], or [nat] where the code only
    ever adds to them); the validator's confidences are IEEE binary64 numbers
    ([float]), added and compared as JavaScript does; back-off delays are
    exact rationals ([Q]).  Promises are run to
    completion: an [async] function is a function of the state it touches,
    the outcomes of the external calls it awaits are given by an explicit
    environment, and a rejected promise is an error result. *)

From Stdlib Require Import ZArith QArith Qround Qminmax String Ascii List Bool Lia Lqa.
From Stdlib Require Import Floats.
From Stdlib Require Qpower.
From stdpp Require Import gmap strings list.
Import ListNotations.

Set Warnings "-inexact-float".

Local Open Scope string_scope.
Local Open Scope list_scope.
Local Open Scope Z_scope.

(** ** JavaScript values shared by the components *)

(** An [Error] object as the code inspects it: [error.status] (set by the
    HTTP transport), [error.code] (set by [fs]) and [error.message]. *)
Record JsError := mkError {
  status : option Z;
  code : option string;
  message : option string
}.

(** [new Error(msg)] *)
Definition newError (msg : string) : JsError :=
  {| status := None; code := None; message := Some msg |}.

(** [s.includes(sub)] *)
Fixpoint includes (sub s : string) : bool :=
  String.prefix sub s ||
  match s with
  | EmptyString => false
  | String _ s' => includes sub s'
  end.

(** [s.startsWith(p)] *)
Definition startsWith (p s : string) : bool := String.prefix p s.

(** [arr.includes(x)] on an array of strings *)
Definition arr_includes (x : string) (arr : list string) : bool :=
  existsb (String.eqb x) arr.

(** [error.message?.includes(sub)]: [undefined] is falsy *)
Definition message_includes (e : JsError) (sub : string) : bool :=
  match message e with
  | Some m => includes sub m
  | None => false
  end.

(** ** The analysis queue (BullMQ options) *)

Module AnalysisQueue.

Record BackoffOptions := {
  backoff_type : string;
  backoff_delay : Z
}.

(** BullMQ's [KeepJobs]: how many finished jobs to keep, and for how long
    (seconds). *)
Record KeepJobs := {
  keep_count : option Z;
  keep_age : option Z
}.

Record JobsOptions := {
  attempts : option Z;
  backoff : option BackoffOptions;
  removeOnComplete : option KeepJobs;
  removeOnFail : option KeepJobs;
  priority : option Z;
  jobId : option string
}.

Inductive Priority := low | normal | high.

Record AnalysisJobData := {
  projectId : string;
  projectPath : string;
  projectName : string;
  job_priority : option Priority;
  forceRefresh : option bool
}.

Record QueuedJob := {
  job_name : string;
  job_data : AnalysisJobData;
  job_opts : JobsOptions
}.

Record Queue := {
  queue_name : string;
  defaultJobOptions : JobsOptions;
  jobs : list QueuedJob
}.

(** BullMQ merges the queue's [defaultJobOptions] with the options of the
    [add] call, the latter taking precedence: [{...defaults, ...opts}]. *)
Definition or_else {A} (o d : option A) : option A :=
  match o with Some _ => o | None => d end.

Definition mergeOptions (defaults opts : JobsOptions) : JobsOptions :=
  {| attempts := or_else (attempts opts) (attempts defaults);
     backoff := or_else (backoff opts) (backoff defaults);
     removeOnComplete := or_else (removeOnComplete opts) (removeOnComplete defaults);
     removeOnFail := or_else (removeOnFail opts) (removeOnFail defaults);
     priority := or_else (priority opts) (priority defaults);
     jobId := or_else (jobId opts) (jobId defaults) |}.

Definition queue_add (q : Queue) (name : string) (data : AnalysisJobData)
    (opts : JobsOptions) : Queue * QueuedJob :=
  let j := {| job_name := name; job_data := data;
              job_opts := mergeOptions (defaultJobOptions q) opts |} in
  ({| queue_name := queue_name q;
      defaultJobOptions := defaultJobOptions q;
      jobs := jobs q ++ [j] |}, j).

(** *** backend/src/lib/analysis-queue.ts: [AnalysisQueueClient] *)

Record AnalysisQueueClient := {
  queue : option Queue;
  isInitialized : bool
}.

(** the state after [new AnalysisQueueClient(redisUrl)] *)
Definition newClient : AnalysisQueueClient :=
  {| queue := None; isInitialized := false |}.

(** the options literal of [AnalysisQueueClient.initialize] *)
Definition clientDefaultJobOptions : JobsOptions :=
  {| attempts := Some 3;
     backoff := Some {| backoff_type := "exponential"; backoff_delay := 2000 |};
     removeOnComplete := Some {| keep_count := Some 100; keep_age := Some (24 * 3600) |};
     removeOnFail := Some {| keep_count := Some 500; keep_age := None |};
     priority := None;
     jobId := None |}.

Definition initialize (c : AnalysisQueueClient) : AnalysisQueueClient :=
  if isInitialized c then c
  else {| queue := Some {| queue_name := "project-analysis";
                           defaultJobOptions := clientDefaultJobOptions;
                           jobs := [] |};
          isInitialized := true |}.

(** [data.priority === 'high' ? 1 : data.priority === 'low' ? 3 : 2] *)
Definition priorityNumber (p : option Priority) : Z :=
  match p with
  | Some high => 1
  | Some low => 3
  | _ => 2
  end.

(** [addAnalysisJob(data)] at clock reading [now]; [inl] is the thrown
    error.  [dec] renders [Date.now()] in decimal. *)
Definition addAnalysisJob (dec : Z -> string) (now : Z) (c : AnalysisQueueClient)
    (data : AnalysisJobData) : JsError + (AnalysisQueueClient * QueuedJob) :=
  match queue c with
  | None => inl (newError "Queue not initialized")
  | Some q =>
      let '(q', j) :=
        queue_add q "analyze-project" data
          {| attempts := None; backoff := None;
             removeOnComplete := None; removeOnFail := None;
             priority := Some (priorityNumber (job_priority data));
             jobId := Some ("analysis-" +:+ projectId data +:+ "-" +:+ dec now) |} in
      inr ({| queue := Some q'; isInitialized := isInitialized c |}, j)
  end.

(** *** The worker's [QueueManager] opens the same queue *)

(** the options literal of the [QueueManager] constructor, whose comment
    on [attempts] reads "No automatic retries - fail fast and stop" *)
Definition managerDefaultJobOptions : JobsOptions :=
  {| attempts := Some 1;
     backoff := None;
     removeOnComplete := Some {| keep_count := Some 100; keep_age := Some (24 * 3600) |};
     removeOnFail := Some {| keep_count := Some 500; keep_age := None |};
     priority := None;
     jobId := None |}.

Definition managerQueue : Queue :=
  {| queue_name := "project-analysis";
     defaultJobOptions := managerDefaultJobOptions;
     jobs := [] |}.

End AnalysisQueue.

(** ** The rate-limited executor

    The class [RateLimiter] of the analyzer worker.  One call of [execute]
    is modelled on its own: no other task holds or releases slots while it
    runs, so a wait on the concurrency gate that does not pass at once never
    passes ([None]).  The wrapped function is given by the outcome of each
    of its invocations, [Math.random()] by the value of each draw, and a
    timer of [ms] milliseconds moves the clock by exactly [ms]. *)

Module RateLimiter.

Record RateLimitConfig := {
  maxConcurrent : Z;
  requestsPerMinute : Z;
  backoffMultiplier : Q;
  maxRetries : Z;
  initialDelayMs : Q
}.

Record State := {
  requestTimestamps : list Z;
  currentConcurrent : Z
}.

(** the state after [new RateLimiter(config)], and after [reset()] *)
Definition reset : State :=
  {| requestTimestamps := []; currentConcurrent := 0 |}.

(** [await this.sleep(ms)] *)
Definition sleep (ms : Z) (now : Z) : Z := now + ms.

Definition cleanOldTimestamps (st : State) (now : Z) : State :=
  let oneMinuteAgo := now - 60000 in
  {| requestTimestamps :=
       List.filter (fun ts => oneMinuteAgo <? ts) (requestTimestamps st);
     currentConcurrent := currentConcurrent st |}.

Definition canMakeRequest (cfg : RateLimitConfig) (st : State) (now : Z)
    : bool * State :=
  let st := cleanOldTimestamps st now in
  (Z.of_nat (List.length (requestTimestamps st)) <? requestsPerMinute cfg, st).

Definition getWaitTime (cfg : RateLimitConfig) (st : State) (now : Z)
    : Z * State :=
  let st := cleanOldTimestamps st now in
  match requestTimestamps st with
  | [] => (0, st)
  | oldestTimestamp :: _ =>
      if requestsPerMinute cfg <=? Z.of_nat (List.length (requestTimestamps st))
      then
        let age := now - oldestTimestamp in
        (Z.max 0 (60000 - age + 100), st)
      else (0, st)
  end.

(** the second loop of [waitForSlot]:
    [while (!this.canMakeRequest()) await this.sleep(this.getWaitTime())] *)
Fixpoint waitForRate (fuel : nat) (cfg : RateLimitConfig) (st : State) (now : Z)
    : option (State * Z) :=
  let '(ok, st) := canMakeRequest cfg st now in
  if ok then Some (st, now)
  else
    match fuel with
    | O => None
    | S fuel =>
        let '(waitTime, st) := getWaitTime cfg st now in
        waitForRate fuel cfg st (sleep waitTime now)
    end.

(** [waitForSlot()]: the state and the clock when the slot is reserved.
    Every pass of the second loop drops the first recorded timestamp, so as
    many passes as there are timestamps are all it can make unless it never
    ends. *)
Definition waitForSlot (cfg : RateLimitConfig) (st : State) (now : Z)
    : option (State * Z) :=
  if maxConcurrent cfg <=? currentConcurrent st then None
  else
    match waitForRate (List.length (requestTimestamps st)) cfg st now with
    | None => None
    | Some (st, now) =>
        Some ({| requestTimestamps := requestTimestamps st ++ [now];
                 currentConcurrent := currentConcurrent st + 1 |}, now)
    end.

Definition releaseSlot (st : State) : State :=
  {| requestTimestamps := requestTimestamps st;
     currentConcurrent := Z.max 0 (currentConcurrent st - 1) |}.

(** [getStats()] *)
Record Stats := {
  stats_currentConcurrent : Z;
  requestsInLastMinute : Z;
  availableSlots : Z
}.

Definition getStats (cfg : RateLimitConfig) (st : State) (now : Z)
    : Stats * State :=
  let st := cleanOldTimestamps st now in
  ({| stats_currentConcurrent := currentConcurrent st;
      requestsInLastMinute := Z.of_nat (List.length (requestTimestamps st));
      availableSlots :=
        Z.max 0 (requestsPerMinute cfg
                 - Z.of_nat (List.length (requestTimestamps st))) |}, st).

(** What a client does with a limiter, one call after the other: it waits
    for a slot, gives one back, reads the statistics, or lets [ms]
    milliseconds pass. *)
Inductive Use :=
  | UseWaitForSlot
  | UseReleaseSlot
  | UseGetStats
  | UsePause (ms : Z).

(** The limiter and the clock after the uses [us], with the times at which
    [waitForSlot] reserved a slot ([this.requestTimestamps.push(Date.now())]);
    [None] when a [waitForSlot] never returns. *)
Fixpoint uses (cfg : RateLimitConfig) (us : list Use) (st : State) (now : Z)
    (reserved : list Z) : option (State * Z * list Z) :=
  match us with
  | [] => Some (st, now, reserved)
  | UseWaitForSlot :: us =>
      match waitForSlot cfg st now with
      | None => None
      | Some (st, now) => uses cfg us st now (reserved ++ [now])
      end
  | UseReleaseSlot :: us => uses cfg us (releaseSlot st) now reserved
  | UseGetStats :: us => uses cfg us (snd (getStats cfg st now)) now reserved
  | UsePause ms :: us => uses cfg us st (sleep ms now) reserved
  end.

(** [calculateBackoff(attempt, isRateLimit)]; [random] is the value of
    [Math.random()]. *)
Definition calculateBackoff (cfg : RateLimitConfig) (attempt : Z)
    (isRateLimit : bool) (random : Q) : Q :=
  let baseDelay :=
    if isRateLimit then (initialDelayMs cfg * 3)%Q else initialDelayMs cfg in
  let delay := (baseDelay * Qpower (backoffMultiplier cfg) (attempt - 1))%Q in
  let jitter := (delay * (2 # 10) * (random * 2 - 1))%Q in
  Qmin (delay + jitter)%Q 60000%Q.

(** the test in the [catch] block of [execute] *)
Definition isRateLimitError (e : JsError) : bool :=
  match status e with Some s => s =? 429 | None => false end
  || message_includes e "rate limit"
  || message_includes e "429".

Inductive Outcome (T : Type) :=
  | Returned (v : T)
  | Threw (e : option JsError)
  | Hangs.
Arguments Returned {T} v.
Arguments Threw {T} e.
Arguments Hangs {T}.

(** What one call of [execute] did: its outcome, how often it invoked the
    wrapped function, the [onRetry] notifications, the back-off delays it
    slept, and the limiter and clock it left behind. *)
Record Run (T : Type) := {
  outcome : Outcome T;
  invocations : nat;
  retries : list (Z * JsError);
  delays : list Q;
  final : State;
  finished : Z
}.
Arguments outcome {T} r.
Arguments invocations {T} r.
Arguments retries {T} r.
Arguments delays {T} r.
Arguments final {T} r.
Arguments finished {T} r.

Section Execute.
Context {T : Type}.
Variable cfg : RateLimitConfig.
(** the outcome of the k-th invocation of [fn] *)
Variable fn : nat -> JsError + T.
(** the k-th value of [Math.random()] *)
Variable random : nat -> Q.

(** [options?.maxRetries || this.config.maxRetries] *)
Definition effectiveMaxRetries (optMaxRetries : option Z) : Z :=
  match optMaxRetries with
  | Some m => if m =? 0 then maxRetries cfg else m
  | None => maxRetries cfg
  end.

(** The [while (attempt < maxRetries)] loop; [remaining] counts the passes
    left, [maxRetries - attempt]. *)
Fixpoint executeLoop (maxRetries : Z) (remaining : nat) (attempt : Z)
    (lastError : option JsError) (r : Run T) : Run T :=
  match remaining with
  | O =>
      {| outcome := Threw lastError; invocations := invocations r;
         retries := retries r; delays := delays r;
         final := final r; finished := finished r |}
  | S remaining =>
      match waitForSlot cfg (final r) (finished r) with
      | None =>
          {| outcome := Hangs; invocations := invocations r;
             retries := retries r; delays := delays r;
             final := final r; finished := finished r |}
      | Some (st, now) =>
          match fn (invocations r) with
          | inr result =>
              {| outcome := Returned result; invocations := S (invocations r);
                 retries := retries r; delays := delays r;
                 final := releaseSlot st; finished := now |}
          | inl error =>
              let st := releaseSlot st in
              let attempt := attempt + 1 in
              let isRateLimit := isRateLimitError error in
              if attempt <? maxRetries then
                let delay :=
                  calculateBackoff cfg attempt isRateLimit
                    (random (List.length (delays r))) in
                executeLoop maxRetries remaining attempt (Some error)
                  {| outcome := outcome r; invocations := S (invocations r);
                     retries := retries r ++ [(attempt, error)];
                     delays := delays r ++ [delay];
                     final := st; finished := sleep (Qfloor delay) now |}
              else
                executeLoop maxRetries remaining attempt (Some error)
                  {| outcome := outcome r; invocations := S (invocations r);
                     retries := retries r; delays := delays r;
                     final := st; finished := now |}
          end
      end
  end.

Definition execute (optMaxRetries : option Z) (st : State) (now : Z) : Run T :=
  let maxRetries := effectiveMaxRetries optMaxRetries in
  executeLoop maxRetries (Z.to_nat maxRetries) 0 None
    {| outcome := Threw None; invocations := O; retries := []; delays := [];
       final := st; finished := now |}.

End Execute.

(** Modelled from the spec: the retry classification of section 4.C6, which
    no function of the executor implements.  "A retryable error is any of:
    the underlying transport reports status 429 or 529, or the message
    contains rate_limit / overloaded / aborted / timed out." *)
Definition spec_retryable (e : JsError) : bool :=
  match status e with Some s => (s =? 429) || (s =? 529) | None => false end
  || message_includes e "rate_limit"
  || message_includes e "overloaded"
  || message_includes e "aborted"
  || message_includes e "timed out".

End RateLimiter.

(** ** The analyzer client

    The [catch] block of [ClaudeAnalyzer.analyzeProject]: what the worker,
    and the rate limiter around the call, get to see of an error of the
    API client. *)

Module ClaudeAnalyzer.

(** [`${error.message}`] in a template literal *)
Definition template (message : option string) : string :=
  match message with
  | Some m => m
  | None => "undefined"
  end.

(** [error.status === n] *)
Definition status_is (error : JsError) (n : Z) : bool :=
  match status error with
  | Some s => s =? n
  | None => false
  end.

(** the error that the [catch] block throws for [error], whose property
    [name] is [name] *)
Definition rethrow (name : option string) (error : JsError) : JsError :=
  if match name with
     | Some n => String.eqb n "AbortError"
     | None => false
     end
     || message_includes error "aborted"
  then newError "Analysis request timed out and was cancelled"
  else if status_is error 429 || message_includes error "rate_limit"
  then newError ("Rate limit exceeded: " +:+ template (message error))
  else if status_is error 529 || message_includes error "overloaded"
  then newError ("API overloaded: " +:+ template (message error))
  else error.

End ClaudeAnalyzer.

(** ** Arrays and paths *)

(** [arr.sort(compare)] is a stable sort: [after x y] says that [compare]
    puts [x] strictly after [y] ([compare(x, y) > 0]); elements that compare
    equal keep their order. *)
Fixpoint sort_insert {A} (after : A -> A -> bool) (x : A) (l : list A) : list A :=
  match l with
  | [] => [x]
  | y :: l' => if after x y then y :: sort_insert after x l' else x :: l
  end.

Definition stable_sort {A} (after : A -> A -> bool) (l : list A) : list A :=
  fold_right (sort_insert after) [] l.

(** [arr.slice(0, n)] *)
Definition slice0 {A} (n : Z) (arr : list A) : list A :=
  if 0 <=? n then firstn (Z.to_nat n) arr
  else firstn (Z.to_nat (Z.of_nat (List.length arr) + n)) arr.

(** [s.split(sep)] for a one-character separator *)
Fixpoint split (sep : ascii) (s : string) : list string :=
  match s with
  | EmptyString => [EmptyString]
  | String c s' =>
      if Ascii.eqb c sep then EmptyString :: split sep s'
      else
        match split sep s' with
        | [] => [String c EmptyString]
        | h :: t => String c h :: t
        end
  end.

(** [path.sep] on the POSIX hosts the services run on *)
Definition path_sep : ascii := "/"%char.

(** [path.basename(p)] of a path without trailing separator *)
Definition basename (p : string) : string :=
  List.last (split path_sep p) EmptyString.

(** [s.slice(n)] *)
Fixpoint string_drop (n : nat) (s : string) : string :=
  match n, s with
  | O, _ => s
  | S n, String _ s' => string_drop n s'
  | S _, EmptyString => EmptyString
  end.

(** [s.endsWith(suffix)] *)
Definition endsWith (suffix s : string) : bool :=
  (String.length suffix <=? String.length s)%nat
  && String.eqb (string_drop (String.length s - String.length suffix) s) suffix.

(** [path.relative(from, to)] for a path [to] below the directory [from],
    as the walk of the project tree builds them with [path.join]; other
    paths are left as they are. *)
Definition relative (from to : string) : string :=
  if String.prefix (from +:+ "/") to
  then string_drop (String.length from + 1) to
  else to.

(** the position of the last ['.'] of [s], counting from [i] *)
Fixpoint last_dot (s : string) (i : nat) (found : option nat) : option nat :=
  match s with
  | EmptyString => found
  | String c s' =>
      last_dot s' (S i) (if Ascii.eqb c "."%char then Some i else found)
  end.

(** [path.extname(name)] of a file name: from the last dot on, unless there
    is none or the name only starts with one *)
Definition extname (name : string) : string :=
  if String.eqb name ".." then EmptyString
  else
    match last_dot name 0 None with
    | None | Some O => EmptyString
    | Some i => string_drop i name
    end.

(** the line feed of the JavaScript escape [\n] *)
Definition LF : string := String (ascii_of_nat 10) EmptyString.

(** ** The context extractor *)

Module ContextExtractor.

Definition LANGUAGE_EXTENSIONS : list (string * list string) :=
  [ ("typescript", [".ts"; ".tsx"]);
    ("javascript", [".js"; ".jsx"; ".mjs"; ".cjs"]);
    ("python", [".py"]);
    ("rust", [".rs"]);
    ("go", [".go"]);
    ("java", [".java"]);
    ("php", [".php"]);
    ("ruby", [".rb"]);
    ("csharp", [".cs"]);
    ("cpp", [".cpp"; ".cc"; ".cxx"; ".h"; ".hpp"]);
    ("c", [".c"; ".h"]) ].

Definition PRIORITY_FILES : list string :=
  [ "README.md"; "README.txt"; "CLAUDE.md"; "claude.md"; "PRD.md"; "prd.md";
    "ARCHITECTURE.md"; "architecture.md"; "package.json"; "requirements.txt";
    "Cargo.toml"; "go.mod"; "pom.xml"; "build.gradle"; "composer.json";
    "Gemfile"; ".csproj"; "tsconfig.json"; "vite.config.ts"; "next.config.js";
    "nuxt.config.ts" ].

(** an element of the array built by [getAllFiles] *)
Record FileEntry := {
  path : string;
  size : Z;
  ext : string
}.

Record FileContent := {
  fc_path : string;
  fc_content : string;
  fc_language : string;
  fc_size : Z
}.

(** the marker appended by [truncateToTokens] *)
Definition TRUNCATED : string := LF +:+ LF +:+ "[... truncated ...]".

Definition getLanguageFromExtension (ext : string) : string :=
  match List.find (fun '(_, extensions) => arr_includes ext extensions)
          LANGUAGE_EXTENSIONS with
  | Some (language, _) => language
  | None => "plaintext"
  end.

(** the comparator of [prioritizeFiles] *)
Definition compareFiles (projectPath : string) (a b : FileEntry) : Z :=
  let aName := basename (path a) in
  let bName := basename (path b) in
  let aPriority := arr_includes aName PRIORITY_FILES in
  let bPriority := arr_includes bName PRIORITY_FILES in
  if aPriority && negb bPriority then -1
  else if negb aPriority && bPriority then 1
  else
    let aDepth := Z.of_nat (List.length (split path_sep (relative projectPath (path a)))) in
    let bDepth := Z.of_nat (List.length (split path_sep (relative projectPath (path b)))) in
    if negb (aDepth =? bDepth) then aDepth - bDepth
    else size a - size b.

Definition prioritizeFiles (projectPath : string) (files : list FileEntry)
    : list FileEntry :=
  stable_sort (fun a b => 0 <? compareFiles projectPath a b) files.

Definition SKIP_DIRECTORIES : list string :=
  [ "node_modules"; ".git"; "dist"; "build"; "coverage"; "__pycache__";
    ".next"; "out"; "target"; "vendor"; ".vscode"; ".idea" ].

(** What [fs.readdir(dir, { withFileTypes: true })] and [fs.stat] show of
    one entry of a directory, and of the entries below it. *)
#[warnings="-register-all"]
Inductive Dirent :=
  | RegularFile (name : string) (size : option Z)
      (* [stats.size], or [fs.stat] is rejected *)
  | Subdirectory (name : string) (entries : option (list Dirent))
      (* the entries in it, or [fs.readdir] is rejected *)
  | Other (name : string).
      (* neither [isDirectory()] nor [isFile()]: a link, a socket, ... *)

(** [path.join(dirPath, name)] for a directory path without trailing
    separator and the name of one of its entries *)
Definition path_join (dirPath name : string) : string :=
  dirPath +:+ "/" +:+ name.

(** the [for (const entry of entries)] loop of [getAllFiles]: [visit] is the
    body, [None] when it throws; the [catch] block leaves the loop with
    what was pushed onto [files] so far *)
Fixpoint forEntries (visit : Dirent -> list FileEntry -> option (list FileEntry))
    (entries : list Dirent) (files : list FileEntry) : list FileEntry :=
  match entries with
  | [] => files
  | entry :: rest =>
      match visit entry files with
      | Some files => forEntries visit rest files
      | None => files
      end
  end.

(** the body of that loop for one entry of [dirPath]; the recursive call of
    [getAllFiles] catches what is thrown in it *)
Fixpoint visitEntry (dirPath : string) (entry : Dirent) (files : list FileEntry)
    : option (list FileEntry) :=
  match entry with
  | Subdirectory name listing =>
      let fullPath := path_join dirPath name in
      if negb (arr_includes name SKIP_DIRECTORIES) && negb (startsWith "." name)
      then
        match listing with
        | Some entries => Some (forEntries (visitEntry fullPath) entries files)
        | None => Some files
        end
      else Some files
  | RegularFile name stats =>
      let fullPath := path_join dirPath name in
      match stats with
      | Some size =>
          Some (files ++ [{| path := fullPath; size := size; ext := extname name |}])
      | None => None
      end
  | Other _ => Some files
  end.

(** [getAllFiles(dirPath)], where [listing] is what [fs.readdir(dirPath)]
    shows *)
Definition getAllFiles (dirPath : string) (listing : option (list Dirent))
    : list FileEntry :=
  match listing with
  | Some entries => forEntries (visitEntry dirPath) entries []
  | None => []
  end.

(** [allFiles.reduce((sum, file) => sum + (file.size || 0), 0)] in
    [extractContext] *)
Definition totalSize (allFiles : list FileEntry) : Z :=
  fold_left (fun sum file => sum + size file) allFiles 0.

Section Extractor.
(** the tokenizer ([encoding_for_model('gpt-4')]) *)
Variable encode : string -> list Z.
Variable decode : list Z -> string.
(** [fs.readFile(path, 'utf-8')]; [None] when the read is rejected *)
Variable readFile : string -> option string.
(** [this.maxTokens] *)
Variable maxTokens : Z.

Definition countTokens (text : string) : Z :=
  Z.of_nat (List.length (encode text)).

Definition truncateToTokens (text : string) (maxTokens : Z) : string :=
  let tokens := encode text in
  if Z.of_nat (List.length tokens) <=? maxTokens then text
  else
    let truncatedTokens := slice0 maxTokens tokens in
    decode truncatedTokens +:+ TRUNCATED.

(** the entry pushed onto [mainFiles] for [file] with the given text *)
Definition fileContent (projectPath : string) (file : FileEntry)
    (content : string) : FileContent :=
  {| fc_path := relative projectPath (path file);
     fc_content := content;
     fc_language := getLanguageFromExtension (ext file);
     fc_size := size file |}.

(** [currentTokens >= remainingTokens * 0.9] *)
Definition limitReached (remainingTokens currentTokens : Z) : bool :=
  Qle_bool (inject_Z remainingTokens * (9 # 10)) (inject_Z currentTokens).

(** the [for (const file of sortedFiles)] loop of [extractMainFiles]; the
    result is [mainFiles] and [currentTokens] when the loop is left *)
Fixpoint extractLoop (projectPath : string) (remainingTokens : Z)
    (sortedFiles : list FileEntry) (currentTokens : Z)
    (mainFiles : list FileContent) : list FileContent * Z :=
  match sortedFiles with
  | [] => (mainFiles, currentTokens)
  | file :: rest =>
      if limitReached remainingTokens currentTokens then
        (mainFiles, currentTokens)
      else if 100 * 1024 <? size file then
        extractLoop projectPath remainingTokens rest currentTokens mainFiles
      else
        match readFile (path file) with
        | None =>
            extractLoop projectPath remainingTokens rest currentTokens mainFiles
        | Some content =>
            let tokens := countTokens content in
            if remainingTokens <? currentTokens + tokens then
              let truncated :=
                truncateToTokens content (remainingTokens - currentTokens) in
              if String.eqb truncated EmptyString then
                (mainFiles, currentTokens)
              else
                (mainFiles ++ [fileContent projectPath file truncated],
                 currentTokens + countTokens truncated)
            else
              extractLoop projectPath remainingTokens rest
                (currentTokens + tokens)
                (mainFiles ++ [fileContent projectPath file content])
        end
  end.

Definition extractMainFiles (projectPath : string) (allFiles : list FileEntry)
    (tokensAlreadyUsed : Z) : list FileContent :=
  let remainingTokens := maxTokens - tokensAlreadyUsed in
  let sortedFiles := prioritizeFiles projectPath allFiles in
  fst (extractLoop projectPath remainingTokens sortedFiles 0 []).

End Extractor.

End ContextExtractor.

(** ** The line counter

    [countLinesInFile] of the worker's line counter, which
    [extractContext] uses for [linesOfCode]. *)

Module LineCounter.

(** the white space and line terminators of ECMAScript in ASCII text: the
    characters 9 to 13 and the space *)
Definition isWhiteSpace (c : ascii) : bool :=
  let n := nat_of_ascii c in
  ((9 <=? n) && (n <=? 13))%nat || (n =? 32)%nat.

Fixpoint trimStart (s : string) : string :=
  match s with
  | EmptyString => EmptyString
  | String c s' => if isWhiteSpace c then trimStart s' else s
  end.

Fixpoint trimEnd (s : string) : string :=
  match s with
  | EmptyString => EmptyString
  | String c s' =>
      match trimEnd s' with
      | EmptyString => if isWhiteSpace c then EmptyString else String c EmptyString
      | t => String c t
      end
  end.

(** [s.trim()] *)
Definition trim (s : string) : string := trimEnd (trimStart s).

(** what follows [^\s*] in the patterns of [lineCommentPatterns] *)
Definition lineCommentPatterns : list string := ["//"; "#"; "--"; ";"; "%"].

(** [/^\s*p/.test(s)] for a literal [p] *)
Definition test_after_space (p s : string) : bool :=
  startsWith p (trimStart s).

(** three double quotes and three single quotes, the openings of a Python
    docstring *)
Definition tripleDoubleQuote : string :=
  let q := ascii_of_nat 34 in String q (String q (String q EmptyString)).
Definition tripleSingleQuote : string :=
  let q := ascii_of_nat 39 in String q (String q (String q EmptyString)).

(** the body of the [for (const line of lines)] loop, on [count] and
    [inBlockComment] *)
Definition countLine (extension : string) (state : Z * bool) (line : string)
    : Z * bool :=
  let count := fst state in
  let inBlockComment := snd state in
  let trimmed := trim line in
  if String.eqb trimmed EmptyString then (count, inBlockComment)
  else
    let inBlockComment :=
      if startsWith "/*" trimmed || startsWith "/**" trimmed
      then true else inBlockComment in
    if inBlockComment then
      (count, if endsWith "*/" trimmed then false else inBlockComment)
    else if existsb (fun pattern => test_after_space pattern trimmed)
              lineCommentPatterns
    then (count, inBlockComment)
    else if String.eqb extension ".py"
            && (startsWith tripleDoubleQuote trimmed
                || startsWith tripleSingleQuote trimmed)
    then (count, inBlockComment)
    else (count + 1, inBlockComment).

(** the loop over [lines] *)
Definition countLines (extension : string) (lines : list string)
    (state : Z * bool) : Z * bool :=
  fold_left (countLine extension) lines state.

Definition countLinesInFile (content extension : string) : Z :=
  let lines := split (ascii_of_nat 10) content in
  fst (countLines extension lines (0, false)).

End LineCounter.

(** ** The project validator *)

(** [c.toLowerCase()] and [c.toUpperCase()] on ASCII letters *)
Definition lower_ascii (c : ascii) : ascii :=
  let n := nat_of_ascii c in
  if ((65 <=? n) && (n <=? 90))%nat then ascii_of_nat (n + 32) else c.

Definition upper_ascii (c : ascii) : ascii :=
  let n := nat_of_ascii c in
  if ((97 <=? n) && (n <=? 122))%nat then ascii_of_nat (n - 32) else c.

Fixpoint toLowerCase (s : string) : string :=
  match s with
  | EmptyString => EmptyString
  | String c s' => String (lower_ascii c) (toLowerCase s')
  end.

Module Validator.

Inductive ProjectType :=
  | nodejs | python | rust | go | java | php | ruby | csharp | unknown.

(** [Omit<ValidationResult, 'isValid'>] *)
Record Detection := {
  projectType : ProjectType;
  confidence : float;
  framework : option string;
  language : option string;
  packageManager : option string
}.

Record ValidationResult := {
  isValid : bool;
  result : Detection
}.

Definition PYTHON_MARKERS : list string :=
  ["requirements.txt"; "pyproject.toml"; "setup.py"; "Pipfile"; "poetry.lock"].

Definition JAVA_MARKERS : list string :=
  ["pom.xml"; "build.gradle"; "build.gradle.kts"; "gradlew"].

(** the other rows of [PROJECT_MARKERS]; [detectProjectType] reads none of
    them *)
Definition NODEJS_MARKERS : list string :=
  ["package.json"; "yarn.lock"; "pnpm-lock.yaml"; "bun.lockb"].
Definition CSHARP_MARKERS : list string :=
  ["*.csproj"; "*.sln"; "project.json"].

Definition SYSTEM_DIRECTORIES : list string :=
  [ ".git"; "node_modules"; ".DS_Store"; "__pycache__"; "dist"; "build";
    "target"; ".vscode"; ".idea"; ".next"; "out"; "coverage"; ".cache";
    "vendor"; ".svn"; ".hg" ].

(** What the file system shows of one entry of the project directory. *)
Inductive Entry :=
  | File (content : option string)        (* the text, or the read is rejected *)
  | Dir (listing : option (list string))  (* the names in it, or [readdir] is rejected *)
  | Unreadable.                           (* [fs.stat] is rejected *)

(** What [fs.stat(projectPath)] and [fs.readdir(projectPath)] show. *)
Inductive Root :=
  | Missing                                        (* [fs.stat] is rejected *)
  | NotADirectory
  | Directory (listing : option (list (string * Entry))).

(** the fields of a parsed [package.json] the validator reads *)
Record PackageJson := {
  dependencies : list (string * string);
  devDependencies : list (string * string);
  pkg_type : option string
}.

Definition entry_of (entries : list (string * Entry)) (name : string)
    : option Entry :=
  match List.find (fun '(n, _) => String.eqb n name) entries with
  | Some (_, e) => Some e
  | None => None
  end.

(** [(await fs.stat(path.join(projectPath, file))).isDirectory()], [None]
    when [stat] is rejected *)
Definition isDirectory (entries : list (string * Entry)) (file : string)
    : option bool :=
  match entry_of entries file with
  | Some (Dir _) => Some true
  | Some (File _) => Some false
  | Some Unreadable | None => None
  end.

(** [fs.readFile(path.join(projectPath, file), 'utf-8')] *)
Definition readFile (entries : list (string * Entry)) (file : string)
    : option string :=
  match entry_of entries file with
  | Some (File content) => content
  | _ => None
  end.

(** [fs.readdir(path.join(projectPath, subdir))] *)
Definition readdir (entries : list (string * Entry)) (subdir : string)
    : option (list string) :=
  match entry_of entries subdir with
  | Some (Dir listing) => listing
  | _ => None
  end.

Definition isSystemDirectory (dirPath : string) : bool :=
  let dirName := basename dirPath in
  arr_includes dirName SYSTEM_DIRECTORIES || startsWith "." dirName.

Section Detection.
(** [JSON.parse] followed by the property reads of [analyzeNodeProject];
    [None] when either throws *)
Variable JSON_parse : string -> option PackageJson.

(** [deps[name]] is truthy, for [deps = {...dependencies, ...devDependencies}] *)
Definition has_dep (pkg : PackageJson) (name : string) : bool :=
  let lookup deps :=
    match List.find (fun '(n, _) => String.eqb n name) deps with
    | Some (_, v) => Some v
    | None => None
    end in
  match lookup (devDependencies pkg) with
  | Some v => negb (String.eqb v EmptyString)
  | None =>
      match lookup (dependencies pkg) with
      | Some v => negb (String.eqb v EmptyString)
      | None => false
      end
  end.

(** framework, language and package manager *)
Definition Metadata : Type := option string * option string * option string.

Definition analyzeNodeProject (entries : list (string * Entry)) : Metadata :=
  match readFile entries "package.json" with
  | None => (None, Some "JavaScript", Some "npm")
  | Some content =>
      match JSON_parse content with
      | None => (None, Some "JavaScript", Some "npm")
      | Some packageJson =>
          let framework :=
            if has_dep packageJson "next" then Some "Next.js"
            else if has_dep packageJson "react" then Some "React"
            else if has_dep packageJson "vue" then Some "Vue"
            else if has_dep packageJson "@angular/core" then Some "Angular"
            else if has_dep packageJson "svelte" then Some "Svelte"
            else if has_dep packageJson "express" then Some "Express"
            else if has_dep packageJson "fastify" then Some "Fastify"
            else if has_dep packageJson "nestjs" then Some "NestJS"
            else None in
          let language :=
            if has_dep packageJson "typescript"
               || match pkg_type packageJson with
                  | Some t => String.eqb t "module"
                  | None => false
                  end
            then "TypeScript" else "JavaScript" in
          let files := map fst entries in
          let packageManager :=
            if arr_includes "pnpm-lock.yaml" files then "pnpm"
            else if arr_includes "yarn.lock" files then "yarn"
            else if arr_includes "bun.lockb" files then "bun"
            else "npm" in
          (framework, Some language, Some packageManager)
      end
  end.

Definition analyzePythonProject (entries : list (string * Entry))
    (markers : list string) : Metadata :=
  let packageManager :=
    if arr_includes "poetry.lock" markers then Some "poetry"
    else if arr_includes "Pipfile" markers then Some "pipenv"
    else if arr_includes "pyproject.toml" markers then Some "pip"
    else if arr_includes "requirements.txt" markers then Some "pip"
    else None in
  let framework :=
    if arr_includes "requirements.txt" markers then
      match readFile entries "requirements.txt" with
      | Some content =>
          if includes "django" content then Some "Django"
          else if includes "flask" content then Some "Flask"
          else if includes "fastapi" content then Some "FastAPI"
          else None
      | None => None
      end
    else None in
  (framework, Some "Python", packageManager).

(** [{ projectType, confidence, ...metadata }] *)
Definition detection (t : ProjectType) (c : float) (m : Metadata) : Detection :=
  {| projectType := t; confidence := c; framework := fst (fst m);
     language := snd (fst m); packageManager := snd m |}.

(** the checks made on the listing of one subdirectory *)
Definition nestedMarkers (subdirFiles : list string) : option Detection :=
  if arr_includes "package.json" subdirFiles then
    Some (detection nodejs 0.85 (None, Some "JavaScript", Some "npm"))
  else if arr_includes "pubspec.yaml" subdirFiles then
    Some (detection nodejs 0.85 (Some "Flutter", Some "Dart", Some "pub"))
  else if arr_includes "requirements.txt" subdirFiles
          || arr_includes "pyproject.toml" subdirFiles then
    Some (detection python 0.85 (None, Some "Python", Some "pip"))
  else if arr_includes "Cargo.toml" subdirFiles then
    Some (detection rust 0.85 (None, Some "Rust", Some "cargo"))
  else if arr_includes "go.mod" subdirFiles then
    Some (detection go 0.85 (None, Some "Go", Some "go modules"))
  else None.

Fixpoint firstNested (entries : list (string * Entry)) (subdirs : list string)
    : option Detection :=
  match subdirs with
  | [] => None
  | subdir :: rest =>
      match readdir entries subdir with
      | Some subdirFiles =>
          match nestedMarkers subdirFiles with
          | Some d => Some d
          | None => firstNested entries rest
          end
      | None => firstNested entries rest
      end
  end.

Definition checkNestedProjects (entries : list (string * Entry))
    (rootFiles : list string) : option Detection :=
  let subdirs :=
    List.filter
      (fun file =>
         match isDirectory entries file with
         | Some true =>
             negb (startsWith "." file)
             && negb (arr_includes file SYSTEM_DIRECTORIES)
         | _ => false
         end) rootFiles in
  firstNested entries subdirs.

Definition checkForDirectories (entries : list (string * Entry))
    (files targetDirs : list string) : bool :=
  existsb
    (fun file =>
       arr_includes file targetDirs
       && match isDirectory entries file with
          | Some true => true
          | _ => false
          end) files.

Definition codeExtensions : list (string * list string) :=
  [ ("javascript", [".js"; ".jsx"; ".mjs"; ".cjs"]);
    ("typescript", [".ts"; ".tsx"]);
    ("python", [".py"]);
    ("rust", [".rs"]);
    ("go", [".go"]);
    ("java", [".java"]);
    ("csharp", [".cs"]);
    ("cpp", [".cpp"; ".cc"; ".cxx"; ".h"; ".hpp"]);
    ("c", [".c"; ".h"]);
    ("php", [".php"]);
    ("ruby", [".rb"]);
    ("swift", [".swift"]);
    ("kotlin", [".kt"]);
    ("dart", [".dart"]) ].

(** [languageCounts[language] = (languageCounts[language] || 0) + 1]; a new
    key goes last *)
Fixpoint increment (language : string) (languageCounts : list (string * Z))
    : list (string * Z) :=
  match languageCounts with
  | [] => [(language, 1)]
  | (l, n) :: rest =>
      if String.eqb l language then (l, n + 1) :: rest
      else (l, n) :: increment language rest
  end.

Definition countLanguages (files : list string) : list (string * Z) :=
  fold_left
    (fun languageCounts file =>
       let ext := toLowerCase (extname file) in
       fold_left
         (fun languageCounts '(language, extensions) =>
            if arr_includes ext extensions
            then increment language languageCounts
            else languageCounts)
         codeExtensions languageCounts)
    files [].

Definition capitalize (s : string) : string :=
  match s with
  | EmptyString => EmptyString
  | String c s' => String (upper_ascii c) s'
  end.

(** [hasCodeFiles] and [primaryLanguage] *)
Definition analyzeCodeFiles (files : list string) : bool * option string :=
  let languages :=
    stable_sort (fun a b => 0 <? snd b - snd a) (countLanguages files) in
  match languages with
  | (l, n) :: _ =>
      if 2 <=? n then (true, Some (capitalize l)) else (false, None)
  | [] => (false, None)
  end.

Definition commonSourceDirs : list string :=
  [ "src"; "lib"; "app"; "components"; "services"; "utils"; "core"; "modules";
    "backend"; "frontend"; "server"; "client"; "api"; "web"; "ui"; "packages";
    "apps" ].

Definition configFiles : list string :=
  [ "tsconfig.json"; "jsconfig.json"; ".eslintrc"; ".prettierrc";
    "webpack.config.js"; "vite.config.js"; "rollup.config.js";
    "babel.config.js"; ".babelrc"; "Makefile"; "CMakeLists.txt"; "Dockerfile";
    "docker-compose.yml" ].

(** [/^readme\.(md|txt|rst)$/i.test(f) || /^readme$/i.test(f)] *)
Definition isReadme (f : string) : bool :=
  arr_includes (toLowerCase f) ["readme.md"; "readme.txt"; "readme.rst"; "readme"].

(** [Math.min(a, b)] on numbers that are not NaN *)
Definition Math_min (a b : float) : float :=
  if (b <? a)%float then b else a.

Definition detectGenericProject (entries : list (string * Entry))
    (files : list string) : Detection :=
  let confidence := 0%float in
  let hasGit := arr_includes ".git" files in
  let confidence := if hasGit then (confidence + 0.25)%float else confidence in
  let hasReadme := existsb isReadme files in
  let confidence := if hasReadme then (confidence + 0.15)%float else confidence in
  let hasSourceDir := checkForDirectories entries files commonSourceDirs in
  let confidence := if hasSourceDir then (confidence + 0.2)%float else confidence in
  let codeFileAnalysis := analyzeCodeFiles files in
  let confidence :=
    if fst codeFileAnalysis then (confidence + 0.15)%float else confidence in
  let language := if fst codeFileAnalysis then snd codeFileAnalysis else None in
  let hasConfig :=
    existsb
      (fun f =>
         arr_includes f configFiles
         || existsb (fun c => startsWith c f) configFiles) files in
  let confidence := if hasConfig then (confidence + 0.1)%float else confidence in
  let hasDocs :=
    checkForDirectories entries files ["docs"; "documentation"; "doc"] in
  let confidence := if hasDocs then (confidence + 0.05)%float else confidence in
  let hasTests :=
    checkForDirectories entries files ["test"; "tests"; "__tests__"; "spec"] in
  let confidence := if hasTests then (confidence + 0.05)%float else confidence in
  {| projectType := nodejs;
     confidence := Math_min confidence 0.95;
     framework := None;
     language := language;
     packageManager := None |}.

(** the detections pushed for markers in the project directory itself, in
    the order of the checks *)
Definition rootDetections (entries : list (string * Entry))
    (files : list string) : list Detection :=
  (if arr_includes "package.json" files
   then [detection nodejs 0.95 (analyzeNodeProject entries)] else [])
  ++ (let pythonMarkers :=
        List.filter (fun marker => arr_includes marker files) PYTHON_MARKERS in
      if (0 <? List.length pythonMarkers)%nat
      then [detection python
              (if (2 <=? List.length pythonMarkers)%nat then 0.9 else 0.7)%float
              (analyzePythonProject entries pythonMarkers)]
      else [])
  ++ (if arr_includes "Cargo.toml" files
      then [detection rust 0.95 (None, Some "Rust", Some "cargo")] else [])
  ++ (if arr_includes "go.mod" files
      then [detection go 0.95 (None, Some "Go", Some "go modules")] else [])
  ++ (let javaMarkers :=
        List.filter
          (fun marker =>
             existsb
               (fun f => String.eqb f marker
                         || (includes "*" marker && endsWith ".gradle" f))
               files) JAVA_MARKERS in
      if (0 <? List.length javaMarkers)%nat
      then
        let packageManager :=
          if existsb (fun m => includes "gradle" m) javaMarkers then Some "gradle"
          else if existsb (fun m => String.eqb m "pom.xml") javaMarkers
               then Some "maven"
               else None in
        [detection java 0.9 (None, Some "Java", packageManager)]
      else [])
  ++ (if arr_includes "composer.json" files
      then [detection php 0.9 (None, Some "PHP", Some "composer")] else [])
  ++ (if arr_includes "Gemfile" files
      then [detection ruby 0.9 (None, Some "Ruby", Some "bundler")] else [])
  ++ (if arr_includes "pubspec.yaml" files
      then [detection nodejs 0.95 (Some "Flutter", Some "Dart", Some "pub")]
      else []).

Definition isEmpty {A} (l : list A) : bool :=
  match l with [] => true | _ => false end.

Definition noDetection : Detection :=
  {| projectType := unknown; confidence := 0; framework := None;
     language := None; packageManager := None |}.

Definition detectProjectType (entries : list (string * Entry))
    (files : list string) : Detection :=
  let detections := rootDetections entries files in
  let detections :=
    if isEmpty detections then
      match checkNestedProjects entries files with
      | Some nestedDetection => detections ++ [nestedDetection]
      | None => detections
      end
    else detections in
  let detections :=
    if isEmpty detections then
      let genericDetection := detectGenericProject entries files in
      if (0 <? confidence genericDetection)%float
      then detections ++ [genericDetection]
      else detections
    else detections in
  match
    stable_sort (fun a b => (0 <? confidence b - confidence a)%float) detections
  with
  | [] => noDetection
  | best :: _ => best
  end.

Definition invalid (c : float) : ValidationResult :=
  {| isValid := false;
     result := {| projectType := unknown; confidence := c; framework := None;
                  language := None; packageManager := None |} |}.

Definition validateProject (projectPath : string) (root : Root)
    : ValidationResult :=
  match root with
  | Missing => invalid 0
  | NotADirectory => invalid 0
  | Directory listing =>
      let dirName := basename projectPath in
      if arr_includes dirName SYSTEM_DIRECTORIES || startsWith "." dirName
      then invalid 0
      else
        match listing with
        | None => invalid 0
        | Some entries =>
            let files := map fst entries in
            if isEmpty files then invalid 0
            else
              let detectionResult := detectProjectType entries files in
              if (confidence detectionResult <? 0.5)%float
              then invalid (confidence detectionResult)
              else {| isValid := true; result := detectionResult |}
        end
  end.

End Detection.

End Validator.

(** ** The debouncer

    The class [Debouncer] of the file watcher, together with the part of
    the JavaScript runtime it programs: the clock and the table of timers
    that were set and have neither fired nor been cleared.  All timers of
    one debouncer are set with the same delay, so they come due in the order
    in which they were set; a timer fires when the clock reaches the time
    it was set for.  The callback given to the constructor only receives
    events; the events it received are kept in [delivered], with the time of
    delivery. *)

Module Debouncer.

Section Debouncer.
Context {T : Type}.

Record DebouncedEvent := {
  key : string;
  data : T;
  timestamp : nat
}.

(** a timer of the runtime: its handle, the key its closure captured, and
    the time it was set for *)
Record Timer := {
  handle : nat;
  timer_key : string;
  due : nat
}.

Record State := {
  timers : gmap string nat;
  pendingEvents : gmap string DebouncedEvent;
  now : nat;
  scheduled : list Timer;
  nextHandle : nat;
  delivered : list (nat * DebouncedEvent)
}.

(** [this.delay] *)
Variable delay : nat.

(** the state after [new Debouncer(callback, delay)] at time [t] *)
Definition create (t : nat) : State :=
  {| timers := ∅; pendingEvents := ∅; now := t; scheduled := [];
     nextHandle := O; delivered := [] |}.

Definition clearTimeout (h : nat) (st : State) : State :=
  {| timers := timers st; pendingEvents := pendingEvents st; now := now st;
     scheduled := List.filter (fun t => negb (Nat.eqb (handle t) h)) (scheduled st);
     nextHandle := nextHandle st; delivered := delivered st |}.

Definition debounce (k : string) (d : T) (st : State) : State :=
  let st :=
    match timers st !! k with
    | Some existingTimer => clearTimeout existingTimer st
    | None => st
    end in
  let event := {| key := k; data := d; timestamp := now st |} in
  let timer := nextHandle st in
  {| timers := <[k := timer]> (timers st);
     pendingEvents := <[k := event]> (pendingEvents st);
     now := now st;
     scheduled :=
       scheduled st ++ [{| handle := timer; timer_key := k; due := (now st + delay)%nat |}];
     nextHandle := S (nextHandle st);
     delivered := delivered st |}.

(** the body of the function given to [setTimeout], run when timer [t]
    fires *)
Definition fire (t : Timer) (st : State) : State :=
  match pendingEvents st !! timer_key t with
  | Some event =>
      {| timers := delete (timer_key t) (timers st);
         pendingEvents := delete (timer_key t) (pendingEvents st);
         now := now st; scheduled := scheduled st; nextHandle := nextHandle st;
         delivered := delivered st ++ [(due t, event)] |}
  | None => st
  end.

(** the runtime lets [dt] milliseconds pass: the timers that come due fire,
    in the order in which they were set *)
Definition advance (dt : nat) (st : State) : State :=
  let target := (now st + dt)%nat in
  let dueTimers := List.filter (fun t => (due t <=? target)%nat) (scheduled st) in
  let later := List.filter (fun t => negb (due t <=? target)%nat) (scheduled st) in
  let st :=
    fold_left (fun st t => fire t st) dueTimers
      {| timers := timers st; pendingEvents := pendingEvents st; now := now st;
         scheduled := later; nextHandle := nextHandle st;
         delivered := delivered st |} in
  {| timers := timers st; pendingEvents := pendingEvents st; now := target;
     scheduled := scheduled st; nextHandle := nextHandle st;
     delivered := delivered st |}.

Definition flush (k : string) (st : State) : State :=
  let st :=
    match timers st !! k with
    | Some timer =>
        let st := clearTimeout timer st in
        {| timers := delete k (timers st); pendingEvents := pendingEvents st;
           now := now st; scheduled := scheduled st;
           nextHandle := nextHandle st; delivered := delivered st |}
    | None => st
    end in
  match pendingEvents st !! k with
  | Some event =>
      {| timers := timers st; pendingEvents := delete k (pendingEvents st);
         now := now st; scheduled := scheduled st; nextHandle := nextHandle st;
         delivered := delivered st ++ [(now st, event)] |}
  | None => st
  end.

Definition cancel (k : string) (st : State) : State :=
  let st :=
    match timers st !! k with
    | Some timer =>
        let st := clearTimeout timer st in
        {| timers := delete k (timers st); pendingEvents := pendingEvents st;
           now := now st; scheduled := scheduled st;
           nextHandle := nextHandle st; delivered := delivered st |}
    | None => st
    end in
  {| timers := timers st; pendingEvents := delete k (pendingEvents st);
     now := now st; scheduled := scheduled st; nextHandle := nextHandle st;
     delivered := delivered st |}.

Definition hasPending (k : string) (st : State) : bool :=
  match pendingEvents st !! k with Some _ => true | None => false end.

Definition getPendingCount (st : State) : nat := size (pendingEvents st).

(** What happens to a debouncer: [debounce(key, data)] is called, or time
    passes. *)
Inductive Action :=
  | Call (k : string) (d : T)
  | Wait (dt : nat).

Definition step (st : State) (a : Action) : State :=
  match a with
  | Call k d => debounce k d st
  | Wait dt => advance dt st
  end.

Definition run (acts : list Action) (st : State) : State :=
  fold_left step acts st.

(** the data of the latest [debounce(k, _)] call in a history *)
Definition latest (k : string) (acts : list Action) : option T :=
  fold_left
    (fun found a =>
       match a with
       | Call k' d => if String.eqb k' k then Some d else found
       | Wait _ => found
       end) acts None.

(** [flushAll()].  The loop visits [this.pendingEvents.keys()]; [keys] is
    what that iterator yields, the keys of the pending events in the order
    in which they were first set.  [flush(key)] removes from the map only
    the key being visited, so every key is visited once. *)
Definition flushAll (keys : list string) (st : State) : State :=
  fold_left (fun st k => flush k st) keys st.

(** [cancelAll()].  Clearing one timer leaves the others as they are, so
    the order in which [this.timers.values()] yields them does not show. *)
Definition cancelAll (st : State) : State :=
  let st :=
    fold_left (fun st entry => clearTimeout (snd entry) st)
      (map_to_list (timers st)) st in
  {| timers := ∅; pendingEvents := ∅; now := now st;
     scheduled := scheduled st; nextHandle := nextHandle st;
     delivered := delivered st |}.

Definition destroy (st : State) : State := cancelAll st.

(** The states of a debouncer: the one its constructor leaves, and those
    that calls of its methods and the passing of time lead to. *)
Inductive reachable : State -> Prop :=
  | reach_create (t : nat) : reachable (create t)
  | reach_debounce (st : State) (k : string) (d : T) :
      reachable st -> reachable (debounce k d st)
  | reach_advance (st : State) (dt : nat) :
      reachable st -> reachable (advance dt st)
  | reach_flush (st : State) (k : string) :
      reachable st -> reachable (flush k st)
  | reach_flushAll (st : State) (keys : list string) :
      reachable st -> reachable (flushAll keys st)
  | reach_cancel (st : State) (k : string) :
      reachable st -> reachable (cancel k st)
  | reach_cancelAll (st : State) :
      reachable st -> reachable (cancelAll st).

End Debouncer.

Arguments DebouncedEvent T : clear implicits.
Arguments State T : clear implicits.
Arguments Action T : clear implicits.

End Debouncer.

(** ** The file watcher

    The handlers that [FileWatcher.setupEventHandlers] registers for the
    [addDir] and [unlinkDir] events of the directory watcher.  Each acts on
    one of the two debouncers of the service. *)

Module FileWatcher.

Section Handlers.
(** [this.config.watchPath] and [this.config.debounceDelay] *)
Variable watchPath : string.
Variable debounceDelay : nat.

Definition onAddDir (dirPath : string) (addDebouncer : Debouncer.State string)
    : Debouncer.State string :=
  if String.eqb dirPath watchPath || Validator.isSystemDirectory dirPath
  then addDebouncer
  else
    let relativePath := relative watchPath dirPath in
    let depth := List.length (split path_sep relativePath) in
    if (depth =? 1)%nat
    then Debouncer.debounce debounceDelay dirPath dirPath addDebouncer
    else addDebouncer.

Definition onUnlinkDir (dirPath : string)
    (removeDebouncer : Debouncer.State string) : Debouncer.State string :=
  if String.eqb dirPath watchPath || Validator.isSystemDirectory dirPath
  then removeDebouncer
  else
    let relativePath := relative watchPath dirPath in
    let depth := List.length (split path_sep relativePath) in
    if (depth =? 1)%nat
    then Debouncer.debounce debounceDelay dirPath dirPath removeDebouncer
    else removeDebouncer.

End Handlers.

End FileWatcher.

(** ** The analyzer worker's types *)

Module Types.

Inductive Level := low | medium | high.

Inductive Complexity := simple | moderate | complex | very_complex.

Inductive MaturityLevel := poc | mvp | production_ready | enterprise.

Inductive RecommendationType :=
  | security | performance | architecture | tooling | documentation.

Record TechStack := {
  frontend : option (list string);
  backend : option (list string);
  database : option (list string);
  devOps : option (list string);
  testing : option (list string);
  other : option (list string)
}.

Record Recommendation := {
  rec_type : RecommendationType;
  title : string;
  description : string;
  rec_priority : Level
}.

Record ValueRange := {
  min : Z;
  max : Z;
  range_confidence : Level
}.

Record EstimatedValue := {
  currency : string;
  saasMonthly : ValueRange;
  ipSale : ValueRange;
  reasoning : string
}.

(** [cacheHit] is set by the analyzer client from the provider's usage
    report: [cache_read_input_tokens > 0]. *)
Record AnalysisMetadata := {
  model : string;
  tokensUsed : Z;
  cacheHit : bool;
  cacheRead : option Z;
  cacheCreation : option Z;
  duration : Z;
  timestamp : Z
}.

Record AnalysisResult := {
  projectId : string;
  summary : string;
  techStack : TechStack;
  complexity : Complexity;
  recommendations : list Recommendation;
  completionScore : Z;
  maturityLevel : MaturityLevel;
  productionGaps : list string;
  estimatedValue : EstimatedValue;
  metadata : AnalysisMetadata
}.

(** Dates are the millisecond count of their time value; in the parsed JSON
    of a cache entry they are the ISO strings of the same instants. *)
Record CachedAnalysis := {
  result : AnalysisResult;
  projectHash : string;
  lastModified : Z;
  createdAt : Z;
  expiresAt : Z
}.

Inductive ProgressStatus :=
  | queued | extracting | analyzing | caching | completed | failed.

Record JobProgress := {
  jp_projectId : string;
  jp_status : ProgressStatus;
  jp_progress : Z;
  jp_message : option string;
  jp_error : option string
}.

Record AnalysisJobData := {
  job_projectId : string;
  job_projectPath : string;
  job_projectName : string;
  job_forceRefresh : option bool
}.

Record ProjectContext := {
  ctx_name : string;
  ctx_path : string;
  ctx_readme : option string;
  ctx_mainFiles : list ContextExtractor.FileContent;
  ctx_fileCount : Z;
  ctx_linesOfCode : Z;
  ctx_totalSize : Z;
  ctx_estimatedTokens : Z
}.

Record WorkerStats := {
  jobsProcessed : Z;
  jobsFailed : Z;
  cacheHits : Z;
  cacheMisses : Z;
  totalTokensUsed : Z;
  averageDuration : Q;
  uptime : Z
}.

End Types.

(** ** The result cache

    [CacheManager] over a model of the Redis server it talks to: a table
    from keys to a stored value and the time at which the server expires
    it.  Every operation is given the clock readings it makes, in the order
    it makes them. *)

(** [new Date(x)] keeps the integral part of its argument *)
Definition Qtrunc (q : Q) : Z :=
  if Qle_bool 0 q then Qfloor q else Qceiling q.

Module CacheManager.
Import Types.

Section Cache.
(** [crypto.createHash('sha256').update(s).digest('hex')] *)
Variable sha256 : string -> string.
(** [date.toISOString()] *)
Variable toISOString : Z -> string.
(** the text Redis holds, written by [JSON.stringify] and read by
    [JSON.parse] ([None]: it throws) *)
Variable Stored : Type.
Variable JSON_stringify : CachedAnalysis -> Stored.
Variable JSON_parse : Stored -> option CachedAnalysis.

Record Redis := {
  table : gmap string (Stored * Z);
  connected : bool
}.

(** [GET key] at server time [t]; the outer [None] is a rejected command,
    the inner one the nil reply.  The server expires a key once its time has
    passed. *)
Definition redis_get (r : Redis) (k : string) (t : Z)
    : option (option Stored) :=
  if connected r then
    match table r !! k with
    | Some (v, expiry) => if expiry <? t then Some None else Some (Some v)
    | None => Some None
    end
  else None.

(** [SETEX key seconds value] at server time [t]: the server rejects a
    number of seconds that is not a positive integer *)
Definition redis_setex (r : Redis) (k : string) (seconds : Q) (v : Stored)
    (t : Z) : option Redis :=
  if connected r && Qeq_bool (inject_Z (Qfloor seconds)) seconds
     && (0 <? Qfloor seconds)
  then Some {| table := <[k := (v, t + Qfloor seconds * 1000)]> (table r);
               connected := connected r |}
  else None.

(** [DEL key] *)
Definition redis_del (r : Redis) (k : string) : option Redis :=
  if connected r
  then Some {| table := delete k (table r); connected := connected r |}
  else None.

Record CacheManager := {
  client : Redis;
  ttl : Q
}.

(** [new CacheManager(redisUrl, ttlHours)] on the server state [r] *)
Definition create (r : Redis) (ttlHours : Q) : CacheManager :=
  {| client := r; ttl := (ttlHours * 3600)%Q |}.

Definition generateCacheKey (projectPath : string) (lastModified : Z) : string :=
  let hash := sha256 (projectPath +:+ ":" +:+ toISOString lastModified) in
  "analysis:" +:+ hash.

(** [get(projectPath, lastModified)]: the server answers at [tGet], and
    [new Date()] in the expiry check reads [tNow]. *)
Definition get (cm : CacheManager) (projectPath : string) (lastModified : Z)
    (tGet tNow : Z) : option CachedAnalysis * CacheManager :=
  let key := generateCacheKey projectPath lastModified in
  match redis_get (client cm) key tGet with
  | None => (None, cm)
  | Some None => (None, cm)
  | Some (Some cached) =>
      match JSON_parse cached with
      | None => (None, cm)
      | Some parsed =>
          if expiresAt parsed <? tNow then
            match redis_del (client cm) key with
            | Some r => (None, {| client := r; ttl := ttl cm |})
            | None => (None, cm)
            end
          else (Some parsed, cm)
      end
  end.

(** [set(projectPath, lastModified, result)]: [new Date()] and [Date.now()]
    read [tNow], and the server executes the command at [tSet]. *)
Definition set (cm : CacheManager) (projectPath : string) (lastModified : Z)
    (res : AnalysisResult) (tNow tSet : Z) : bool * CacheManager :=
  let key := generateCacheKey projectPath lastModified in
  let projectHash := sha256 projectPath in
  let cached :=
    {| result := res;
       projectHash := projectHash;
       lastModified := lastModified;
       createdAt := tNow;
       expiresAt := Qtrunc (inject_Z tNow + ttl cm * 1000)%Q |} in
  match redis_setex (client cm) key (ttl cm) (JSON_stringify cached) tSet with
  | Some r => (true, {| client := r; ttl := ttl cm |})
  | None => (false, cm)
  end.

(** [KEYS prefix*] at server time [t]: the keys that begin with [prefix]
    and have not expired.  Redis promises no order for the reply; [order]
    is the one in which the server lists the keys it found. *)
Variable order : list string -> list string.

Definition redis_keys (r : Redis) (prefix : string) (t : Z)
    : option (list string) :=
  if connected r then
    Some (order
            (map fst
               (List.filter
                  (fun entry =>
                     startsWith prefix (fst entry)
                     && negb (snd (snd entry) <? t))
                  (map_to_list (table r)))))
  else None.

(** The loop of [invalidate] over the keys still to visit.  The [n]-th
    command of the call reaches the server at time [t n]; the result is the
    count when the loop is left, or [None] when a command is rejected or
    [JSON.parse] throws, and the server as the loop leaves it. *)
Fixpoint invalidateLoop (projectHash : string) (keys : list string)
    (r : Redis) (t : nat -> Z) (n : nat) (deleted : Z) : option Z * Redis :=
  match keys with
  | [] => (Some deleted, r)
  | key :: rest =>
      match redis_get r key (t n) with
      | None => (None, r)
      | Some None => invalidateLoop projectHash rest r t (S n) deleted
      | Some (Some cached) =>
          match JSON_parse cached with
          | None => (None, r)
          | Some parsed =>
              if String.eqb (Types.projectHash parsed) projectHash then
                match redis_del r key with
                | None => (None, r)
                | Some r' =>
                    invalidateLoop projectHash rest r' t (S (S n)) (deleted + 1)
                end
              else invalidateLoop projectHash rest r t (S n) deleted
          end
      end
  end.

(** [invalidate(projectPath)]; [KEYS] is the command sent at [t 0]. *)
Definition invalidate (cm : CacheManager) (projectPath : string)
    (t : nat -> Z) : Z * CacheManager :=
  let projectHash := sha256 projectPath in
  match redis_keys (client cm) "analysis:" (t O) with
  | None => (0, cm)
  | Some keys =>
      match invalidateLoop projectHash keys (client cm) t 1 0 with
      | (Some deleted, r) => (deleted, {| client := r; ttl := ttl cm |})
      | (None, r) => (0, {| client := r; ttl := ttl cm |})
      end
  end.

(** The loop of [clearExpired]; [clock i] is what the [i]-th evaluation of
    [new Date()] reads. *)
Fixpoint clearExpiredLoop (keys : list string) (r : Redis) (t : nat -> Z)
    (n : nat) (clock : nat -> Z) (i : nat) (deleted : Z) : option Z * Redis :=
  match keys with
  | [] => (Some deleted, r)
  | key :: rest =>
      match redis_get r key (t n) with
      | None => (None, r)
      | Some None => clearExpiredLoop rest r t (S n) clock i deleted
      | Some (Some cached) =>
          match JSON_parse cached with
          | None => (None, r)
          | Some parsed =>
              if expiresAt parsed <? clock i then
                match redis_del r key with
                | None => (None, r)
                | Some r' =>
                    clearExpiredLoop rest r' t (S (S n)) clock (S i)
                      (deleted + 1)
                end
              else clearExpiredLoop rest r t (S n) clock (S i) deleted
          end
      end
  end.

(** [clearExpired()] *)
Definition clearExpired (cm : CacheManager) (t : nat -> Z) (clock : nat -> Z)
    : Z * CacheManager :=
  match redis_keys (client cm) "analysis:" (t O) with
  | None => (0, cm)
  | Some keys =>
      match clearExpiredLoop keys (client cm) t 1 clock 0 0 with
      | (Some deleted, r) => (deleted, {| client := r; ttl := ttl cm |})
      | (None, r) => (0, {| client := r; ttl := ttl cm |})
      end
  end.

End Cache.

Arguments table {Stored} r.
Arguments connected {Stored} r.
Arguments client {Stored} c.
Arguments ttl {Stored} c.

End CacheManager.

(** ** The worker processor

    [WorkerProcessor.processJob] over the state it reads and writes: the
    two tables of the database, the Redis server of the result cache, the
    events handed to the pub/sub channel, the progress stored on the job and
    the counters of the worker.  What the file system, the job store, the
    database connection, the context extractor and the rate-limited analyzer
    call answer is given by an environment [Env]. *)

Module WorkerProcessor.
Import Types.

Inductive ProjectStatus :=
  | DISCOVERED | QUEUED | ANALYZING | ANALYZED | ERROR | ARCHIVED.

(** a row of [projects]: the columns the worker reads or writes (the
    descriptive columns and the timestamps that the database client keeps
    by itself are left out) *)
Record Project := {
  id : string;
  name : string;
  path : string;
  fileCount : option Z;
  linesOfCode : option Z;
  size : option Z;
  status : ProjectStatus;
  isActive : bool;
  analyzedAt : option Z
}.

(** a row of [project_analyses] *)
Record ProjectAnalysis := {
  pa_projectId : string;
  pa_summary : string;
  pa_techStack : TechStack;
  pa_complexity : Complexity;
  pa_recommendations : list Recommendation;
  pa_completionScore : Z;
  pa_maturityLevel : MaturityLevel;
  pa_productionGaps : list string;
  pa_estimatedValue : EstimatedValue;
  pa_model : string;
  pa_tokensUsed : Z;
  pa_cacheHit : bool;
  pa_createdAt : Z
}.

Record Database := {
  projects : gmap string Project;
  analyses : list ProjectAnalysis
}.

Inductive EventType :=
  | analysis_started | analysis_progress | analysis_completed | analysis_failed.

Inductive EventData :=
  | StartedData (projectName : string)
  | ProgressData (progress : JobProgress)
  | CompletedData (summary : string) (complexity : Complexity)
      (techStack : TechStack) (metadata : AnalysisMetadata)
  | FailedData (error : option string).

Record WebSocketEvent := {
  ev_type : EventType;
  ev_projectId : string;
  ev_data : EventData;
  ev_timestamp : Z
}.

(** what [fs.stat] answers *)
Inductive Stat :=
  | StatOk (isDirectory : bool) (mtime : Z)
  | StatError (e : JsError).

Section Processor.
Variable sha256 : string -> string.
Variable toISOString : Z -> string.
Variable Stored : Type.
Variable JSON_stringify : CachedAnalysis -> Stored.
Variable JSON_parse : Stored -> option CachedAnalysis.

Record World := {
  db : Database;
  cache : CacheManager.CacheManager Stored;
  bus : list WebSocketEvent;
  jobProgress : list JobProgress;
  stats : WorkerStats;
  clock : Z;
  statCalls : nat;
  progressCalls : nat;
  dbCalls : nat
}.

(** The answers of the collaborators: the n-th [fs.stat], the rejection (if
    any) of the n-th [job.updateProgress] and of the n-th database call,
    the outcome of the context extraction under its 30 s timeout, the
    outcome of the analysis under the rate limiter and its timeout, and the
    time the two take. *)
Record Env := {
  fs_stat : nat -> Stat;
  updateProgress_rejects : nat -> option JsError;
  database_rejects : nat -> option JsError;
  extractContext : JsError + ProjectContext;
  extractTime : Z;
  analyzeProject : JsError + AnalysisResult;
  analyzeTime : Z
}.

Variable env : Env.

(** *** Promises: state and rejection *)

Definition M (A : Type) : Type := World -> (JsError + A) * World.

Definition ret {A} (a : A) : M A := fun w => (inr a, w).

Definition throw {A} (e : JsError) : M A := fun w => (inl e, w).

Definition bind {A B} (m : M A) (k : A -> M B) : M B :=
  fun w =>
    match m w with
    | (inl e, w') => (inl e, w')
    | (inr a, w') => k a w'
    end.

Definition tryCatch {A} (m : M A) (handler : JsError -> M A) : M A :=
  fun w =>
    match m w with
    | (inl e, w') => handler e w'
    | (inr a, w') => (inr a, w')
    end.

Definition gets {A} (f : World -> A) : M A := fun w => (inr (f w), w).

Definition modify (f : World -> World) : M unit := fun w => (inr tt, f w).

Notation "x <- m ;; k" := (bind m (fun x => k))
  (at level 100, m at next level, right associativity).
Notation "m ;; k" := (bind m (fun _ => k))
  (at level 100, right associativity).

Definition set_db (d : Database) (w : World) : World :=
  {| db := d; cache := cache w; bus := bus w; jobProgress := jobProgress w;
     stats := stats w; clock := clock w; statCalls := statCalls w;
     progressCalls := progressCalls w; dbCalls := dbCalls w |}.

Definition set_cache (c : CacheManager.CacheManager Stored) (w : World) : World :=
  {| db := db w; cache := c; bus := bus w; jobProgress := jobProgress w;
     stats := stats w; clock := clock w; statCalls := statCalls w;
     progressCalls := progressCalls w; dbCalls := dbCalls w |}.

Definition set_bus (b : list WebSocketEvent) (w : World) : World :=
  {| db := db w; cache := cache w; bus := b; jobProgress := jobProgress w;
     stats := stats w; clock := clock w; statCalls := statCalls w;
     progressCalls := progressCalls w; dbCalls := dbCalls w |}.

Definition set_jobProgress (p : list JobProgress) (w : World) : World :=
  {| db := db w; cache := cache w; bus := bus w; jobProgress := p;
     stats := stats w; clock := clock w; statCalls := statCalls w;
     progressCalls := progressCalls w; dbCalls := dbCalls w |}.

Definition set_stats (s : WorkerStats) (w : World) : World :=
  {| db := db w; cache := cache w; bus := bus w; jobProgress := jobProgress w;
     stats := s; clock := clock w; statCalls := statCalls w;
     progressCalls := progressCalls w; dbCalls := dbCalls w |}.

Definition set_clock (t : Z) (w : World) : World :=
  {| db := db w; cache := cache w; bus := bus w; jobProgress := jobProgress w;
     stats := stats w; clock := t; statCalls := statCalls w;
     progressCalls := progressCalls w; dbCalls := dbCalls w |}.

Definition set_statCalls (n : nat) (w : World) : World :=
  {| db := db w; cache := cache w; bus := bus w; jobProgress := jobProgress w;
     stats := stats w; clock := clock w; statCalls := n;
     progressCalls := progressCalls w; dbCalls := dbCalls w |}.

Definition set_progressCalls (n : nat) (w : World) : World :=
  {| db := db w; cache := cache w; bus := bus w; jobProgress := jobProgress w;
     stats := stats w; clock := clock w; statCalls := statCalls w;
     progressCalls := n; dbCalls := dbCalls w |}.

Definition set_dbCalls (n : nat) (w : World) : World :=
  {| db := db w; cache := cache w; bus := bus w; jobProgress := jobProgress w;
     stats := stats w; clock := clock w; statCalls := statCalls w;
     progressCalls := progressCalls w; dbCalls := n |}.

(** *** The collaborators *)

(** [WebSocketEmitter.emit]: the event is handed to the channel.  A
    rejected [publish] is caught there and only changes the boolean, which
    no caller reads. *)
Definition emit (event : WebSocketEvent) : M bool :=
  fun w => (inr true, set_bus (bus w ++ [event]) w).

Definition emitStarted (projectId projectName : string) : M bool :=
  now <- gets clock ;;
  emit {| ev_type := analysis_started; ev_projectId := projectId;
          ev_data := StartedData projectName; ev_timestamp := now |}.

Definition emitProgress (progress : JobProgress) : M bool :=
  now <- gets clock ;;
  emit {| ev_type := analysis_progress; ev_projectId := jp_projectId progress;
          ev_data := ProgressData progress; ev_timestamp := now |}.

Definition emitCompleted (res : AnalysisResult) : M bool :=
  now <- gets clock ;;
  emit {| ev_type := analysis_completed; ev_projectId := projectId res;
          ev_data := CompletedData (summary res) (complexity res)
                       (techStack res) (metadata res);
          ev_timestamp := now |}.

Definition emitFailed (projectId : string) (error : option string) : M bool :=
  now <- gets clock ;;
  emit {| ev_type := analysis_failed; ev_projectId := projectId;
          ev_data := FailedData error; ev_timestamp := now |}.

(** [job.updateProgress(progress)] of the queue library *)
Definition job_updateProgress (progress : JobProgress) : M unit :=
  fun w =>
    let w' := set_progressCalls (S (progressCalls w)) w in
    match updateProgress_rejects env (progressCalls w) with
    | Some e => (inl e, w')
    | None => (inr tt, set_jobProgress (jobProgress w ++ [progress]) w')
    end.

(** [fs.stat(path)] *)
Definition stat (p : string) : M (bool * Z) :=
  fun w =>
    let w' := set_statCalls (S (statCalls w)) w in
    match fs_stat env (statCalls w) with
    | StatOk isDirectory mtime => (inr (isDirectory, mtime), w')
    | StatError e => (inl e, w')
    end.

(** a call on the database connection, which the connection may reject *)
Definition prisma {A} (query : Database -> JsError + (A * Database)) : M A :=
  fun w =>
    let w' := set_dbCalls (S (dbCalls w)) w in
    match database_rejects env (dbCalls w) with
    | Some e => (inl e, w')
    | None =>
        match query (db w) with
        | inl e => (inl e, w')
        | inr (a, d) => (inr a, set_db d w')
        end
    end.

(** [prisma.projectAnalysis.create({ data })]: the row must reference an
    existing project *)
Definition projectAnalysis_create (data : ProjectAnalysis) (d : Database)
    : JsError + (unit * Database) :=
  match projects d !! pa_projectId data with
  | Some _ =>
      inr (tt, {| projects := projects d; analyses := analyses d ++ [data] |})
  | None => inl (newError "Foreign key constraint violated")
  end.

(** [prisma.project.update({ where: { id }, data })]: [change] sets the
    columns named in [data]; the row must exist *)
Definition project_update (pid : string) (change : Project -> Project)
    (d : Database) : JsError + (unit * Database) :=
  match projects d !! pid with
  | Some row =>
      inr (tt, {| projects := <[pid := change row]> (projects d);
                  analyses := analyses d |})
  | None => inl (newError "Record to update not found")
  end.

(** *** The methods of [WorkerProcessor] *)

Definition validateProjectPath (projectPath : string) : M unit :=
  tryCatch
    (stats <- stat projectPath ;;
     if negb (fst stats)
     then throw (newError ("Path is not a directory: " +:+ projectPath))
     else ret tt)
    (fun error =>
       match code error with
       | Some c =>
           if String.eqb c "ENOENT" then
             throw (newError ("Project path does not exist: " +:+ projectPath))
           else if String.eqb c "EACCES" then
             throw (newError ("Permission denied accessing: " +:+ projectPath))
           else throw error
       | None => throw error
       end).

Definition updateProgress (progress : JobProgress) : M unit :=
  job_updateProgress progress ;;
  emitProgress progress ;;
  ret tt.

(** the [data] of the [create] call in [saveToDatabase] *)
Definition analysisRow (res : AnalysisResult) (now : Z) : ProjectAnalysis :=
  {| pa_projectId := projectId res;
     pa_summary := summary res;
     pa_techStack := techStack res;
     pa_complexity := complexity res;
     pa_recommendations := recommendations res;
     pa_completionScore := completionScore res;
     pa_maturityLevel := maturityLevel res;
     pa_productionGaps := productionGaps res;
     pa_estimatedValue := estimatedValue res;
     pa_model := model (metadata res);
     pa_tokensUsed := tokensUsed (metadata res);
     pa_cacheHit := cacheHit (metadata res);
     pa_createdAt := now |}.

(** [data: { status: 'ANALYZED', analyzedAt: new Date() }] *)
Definition markAnalyzed (now : Z) (row : Project) : Project :=
  {| id := id row; name := name row; path := path row;
     fileCount := fileCount row; linesOfCode := linesOfCode row;
     size := size row; status := ANALYZED; isActive := isActive row;
     analyzedAt := Some now |}.

(** [data: { fileCount, linesOfCode, size }] *)
Definition setContextMetadata (context : ProjectContext) (row : Project)
    : Project :=
  {| id := id row; name := name row; path := path row;
     fileCount := Some (ctx_fileCount context);
     linesOfCode := Some (ctx_linesOfCode context);
     size := Some (ctx_totalSize context);
     status := status row; isActive := isActive row;
     analyzedAt := analyzedAt row |}.

Definition saveToDatabase (res : AnalysisResult) : M unit :=
  tryCatch
    (now <- gets clock ;;
     prisma (projectAnalysis_create (analysisRow res now)) ;;
     now <- gets clock ;;
     prisma (project_update (projectId res) (markAnalyzed now)))
    (fun error => throw error).

Definition updateStats (duration : Z) (tokens : Z) : M unit :=
  modify (fun w =>
    let s := stats w in
    let processed := jobsProcessed s + 1 in
    let totalDuration :=
      (averageDuration s * inject_Z (processed - 1) + inject_Z duration)%Q in
    set_stats
      {| jobsProcessed := processed;
         jobsFailed := jobsFailed s;
         cacheHits := cacheHits s;
         cacheMisses := cacheMisses s;
         totalTokensUsed := totalTokensUsed s + tokens;
         averageDuration := (totalDuration / inject_Z processed)%Q;
         uptime := uptime s |} w).

Definition countCacheHit : M unit :=
  modify (fun w =>
    let s := stats w in
    set_stats
      {| jobsProcessed := jobsProcessed s; jobsFailed := jobsFailed s;
         cacheHits := cacheHits s + 1; cacheMisses := cacheMisses s;
         totalTokensUsed := totalTokensUsed s;
         averageDuration := averageDuration s; uptime := uptime s |} w).

Definition countCacheMiss : M unit :=
  modify (fun w =>
    let s := stats w in
    set_stats
      {| jobsProcessed := jobsProcessed s; jobsFailed := jobsFailed s;
         cacheHits := cacheHits s; cacheMisses := cacheMisses s + 1;
         totalTokensUsed := totalTokensUsed s;
         averageDuration := averageDuration s; uptime := uptime s |} w).

Definition countFailed : M unit :=
  modify (fun w =>
    let s := stats w in
    set_stats
      {| jobsProcessed := jobsProcessed s; jobsFailed := jobsFailed s + 1;
         cacheHits := cacheHits s; cacheMisses := cacheMisses s;
         totalTokensUsed := totalTokensUsed s;
         averageDuration := averageDuration s; uptime := uptime s |} w).

(** [this.cacheManager.get(projectPath, lastModified)] *)
Definition cacheManager_get (projectPath : string) (lastModified : Z)
    : M (option CachedAnalysis) :=
  fun w =>
    let '(cached, c) :=
      CacheManager.get sha256 toISOString Stored JSON_parse (cache w)
        projectPath lastModified (clock w) (clock w) in
    (inr cached, set_cache c w).

(** [this.cacheManager.set(projectPath, lastModified, result)] *)
Definition cacheManager_set (projectPath : string) (lastModified : Z)
    (res : AnalysisResult) : M bool :=
  fun w =>
    let '(ok, c) :=
      CacheManager.set sha256 toISOString Stored JSON_stringify (cache w)
        projectPath lastModified res (clock w) (clock w) in
    (inr ok, set_cache c w).

(** an awaited call that takes [ms] milliseconds and settles with
    [outcome] *)
Definition await {A} (ms : Z) (outcome : JsError + A) : M A :=
  fun w => (outcome, set_clock (clock w + ms) w).

Definition progressOf (projectId : string) (st : ProgressStatus) (percent : Z)
    (msg : option string) (err : option string) : JobProgress :=
  {| jp_projectId := projectId; jp_status := st; jp_progress := percent;
     jp_message := msg; jp_error := err |}.

(** the part of [processJob] after the cache check *)
Definition analyzeFresh (job : AnalysisJobData) (lastModified startTime : Z)
    : M unit :=
  let projectId := job_projectId job in
  let projectPath := job_projectPath job in
  updateProgress
    (progressOf projectId extracting 20 (Some "Extracting project context") None) ;;
  context <- await (extractTime env) (extractContext env) ;;
  prisma (project_update projectId (setContextMetadata context)) ;;
  updateProgress
    (progressOf projectId analyzing 50 (Some "Analyzing with AI") None) ;;
  res <- await (analyzeTime env) (analyzeProject env) ;;
  updateProgress
    (progressOf projectId caching 80 (Some "Caching results") None) ;;
  cacheManager_set projectPath lastModified res ;;
  updateProgress
    (progressOf projectId caching 90 (Some "Saving to database") None) ;;
  saveToDatabase res ;;
  emitCompleted res ;;
  updateProgress
    (progressOf projectId completed 100 (Some "Analysis complete") None) ;;
  now <- gets clock ;;
  updateStats (now - startTime) (tokensUsed (metadata res)).

(** the branch of [processJob] taken on a cache hit *)
Definition serveFromCache (job : AnalysisJobData) (cached : CachedAnalysis)
    (startTime : Z) : M unit :=
  let projectId := job_projectId job in
  let res := result cached in
  countCacheHit ;;
  saveToDatabase res ;;
  emitCompleted res ;;
  updateProgress
    (progressOf projectId completed 100
       (Some "Analysis complete (from cache)") None) ;;
  now <- gets clock ;;
  updateStats (now - startTime) 0.

Definition processJob (job : AnalysisJobData) : M unit :=
  let projectId := job_projectId job in
  let projectPath := job_projectPath job in
  let projectName := job_projectName job in
  let forceRefresh :=
    match job_forceRefresh job with Some b => b | None => false end in
  startTime <- gets clock ;;
  tryCatch
    (emitStarted projectId projectName ;;
     updateProgress (progressOf projectId queued 0 (Some "Job queued") None) ;;
     validateProjectPath projectPath ;;
     stats <- stat projectPath ;;
     let lastModified := snd stats in
     if negb forceRefresh then
       updateProgress
         (progressOf projectId extracting 10 (Some "Checking cache") None) ;;
       cached <- cacheManager_get projectPath lastModified ;;
       match cached with
       | Some cached => serveFromCache job cached startTime
       | None =>
           countCacheMiss ;;
           analyzeFresh job lastModified startTime
       end
     else analyzeFresh job lastModified startTime)
    (fun error =>
       countFailed ;;
       emitFailed projectId (message error) ;;
       updateProgress (progressOf projectId failed 0 None (message error)) ;;
       throw error).

End Processor.

End WorkerProcessor.

(** * Properties *)

(** ** The analysis queue *)

Module AnalysisQueueFacts.
Import AnalysisQueue.

Lemma initialize_idempotent (c : AnalysisQueueClient) :
  initialize (initialize c) = initialize c.
Proof. unfold initialize. destruct (isInitialized c) eqn:E; simpl; now rewrite ?E. Qed.

(** C5.  The queue that [AnalysisQueueClient.initialize] creates keeps the
    most recent 100 completed jobs for up to 24 hours and the most recent 500
    failed jobs, but its default retry policy is three attempts with an
    exponential back-off from 2000 ms, and that is what every job the client
    adds runs under; the one attempt per job is the policy of the worker's
    queue manager, which opens the queue of the same name. *)
Theorem client_queue_defaults_to_three_attempts :
  forall (dec : Z -> string) (now : Z) (data : AnalysisJobData),
  exists q c j,
    queue (initialize newClient) = Some q
    /\ queue_name q = queue_name managerQueue
    /\ attempts (defaultJobOptions q) = Some 3
    /\ backoff (defaultJobOptions q)
       = Some {| backoff_type := "exponential"; backoff_delay := 2000 |}
    /\ removeOnComplete (defaultJobOptions q)
       = Some {| keep_count := Some 100; keep_age := Some 86400 |}
    /\ removeOnFail (defaultJobOptions q)
       = Some {| keep_count := Some 500; keep_age := None |}
    /\ addAnalysisJob dec now (initialize newClient) data = inr (c, j)
    /\ attempts (job_opts j) = Some 3
    /\ attempts (defaultJobOptions managerQueue) = Some 1.
Proof.
  intros dec now data. simpl.
  eexists _, _, _. repeat split; reflexivity.
Qed.

End AnalysisQueueFacts.

(** ** The rate-limited executor *)

Module RateLimiterFacts.
Import RateLimiter.

Lemma clean_length (st : State) (now : Z) :
  (List.length (requestTimestamps (cleanOldTimestamps st now))
   <= List.length (requestTimestamps st))%nat.
Proof. simpl. apply filter_length_le. Qed.

Lemma clean_idempotent (st : State) (now : Z) :
  cleanOldTimestamps (cleanOldTimestamps st now) now = cleanOldTimestamps st now.
Proof.
  unfold cleanOldTimestamps. simpl. f_equal.
  induction (requestTimestamps st) as [|ts l IH]; simpl; [reflexivity|].
  destruct (now - 60000 <? ts) eqn:E; simpl; rewrite ?E, IH; reflexivity.
Qed.

Lemma clean_concurrent (st : State) (now : Z) :
  currentConcurrent (cleanOldTimestamps st now) = currentConcurrent st.
Proof. reflexivity. Qed.

(** After the wait computed by [getWaitTime], the first timestamp has left
    the window. *)
Lemma clean_drops_oldest (st : State) (now oldest : Z) (rest : list Z) :
  requestTimestamps (cleanOldTimestamps st now) = oldest :: rest ->
  (List.length
     (requestTimestamps
        (cleanOldTimestamps (cleanOldTimestamps st now)
           (sleep (Z.max 0 (60000 - (now - oldest) + 100)) now)))
   <= List.length rest)%nat.
Proof.
  intros H.
  assert (Hin : now - 60000 < oldest).
  { assert (In oldest (requestTimestamps (cleanOldTimestamps st now)))
      by (rewrite H; left; reflexivity).
    simpl in H0. apply filter_In in H0. destruct H0 as [_ H0]. lia. }
  unfold cleanOldTimestamps at 1. cbn [requestTimestamps]. rewrite H.
  unfold sleep. cbn [List.filter].
  replace (now + Z.max 0 (60000 - (now - oldest) + 100) - 60000 <? oldest)
    with false by (symmetry; apply Z.ltb_ge; lia).
  apply filter_length_le.
Qed.

Lemma waitForRate_returns (cfg : RateLimitConfig) :
  1 <= requestsPerMinute cfg ->
  forall fuel st now,
    (List.length (requestTimestamps (cleanOldTimestamps st now)) <= fuel)%nat ->
    exists st' now',
      waitForRate fuel cfg st now = Some (st', now')
      /\ currentConcurrent st' = currentConcurrent st.
Proof.
  intros Hrpm fuel. induction fuel as [|fuel IH]; intros st now Hlen.
  - cbn [waitForRate]. unfold canMakeRequest.
    replace (Z.of_nat (List.length (requestTimestamps (cleanOldTimestamps st now)))
             <? requestsPerMinute cfg) with true
      by (symmetry; apply Z.ltb_lt; lia).
    eexists _, _. split; reflexivity.
  - cbn [waitForRate]. unfold canMakeRequest.
    destruct (Z.of_nat (List.length (requestTimestamps (cleanOldTimestamps st now)))
              <? requestsPerMinute cfg) eqn:E.
    + eexists _, _. split; reflexivity.
    + apply Z.ltb_ge in E.
      unfold getWaitTime. rewrite clean_idempotent.
      destruct (requestTimestamps (cleanOldTimestamps st now))
        as [|oldest rest] eqn:Hts.
      { simpl in E. lia. }
      replace (requestsPerMinute cfg <=? Z.of_nat (List.length (oldest :: rest)))
        with true by (symmetry; apply Z.leb_le; lia).
      destruct (IH (cleanOldTimestamps st now)
                  (sleep (Z.max 0 (60000 - (now - oldest) + 100)) now))
        as (st' & now' & Hw & Hc).
      { pose proof (clean_drops_oldest st now oldest rest Hts).
        simpl in Hlen. lia. }
      exists st', now'. split; [exact Hw | now rewrite Hc].
Qed.

(** With a free slot and a positive request budget, [waitForSlot] returns
    and [releaseSlot] gives the slot back. *)
Lemma waitForSlot_returns (cfg : RateLimitConfig) (st : State) (now : Z) :
  0 <= currentConcurrent st < maxConcurrent cfg ->
  1 <= requestsPerMinute cfg ->
  exists st' now',
    waitForSlot cfg st now = Some (st', now')
    /\ currentConcurrent (releaseSlot st') = currentConcurrent st.
Proof.
  intros Hc Hrpm. unfold waitForSlot.
  replace (maxConcurrent cfg <=? currentConcurrent st) with false
    by (symmetry; apply Z.leb_gt; lia).
  destruct (waitForRate_returns cfg Hrpm
              (List.length (requestTimestamps st)) st now (clean_length st now))
    as (st' & now' & Hw & Hcc).
  rewrite Hw. eexists _, _. split; [reflexivity|].
  simpl. rewrite Hcc. lia.
Qed.

(** The loop of [execute] when the first [n] invocations left all fail and
    the next one, if any is left, returns.  The kind of the errors plays no
    part. *)
Lemma executeLoop_spec {T} (cfg : RateLimitConfig) (fn : nat -> JsError + T)
    (random : nat -> Q) (maxRetries : Z) :
  1 <= requestsPerMinute cfg ->
  forall (n remaining : nat) (attempt : Z) (lastError : option JsError) (r : Run T),
    0 <= currentConcurrent (final r) < maxConcurrent cfg ->
    attempt + Z.of_nat remaining = maxRetries ->
    (n <= remaining)%nat ->
    (forall k, (k < n)%nat -> exists e, fn (invocations r + k)%nat = inl e) ->
    (n < remaining)%nat -> (exists v, fn (invocations r + n)%nat = inr v) ->
    let r' := executeLoop cfg fn random maxRetries remaining attempt lastError r in
    invocations r' = (invocations r + n + 1)%nat
    /\ (exists v, fn (invocations r + n)%nat = inr v /\ outcome r' = Returned v)
    /\ List.length (retries r') = (List.length (retries r) + n)%nat
    /\ List.length (delays r') = (List.length (delays r) + n)%nat.
Proof.
  intros Hrpm n. induction n as [|n IH];
    intros remaining attempt lastError r Hcc Hatt Hle Hfail Hlt [v Hv].
  - destruct remaining as [|remaining]; [lia|].
    cbn [executeLoop].
    destruct (waitForSlot_returns cfg (final r) (finished r) Hcc Hrpm)
      as (st' & now' & Hw & _).
    rewrite Hw. rewrite Nat.add_0_r in Hv. rewrite Hv. cbn.
    repeat split; try lia. exists v. rewrite Nat.add_0_r. split; [exact Hv | reflexivity].
  - destruct remaining as [|remaining]; [lia|].
    cbn [executeLoop].
    destruct (waitForSlot_returns cfg (final r) (finished r) Hcc Hrpm)
      as (st' & now' & Hw & Hrel).
    rewrite Hw.
    destruct (Hfail O ltac:(lia)) as [e He]. rewrite Nat.add_0_r in He.
    rewrite He.
    replace (attempt + 1 <? maxRetries) with true
      by (symmetry; apply Z.ltb_lt; lia).
    match goal with
    | |- context [executeLoop _ _ _ _ remaining ?a ?le ?r0] =>
        specialize (IH remaining a le r0)
    end.
    cbn [final invocations retries delays] in IH.
    destruct IH as (Hi & Ho & Hr & Hd).
    + rewrite Hrel. exact Hcc.
    + lia.
    + lia.
    + intros k Hk. replace (S (invocations r) + k)%nat
        with (invocations r + S k)%nat by lia. apply Hfail. lia.
    + lia.
    + exists v. replace (S (invocations r) + n)%nat
        with (invocations r + S n)%nat by lia. exact Hv.
    + cbv zeta. rewrite Hi, Hr, Hd. rewrite !length_app. cbn [List.length].
      repeat split; try lia.
      destruct Ho as (v' & Hv' & Ho). exists v'.
      replace (invocations r + S n)%nat with (S (invocations r) + n)%nat by lia.
      split; assumption.
Qed.

Lemma executeLoop_exhausts {T} (cfg : RateLimitConfig) (fn : nat -> JsError + T)
    (random : nat -> Q) (maxRetries : Z) :
  1 <= requestsPerMinute cfg ->
  forall (remaining : nat) (attempt : Z) (lastError : option JsError) (r : Run T),
    0 <= currentConcurrent (final r) < maxConcurrent cfg ->
    attempt + Z.of_nat remaining = maxRetries ->
    (forall k, (k < remaining)%nat -> exists e, fn (invocations r + k)%nat = inl e) ->
    let r' := executeLoop cfg fn random maxRetries remaining attempt lastError r in
    invocations r' = (invocations r + remaining)%nat
    /\ outcome r'
       = Threw (match remaining with
                | O => lastError
                | S p =>
                    match fn (invocations r + p)%nat with
                    | inl e => Some e
                    | inr _ => None
                    end
                end)
    /\ List.length (retries r') = (List.length (retries r) + (remaining - 1))%nat
    /\ List.length (delays r') = (List.length (delays r) + (remaining - 1))%nat.
Proof.
  intros Hrpm remaining. induction remaining as [|remaining IH];
    intros attempt lastError r Hcc Hatt Hfail.
  - cbn. repeat split; lia.
  - cbn [executeLoop].
    destruct (waitForSlot_returns cfg (final r) (finished r) Hcc Hrpm)
      as (st' & now' & Hw & Hrel).
    rewrite Hw.
    destruct (Hfail O ltac:(lia)) as [e He]. rewrite Nat.add_0_r in He.
    rewrite He.
    destruct (attempt + 1 <? maxRetries) eqn:E.
    + apply Z.ltb_lt in E.
      match goal with
      | |- context [executeLoop _ _ _ _ remaining ?a ?le ?r0] =>
          specialize (IH a le r0)
      end.
      cbn [final invocations retries delays] in IH.
      destruct IH as (Hi & Ho & Hr & Hd).
      * rewrite Hrel. exact Hcc.
      * lia.
      * intros k Hk. replace (S (invocations r) + k)%nat
          with (invocations r + S k)%nat by lia. apply Hfail. lia.
      * cbv zeta. rewrite Hi, Ho, Hr, Hd. rewrite !length_app. cbn [List.length].
        destruct remaining as [|p]; [lia|].
        replace (S (invocations r) + p)%nat with (invocations r + S p)%nat by lia.
        repeat split; lia.
    + apply Z.ltb_ge in E.
      assert (remaining = O) by lia. subst remaining.
      cbn. rewrite Nat.add_0_r, He. repeat split; lia.
Qed.

(** the configuration the worker's entry point builds when the environment
    sets none of the variables *)
Definition defaultConfig : RateLimitConfig :=
  {| maxConcurrent := 3; requestsPerMinute := 10; backoffMultiplier := 2;
     maxRetries := 3; initialDelayMs := 2000 |}.

(** an error that section 4.C6 does not class as retryable *)
Definition serverError : JsError :=
  {| status := Some 500; code := None;
     message := Some "Internal server error" |}.




End RateLimiterFacts.

(** ** The context extractor *)

Module ContextExtractorFacts.
Import ContextExtractor.

Lemma In_sort_insert {A} (after : A -> A -> bool) (x y : A) (l : list A) :
  In y (sort_insert after x l) <-> y = x \/ In y l.
Proof.
  induction l as [|z l IH]; simpl.
  - intuition.
  - destruct (after x z); simpl; rewrite ?IH; intuition.
Qed.

Lemma In_stable_sort {A} (after : A -> A -> bool) (y : A) (l : list A) :
  In y (stable_sort after l) <-> In y l.
Proof.
  induction l as [|x l IH]; simpl; [reflexivity|].
  rewrite In_sort_insert, IH. intuition.
Qed.

Lemma append_empty (s t : string) : s +:+ t = EmptyString -> t = EmptyString.
Proof. destruct s; simpl; [auto | discriminate]. Qed.

Section Facts.
Variable encode : string -> list Z.
Variable decode : list Z -> string.
Variable readFile : string -> option string.
Variable maxTokens : Z.

Abbreviation countTokens := (countTokens encode).
Abbreviation truncateToTokens := (truncateToTokens encode decode).
Abbreviation extractLoop := (extractLoop encode decode readFile).
Abbreviation extractMainFiles := (extractMainFiles encode decode readFile maxTokens).

(** the threshold of the loop, in integers: 90% of the remaining budget *)
Lemma limitReached_iff (remainingTokens currentTokens : Z) :
  limitReached remainingTokens currentTokens = true
  <-> 9 * remainingTokens <= 10 * currentTokens.
Proof.
  unfold limitReached. rewrite Qle_bool_iff. unfold Qle. simpl. lia.
Qed.

Lemma limitReached_false (remainingTokens currentTokens : Z) :
  limitReached remainingTokens currentTokens = false
  <-> 10 * currentTokens < 9 * remainingTokens.
Proof.
  pose proof (limitReached_iff remainingTokens currentTokens) as [H1 H2].
  destruct (limitReached remainingTokens currentTokens); split; intros H.
  - discriminate.
  - specialize (H1 eq_refl). lia.
  - destruct (Z.le_gt_cases (9 * remainingTokens) (10 * currentTokens)) as [L|L];
      [specialize (H2 L); discriminate | lia].
  - reflexivity.
Qed.

Lemma countTokens_nonneg (text : string) : 0 <= countTokens text.
Proof. unfold ContextExtractor.countTokens. lia. Qed.

(** A text that does not fit is cut to the tokens that do, and marked. *)
Lemma truncateToTokens_cuts (text : string) (n : Z) :
  0 <= n < countTokens text ->
  truncateToTokens text n
  = decode (firstn (Z.to_nat n) (encode text)) +:+ TRUNCATED.
Proof.
  intros H. unfold ContextExtractor.truncateToTokens, ContextExtractor.countTokens in *.
  replace (Z.of_nat (List.length (encode text)) <=? n) with false
    by (symmetry; apply Z.leb_gt; lia).
  unfold slice0. replace (0 <=? n) with true by (symmetry; apply Z.leb_le; lia).
  reflexivity.
Qed.

Lemma truncated_not_empty (text : string) (n : Z) :
  0 <= n < countTokens text ->
  String.eqb (truncateToTokens text n) EmptyString = false.
Proof.
  intros H. rewrite truncateToTokens_cuts by exact H.
  apply String.eqb_neq. intros E. apply append_empty in E. discriminate.
Qed.

(** Once 90% of the remaining budget is consumed the loop is left. *)
Lemma extractLoop_stops (projectPath : string) (remainingTokens : Z)
    (files : list FileEntry) (currentTokens : Z) (mainFiles : list FileContent) :
  limitReached remainingTokens currentTokens = true ->
  extractLoop projectPath remainingTokens files currentTokens mainFiles
  = (mainFiles, currentTokens).
Proof. intros H. destruct files; simpl; [reflexivity | now rewrite H]. Qed.

(** The loop only appends to [mainFiles]. *)
Lemma extractLoop_app (projectPath : string) (remainingTokens : Z)
    (files : list FileEntry) :
  forall (currentTokens : Z) (mainFiles : list FileContent),
    extractLoop projectPath remainingTokens files currentTokens mainFiles
    = (mainFiles
         ++ fst (extractLoop projectPath remainingTokens files currentTokens []),
       snd (extractLoop projectPath remainingTokens files currentTokens [])).
Proof.
  induction files as [|file rest IH]; intros currentTokens mainFiles; simpl.
  - now rewrite app_nil_r.
  - destruct (limitReached remainingTokens currentTokens);
      [simpl; now rewrite app_nil_r|].
    destruct (100 * 1024 <? size file); [apply IH|].
    destruct (readFile (path file)) as [content|]; [|apply IH].
    destruct (remainingTokens <? currentTokens + countTokens content).
    + destruct (String.eqb _ _); simpl; [now rewrite app_nil_r | reflexivity].
    + rewrite IH. rewrite (IH _ [_]). simpl. now rewrite <- app_assoc.
Qed.

(** Files above 100 KB play no part: the loop does the same without them. *)
Lemma extractLoop_skips_large (projectPath : string) (remainingTokens : Z)
    (files : list FileEntry) :
  forall (currentTokens : Z) (mainFiles : list FileContent),
    extractLoop projectPath remainingTokens files currentTokens mainFiles
    = extractLoop projectPath remainingTokens
        (List.filter (fun f => size f <=? 102400) files) currentTokens mainFiles.
Proof.
  induction files as [|file rest IH]; intros currentTokens mainFiles;
    [reflexivity|].
  cbn [List.filter].
  destruct (size file <=? 102400) eqn:E.
  - cbn [ContextExtractor.extractLoop].
    destruct (limitReached remainingTokens currentTokens); [reflexivity|].
    destruct (100 * 1024 <? size file); [apply IH|].
    destruct (readFile (path file)) as [content|]; [|apply IH].
    destruct (remainingTokens <? currentTokens + countTokens content);
      [reflexivity | apply IH].
  - cbn [ContextExtractor.extractLoop].
    destruct (limitReached remainingTokens currentTokens) eqn:L.
    + now rewrite extractLoop_stops.
    + replace (100 * 1024 <? size file) with true
        by (symmetry; apply Z.ltb_lt; apply Z.leb_gt in E; lia).
      apply IH.
Qed.

(** the tokens of the texts admitted so far *)
Definition tokensOf (files : list FileContent) : Z :=
  fold_right (fun fc n => countTokens (fc_content fc) + n) 0 files.

(** the text kept of [content] when only [room] tokens are left *)
Definition cut (content : string) (room : Z) : string :=
  decode (firstn (Z.to_nat room) (encode content)) +:+ TRUNCATED.

(** A file that fits is admitted whole and the loop goes on. *)
Lemma extractLoop_admits (projectPath : string) (remainingTokens : Z)
    (file : FileEntry) (rest : list FileEntry) (currentTokens : Z)
    (mainFiles : list FileContent) (content : string) :
  limitReached remainingTokens currentTokens = false ->
  size file <= 102400 ->
  readFile (path file) = Some content ->
  currentTokens + countTokens content <= remainingTokens ->
  extractLoop projectPath remainingTokens (file :: rest) currentTokens mainFiles
  = extractLoop projectPath remainingTokens rest
      (currentTokens + countTokens content)
      (mainFiles ++ [fileContent projectPath file content]).
Proof.
  intros L S R F. cbn [ContextExtractor.extractLoop]. rewrite L, R.
  replace (100 * 1024 <? size file) with false by (symmetry; apply Z.ltb_ge; lia).
  replace (remainingTokens <? currentTokens + countTokens content) with false
    by (symmetry; apply Z.ltb_ge; lia).
  reflexivity.
Qed.

(** A file that would exceed the budget is admitted cut, with the marker,
    and ends the loop. *)
Lemma extractLoop_truncates (projectPath : string) (remainingTokens : Z)
    (file : FileEntry) (rest : list FileEntry) (currentTokens : Z)
    (mainFiles : list FileContent) (content : string) :
  0 <= currentTokens ->
  limitReached remainingTokens currentTokens = false ->
  size file <= 102400 ->
  readFile (path file) = Some content ->
  remainingTokens < currentTokens + countTokens content ->
  extractLoop projectPath remainingTokens (file :: rest) currentTokens mainFiles
  = (mainFiles
       ++ [fileContent projectPath file
             (cut content (remainingTokens - currentTokens))],
     currentTokens
       + countTokens (cut content (remainingTokens - currentTokens))).
Proof.
  intros C L S R F. cbn [ContextExtractor.extractLoop]. rewrite L, R.
  apply limitReached_false in L.
  replace (100 * 1024 <? size file) with false by (symmetry; apply Z.ltb_ge; lia).
  replace (remainingTokens <? currentTokens + countTokens content) with true
    by (symmetry; apply Z.ltb_lt; lia).
  assert (H : 0 <= remainingTokens - currentTokens < countTokens content) by lia.
  rewrite (truncated_not_empty _ _ H), (truncateToTokens_cuts _ _ H).
  reflexivity.
Qed.

(** What the loop admits: every admitted file was reached below the 90%
    mark, is at most 100 KB, and is whole unless it is the last one, which
    is cut when it does not fit. *)
Lemma extractLoop_admitted (projectPath : string) (remainingTokens : Z)
    (files : list FileEntry) :
  forall (currentTokens : Z),
    0 <= currentTokens ->
    forall pre fc post,
      fst (extractLoop projectPath remainingTokens files currentTokens [])
      = pre ++ fc :: post ->
      10 * (currentTokens + tokensOf pre) < 9 * remainingTokens
      /\ exists file content,
           In file files /\ size file <= 102400
           /\ readFile (path file) = Some content
           /\ ((fc = fileContent projectPath file content
                /\ currentTokens + tokensOf pre + countTokens content
                   <= remainingTokens)
               \/ (post = []
                   /\ remainingTokens
                      < currentTokens + tokensOf pre + countTokens content
                   /\ fc = fileContent projectPath file
                             (cut content
                                (remainingTokens - (currentTokens + tokensOf pre))))).
Proof.
  induction files as [|file rest IH]; intros currentTokens Hc pre fc post Hout.
  - simpl in Hout. destruct pre; discriminate.
  - assert (Hin : forall f, In f rest -> In f (file :: rest)) by (intros; now right).
    cbn [ContextExtractor.extractLoop] in Hout.
    destruct (limitReached remainingTokens currentTokens) eqn:L.
    { simpl in Hout. destruct pre; discriminate. }
    destruct (100 * 1024 <? size file) eqn:S.
    { destruct (IH _ Hc _ _ _ Hout) as (? & f & c & ? & ?). split; [assumption|].
      exists f, c. split; [auto | assumption]. }
    destruct (readFile (path file)) as [content|] eqn:R.
    2:{ destruct (IH _ Hc _ _ _ Hout) as (? & f & c & ? & ?). split; [assumption|].
        exists f, c. split; [auto | assumption]. }
    apply Z.ltb_ge in S. pose proof (countTokens_nonneg content) as Hn.
    pose proof L as L'. apply limitReached_false in L'.
    destruct (remainingTokens <? currentTokens + countTokens content) eqn:F.
    + apply Z.ltb_lt in F.
      assert (H : 0 <= remainingTokens - currentTokens < countTokens content) by lia.
      rewrite (truncated_not_empty _ _ H), (truncateToTokens_cuts _ _ H) in Hout.
      simpl in Hout.
      destruct pre as [|e pre]; [|destruct pre; discriminate].
      injection Hout as <- <-. simpl. split; [lia|].
      exists file, content.
      split; [now left | split; [lia | split; [exact R |]]]. right.
      split; [reflexivity | split; [lia |]].
      unfold cut. do 4 f_equal. lia.
    + apply Z.ltb_ge in F. rewrite extractLoop_app in Hout. simpl in Hout.
      destruct pre as [|e pre].
      * injection Hout as <- _. simpl. split; [lia|].
        exists file, content.
        split; [now left | split; [lia | split; [exact R |]]]. left.
        split; [reflexivity | lia].
      * injection Hout as <- Hout.
        destruct (IH (currentTokens + countTokens content) ltac:(lia) _ _ _ Hout)
          as (Hlim & f & c & Hf & Hs & Hr & Hcases).
        cbn [tokensOf fold_right fc_content fileContent] in *.
        fold (tokensOf pre) in *.
        split; [lia|]. exists f, c. repeat split; auto.
        replace (currentTokens + (countTokens content + tokensOf pre))
          with (currentTokens + countTokens content + tokensOf pre) by lia.
        exact Hcases.
Qed.


End Facts.

(** A run: one token per character, a budget of 12 tokens; the first file
    fits, the second is above 100 KB, the third is cut to the 7 tokens
    left. *)
Example extraction_run :
  let encode := fun s => map (fun c => Z.of_nat (nat_of_ascii c)) (list_ascii_of_string s) in
  let decode := fun ts => string_of_list_ascii (map (fun t => ascii_of_nat (Z.to_nat t)) ts) in
  let readFile := fun p =>
    if String.eqb p "/p/a.ts" then Some "hello"
    else if String.eqb p "/p/big.ts" then Some "big"
    else if String.eqb p "/p/b.ts" then Some "0123456789"
    else None in
  extractMainFiles encode decode readFile 12 "/p"
    [ {| path := "/p/b.ts"; size := 10; ext := ".ts" |};
      {| path := "/p/big.ts"; size := 102401; ext := ".ts" |};
      {| path := "/p/a.ts"; size := 5; ext := ".ts" |} ] 0
  = [ {| fc_path := "a.ts"; fc_content := "hello";
         fc_language := "typescript"; fc_size := 5 |};
      {| fc_path := "b.ts";
         fc_content := "0123456" +:+ LF +:+ LF +:+ "[... truncated ...]";
         fc_language := "typescript"; fc_size := 10 |} ].
Proof. vm_compute. reflexivity. Qed.

End ContextExtractorFacts.

(** ** The project validator *)

Module ValidatorFacts.
Import Validator.

Lemma map_sort_insert {A B} (f : A -> B) (afterA : A -> A -> bool)
    (afterB : B -> B -> bool) :
  (forall x y, afterA x y = afterB (f x) (f y)) ->
  forall x l, map f (sort_insert afterA x l) = sort_insert afterB (f x) (map f l).
Proof.
  intros H x l. induction l as [|y l IH]; simpl; [reflexivity|].
  rewrite H. destruct (afterB (f x) (f y)); simpl; now rewrite ?IH.
Qed.

Lemma map_stable_sort {A B} (f : A -> B) (afterA : A -> A -> bool)
    (afterB : B -> B -> bool) :
  (forall x y, afterA x y = afterB (f x) (f y)) ->
  forall l, map f (stable_sort afterA l) = stable_sort afterB (map f l).
Proof.
  intros H l. induction l as [|x l IH]; simpl; [reflexivity|].
  rewrite (map_sort_insert f afterA afterB H). now rewrite IH.
Qed.

(** the confidence of the first element after
    [detections.sort((a, b) => b.confidence - a.confidence)] *)
Definition bestConfidence (confidences : list float) : float :=
  match stable_sort (fun a b => (0 <? b - a)%float) confidences with
  | [] => 0%float
  | c :: _ => c
  end.

(** the confidences pushed for the markers of the project directory itself:
    [package.json], the number of Python markers, [Cargo.toml], [go.mod],
    a Java marker, [composer.json], [Gemfile], [pubspec.yaml] *)
Definition rootConfidences (packageJson : bool) (pythonMarkers : nat)
    (cargo goMod javaMarker composer gemfile pubspec : bool) : list float :=
  (if packageJson then [0.95%float] else [])
  ++ (if (0 <? pythonMarkers)%nat
      then [if (2 <=? pythonMarkers)%nat then 0.9%float else 0.7%float] else [])
  ++ (if cargo then [0.95%float] else [])
  ++ (if goMod then [0.95%float] else [])
  ++ (if javaMarker then [0.9%float] else [])
  ++ (if composer then [0.9%float] else [])
  ++ (if gemfile then [0.9%float] else [])
  ++ (if pubspec then [0.95%float] else []).

Definition pythonMarkerCount (files : list string) : nat :=
  List.length (List.filter (fun marker => arr_includes marker files) PYTHON_MARKERS).

Definition hasJavaMarker (files : list string) : bool :=
  existsb (fun marker => arr_includes marker files) JAVA_MARKERS.

(** a marker file, other than a Python one, that [detectProjectType] looks
    for in the project directory *)
Definition hasStrongMarker (files : list string) : bool :=
  arr_includes "package.json" files
  || arr_includes "Cargo.toml" files
  || arr_includes "go.mod" files
  || hasJavaMarker files
  || arr_includes "composer.json" files
  || arr_includes "Gemfile" files
  || arr_includes "pubspec.yaml" files.

Lemma arr_includes_sym (x : string) (files : list string) :
  existsb (fun f => String.eqb f x) files = arr_includes x files.
Proof.
  unfold arr_includes. induction files as [|f files IH]; simpl; [reflexivity|].
  now rewrite IH, String.eqb_sym.
Qed.

Section Facts.
Variable JSON_parse : string -> option PackageJson.

Abbreviation rootDetections := (rootDetections JSON_parse).
Abbreviation detectProjectType := (detectProjectType JSON_parse).
Abbreviation validateProject := (validateProject JSON_parse).

Lemma javaMarker_test (files : list string) (marker : string) :
  includes "*" marker = false ->
  existsb
    (fun f => String.eqb f marker
              || (includes "*" marker && endsWith ".gradle" f)) files
  = arr_includes marker files.
Proof.
  intros H. unfold arr_includes.
  induction files as [|f files IH]; cbn [existsb]; [reflexivity|].
  rewrite IH, H. cbn [andb]. now rewrite orb_false_r, String.eqb_sym.
Qed.

Lemma javaMarkers_length (files : list string) :
  (0 <? List.length
          (List.filter
             (fun marker =>
                existsb
                  (fun f => String.eqb f marker
                            || (includes "*" marker && endsWith ".gradle" f))
                  files) JAVA_MARKERS))%nat
  = hasJavaMarker files.
Proof.
  unfold hasJavaMarker, JAVA_MARKERS. cbn [List.filter existsb].
  rewrite !javaMarker_test by reflexivity.
  destruct (arr_includes "pom.xml" files), (arr_includes "build.gradle" files),
    (arr_includes "build.gradle.kts" files), (arr_includes "gradlew" files);
    reflexivity.
Qed.

Lemma rootDetections_confidences (entries : list (string * Entry))
    (files : list string) :
  map confidence (rootDetections entries files)
  = rootConfidences (arr_includes "package.json" files)
      (pythonMarkerCount files) (arr_includes "Cargo.toml" files)
      (arr_includes "go.mod" files) (hasJavaMarker files)
      (arr_includes "composer.json" files) (arr_includes "Gemfile" files)
      (arr_includes "pubspec.yaml" files).
Proof.
  unfold Validator.rootDetections, rootConfidences.
  rewrite !map_app. rewrite javaMarkers_length.
  fold (pythonMarkerCount files).
  repeat match goal with
  | |- context [map confidence (if ?b then _ else _)] => destruct b
  end; reflexivity.
Qed.

Lemma best_confidence (detections : list Detection) :
  confidence
    match
      stable_sort (fun a b => (0 <? confidence b - confidence a)%float) detections
    with
    | [] => noDetection
    | best :: _ => best
    end
  = bestConfidence (map confidence detections).
Proof.
  unfold bestConfidence.
  rewrite <- (map_stable_sort confidence
                (fun a b => (0 <? confidence b - confidence a)%float)
                (fun a b => (0 <? b - a)%float)) by reflexivity.
  destruct (stable_sort _ detections); reflexivity.
Qed.

(** With a marker in the project directory, the nested and the generic
    checks are not made. *)
Lemma detectProjectType_root (entries : list (string * Entry))
    (files : list string) :
  isEmpty (rootDetections entries files) = false ->
  confidence (detectProjectType entries files)
  = bestConfidence (map confidence (rootDetections entries files)).
Proof.
  intros H. unfold Validator.detectProjectType. rewrite H. cbn zeta.
  rewrite H. apply best_confidence.
Qed.

Lemma isEmpty_map {A B} (f : A -> B) (l : list A) :
  isEmpty (map f l) = isEmpty l.
Proof. destruct l; reflexivity. Qed.

(** The best of the confidences pushed for root markers, when there is a
    marker other than a single Python one. *)
Lemma strong_confidence (packageJson : bool) (pythonMarkers : nat)
    (cargo goMod javaMarker composer gemfile pubspec : bool) :
  packageJson || cargo || goMod || javaMarker || composer || gemfile || pubspec
  || (2 <=? pythonMarkers)%nat = true ->
  let confidences :=
    rootConfidences packageJson pythonMarkers cargo goMod javaMarker composer
      gemfile pubspec in
  isEmpty confidences = false
  /\ (0.9 <=? bestConfidence confidences)%float = true
  /\ (bestConfidence confidences <=? 0.95)%float = true
  /\ (bestConfidence confidences <? 0.5)%float = false.
Proof.
  intros H.
  destruct pythonMarkers as [|[|pythonMarkers]];
    destruct packageJson, cargo, goMod, javaMarker, composer, gemfile, pubspec;
    try discriminate H; vm_compute; repeat split; reflexivity.
Qed.

Lemma single_python_confidence :
  let confidences := rootConfidences false 1 false false false false false false in
  isEmpty confidences = false
  /\ bestConfidence confidences = 0.7%float
  /\ (bestConfidence confidences <? 0.5)%float = false.
Proof. vm_compute. repeat split; reflexivity. Qed.

Lemma no_marker_in_empty_directory :
  hasStrongMarker [] = false /\ pythonMarkerCount [] = O.
Proof. split; reflexivity. Qed.

(** a project directory that holds one file, [requirements.txt] *)
Definition requirementsOnly : Root :=
  Directory (Some [("requirements.txt", File (Some "flask==2.0"))]).

(** C6, amended.  For a readable directory whose name is neither hidden nor
    that of a system directory: (a) if it contains [package.json],
    [Cargo.toml], [go.mod], a Java marker ([pom.xml], [build.gradle],
    [build.gradle.kts], [gradlew]), [composer.json], [Gemfile] or
    [pubspec.yaml], or at least two of the Python markers, the validator
    returns [isValid = true] with a confidence between 0.9 and 0.95; (b) if
    its only marker is a single Python marker file, it returns [isValid =
    true] with confidence 0.7.  And for every directory, (c) a detection
    confidence below 0.5 yields [isValid = false], so that (d) a valid
    result never carries a confidence below 0.5. *)
Theorem validator_confidence (projectPath : string)
    (entries : list (string * Entry)) :
  let files := map fst entries in
  let v := validateProject projectPath (Directory (Some entries)) in
  (isSystemDirectory projectPath = false ->
   hasStrongMarker files || (2 <=? pythonMarkerCount files)%nat = true ->
   isValid v = true
   /\ (0.9 <=? confidence (result v))%float = true
   /\ (confidence (result v) <=? 0.95)%float = true)
  /\ (isSystemDirectory projectPath = false ->
      hasStrongMarker files = false ->
      pythonMarkerCount files = 1%nat ->
      isValid v = true /\ confidence (result v) = 0.7%float)
  /\ ((confidence (detectProjectType entries files) <? 0.5)%float = true ->
      isValid v = false)
  /\ (forall root,
        isValid (validateProject projectPath root) = true ->
        (confidence (result (validateProject projectPath root)) <? 0.5)%float
        = false).
Proof.
  intros files v.
  split; [|split; [|split]].
  - intros Hsys Hmark.
    assert (Hne : isEmpty files = false).
    { destruct files; [discriminate Hmark | reflexivity]. }
    unfold hasStrongMarker in Hmark.
    pose proof (strong_confidence
                  (arr_includes "package.json" files) (pythonMarkerCount files)
                  (arr_includes "Cargo.toml" files) (arr_includes "go.mod" files)
                  (hasJavaMarker files) (arr_includes "composer.json" files)
                  (arr_includes "Gemfile" files)
                  (arr_includes "pubspec.yaml" files)) as H.
    cbv zeta in H. rewrite <- rootDetections_confidences with (entries := entries) in H.
    destruct H as (He & Hlo & Hhi & Hlt).
    { revert Hmark.
      generalize (arr_includes "package.json" files),
        (arr_includes "Cargo.toml" files), (arr_includes "go.mod" files),
        (hasJavaMarker files), (arr_includes "composer.json" files),
        (arr_includes "Gemfile" files), (arr_includes "pubspec.yaml" files),
        (2 <=? pythonMarkerCount files)%nat.
      intros [] [] [] [] [] [] [] []; simpl; auto. }
    rewrite isEmpty_map in He.
    rewrite <- detectProjectType_root in Hlo, Hhi, Hlt by exact He.
    subst v. unfold Validator.validateProject.
    unfold isSystemDirectory in Hsys. rewrite Hsys. fold files.
    rewrite Hne, Hlt. cbn [isValid result]. auto.
  - intros Hsys Hstrong Hpy.
    assert (Hne : isEmpty files = false).
    { destruct files; [discriminate Hpy | reflexivity]. }
    pose proof single_python_confidence as H. cbv zeta in H.
    unfold hasStrongMarker in Hstrong.
    repeat (apply orb_false_iff in Hstrong; destruct Hstrong as [Hstrong ?]).
    assert (Hc : map confidence (rootDetections entries files)
                 = rootConfidences false 1 false false false false false false).
    { rewrite rootDetections_confidences. now repeat f_equal. }
    rewrite <- Hc in H. destruct H as (He & Hbest & Hlt).
    rewrite isEmpty_map in He.
    rewrite <- detectProjectType_root in Hbest, Hlt by exact He.
    subst v. unfold Validator.validateProject.
    unfold isSystemDirectory in Hsys. rewrite Hsys. fold files.
    rewrite Hne, Hlt. cbn [isValid result]. auto.
  - intros Hlow. subst v. unfold Validator.validateProject. fold files.
    destruct (arr_includes (basename projectPath) SYSTEM_DIRECTORIES
              || startsWith "." (basename projectPath)); [reflexivity|].
    destruct (isEmpty files); [reflexivity|].
    now rewrite Hlow.
  - intros root. unfold Validator.validateProject.
    destruct root as [| |listing]; try discriminate.
    destruct (arr_includes (basename projectPath) SYSTEM_DIRECTORIES
              || startsWith "." (basename projectPath)); [discriminate|].
    destruct listing as [entries'|]; [|discriminate].
    destruct (isEmpty (map fst entries')); [discriminate|].
    destruct (confidence (detectProjectType entries' (map fst entries')) <? 0.5)%float
      eqn:E; [discriminate|].
    intros _. exact E.
Qed.

End Facts.

(** C6, as stated, fails: a directory whose only Python marker is
    [requirements.txt] is valid, but with confidence 0.7, below 0.9. *)
Lemma single_python_marker_scores_below_strong :
  let v := Validator.validateProject (fun _ => None) "/projects/api"
             requirementsOnly in
  isValid v = true
  /\ confidence (result v) = 0.7%float
  /\ (0.9 <=? confidence (result v))%float = false.
Proof. vm_compute. repeat split; reflexivity. Qed.

(** The boundary cases of section 8: a directory with nothing but [.git]
    scores 0.25 and is rejected; so is one with a source directory, two code
    files, a configuration file and a test directory, whose weights add up
    to 0.49999999999999994 in binary64 arithmetic. *)
Example only_git_is_rejected :
  let v := Validator.validateProject (fun _ => None) "/projects/repo"
             (Directory (Some [(".git", Dir (Some ["HEAD"]))])) in
  isValid v = false /\ confidence (result v) = 0.25%float.
Proof. vm_compute. split; reflexivity. Qed.

Example generic_markers_just_below_threshold :
  let v := Validator.validateProject (fun _ => None) "/projects/tool"
             (Directory (Some [ ("src", Dir (Some ["main.c"]));
                                ("a.c", File (Some "")); ("b.c", File (Some ""));
                                ("Makefile", File (Some ""));
                                ("tests", Dir (Some [])) ])) in
  isValid v = false
  /\ (confidence (result v) <? 0.5)%float = true
  /\ confidence (result v) = (0 + 0.2 + 0.15 + 0.1 + 0.05)%float.
Proof. vm_compute. repeat split; reflexivity. Qed.

(** a project directory with [package.json] and a lock file *)
Definition nodeProject : list (string * Validator.Entry) :=
  [("package.json", File (Some "{}")); ("yarn.lock", File (Some ""));
   ("src", Dir (Some ["index.ts"]))].

(** The amended C6 at a Node.js project directory. *)
Lemma validator_confidence_witness :
  let v := Validator.validateProject (fun _ => None) "/projects/demo"
             (Directory (Some nodeProject)) in
  isSystemDirectory "/projects/demo" = false
  /\ hasStrongMarker (map fst nodeProject) = true
  /\ isValid v = true
  /\ (0.9 <=? confidence (result v))%float = true
  /\ (confidence (result v) <=? 0.95)%float = true.
Proof.
  assert (H1 : isSystemDirectory "/projects/demo" = false) by reflexivity.
  assert (H2 : hasStrongMarker (map fst nodeProject)
               || (2 <=? pythonMarkerCount (map fst nodeProject))%nat = true)
    by reflexivity.
  destruct (validator_confidence (fun _ => None) "/projects/demo" nodeProject)
    as [H _].
  split; [exact H1 | split; [reflexivity | exact (H H1 H2)]].
Defined.

End ValidatorFacts.

(** ** Sample values *)

Module Samples.
Import Types.

(** A cache whose stored text is the entry itself, with a TTL of one
    second. *)
Definition plainCache : CacheManager.CacheManager CachedAnalysis :=
  {| CacheManager.client :=
       {| CacheManager.table := ∅; CacheManager.connected := true |};
     CacheManager.ttl := 1 |}.

(** the result of a first analysis: the provider read no cached prompt
    tokens, so the analyzer client set [cacheHit] to [false] *)
Definition someResult : AnalysisResult :=
  {| projectId := "p1"; summary := "A small web service";
     techStack := {| frontend := None; backend := Some ["Express"];
                     database := None; devOps := None; testing := None;
                     other := None |};
     complexity := simple; recommendations := [];
     completionScore := 40; maturityLevel := poc; productionGaps := [];
     estimatedValue :=
       {| currency := "GBP";
          saasMonthly := {| min := 0; max := 0; range_confidence := low |};
          ipSale := {| min := 0; max := 0; range_confidence := low |};
          reasoning := "" |};
     metadata := {| model := "claude"; tokensUsed := 1500; cacheHit := false;
                    cacheRead := Some 0; cacheCreation := Some 1200;
                    duration := 900; timestamp := 0 |} |}.

End Samples.

(** ** The result cache *)

Module CacheManagerFacts.
Import Types CacheManager Samples.

Lemma Qtrunc_inject_Z (z : Z) : Qtrunc (inject_Z z) = z.
Proof.
  unfold Qtrunc. destruct (Qle_bool 0 (inject_Z z));
    [apply Qfloor_Z | apply Qceiling_Z].
Qed.

Lemma Qtrunc_comp (p q : Q) : (p == q)%Q -> Qtrunc p = Qtrunc q.
Proof.
  intros H. unfold Qtrunc.
  assert (E : Qle_bool 0 p = Qle_bool 0 q).
  { destruct (Qle_bool 0 p) eqn:Ep, (Qle_bool 0 q) eqn:Eq; auto.
    - apply Qle_bool_iff in Ep. rewrite H in Ep. apply Qle_bool_iff in Ep. congruence.
    - apply Qle_bool_iff in Eq. rewrite <- H in Eq. apply Qle_bool_iff in Eq. congruence. }
  rewrite E. destruct (Qle_bool 0 q);
    [now apply Qfloor_comp | now apply Qceiling_comp].
Qed.

(** the entry expires [seconds] seconds after it was built *)
Lemma expiresAt_seconds (ttl : Q) (now : Z) :
  (inject_Z (Qfloor ttl) == ttl)%Q ->
  Qtrunc (inject_Z now + ttl * 1000)%Q = now + Qfloor ttl * 1000.
Proof.
  intros H. rewrite <- Qtrunc_inject_Z. apply Qtrunc_comp.
  rewrite <- H at 1. rewrite inject_Z_plus, inject_Z_mult. reflexivity.
Qed.

Section Facts.
Variable sha256 : string -> string.
Variable toISOString : Z -> string.
Variable Stored : Type.
Variable JSON_stringify : CachedAnalysis -> Stored.
Variable JSON_parse : Stored -> option CachedAnalysis.

Abbreviation key := (generateCacheKey sha256 toISOString).
Abbreviation get := (get sha256 toISOString Stored JSON_parse).
Abbreviation set := (set sha256 toISOString Stored JSON_stringify).

(** No entry is handed out after the instant it expires. *)
Lemma get_not_expired (cm : CacheManager Stored) (projectPath : string)
    (lastModified tGet tNow : Z) (entry : CachedAnalysis) :
  fst (get cm projectPath lastModified tGet tNow) = Some entry ->
  tNow <= expiresAt entry.
Proof.
  unfold CacheManager.get.
  destruct (redis_get Stored (client cm) (key projectPath lastModified) tGet)
    as [[cached|]|]; try discriminate.
  destruct (JSON_parse cached) as [parsed|]; try discriminate.
  destruct (expiresAt parsed <? tNow) eqn:E.
  - destruct (redis_del _ _ _); discriminate.
  - simpl. intros [= <-]. now apply Z.ltb_ge in E.
Qed.

(** C8, amended.  If [JSON.parse] reads back what [JSON.stringify] wrote,
    the server is connected and the TTL is a positive whole number of
    seconds, then [set(path, mtime, result)] stores the entry, and
    [get(path, mtime)] afterwards, (a) while the server still holds the key
    and the clock has not passed [expiresAt], returns an entry whose
    [result] is the stored result, whose [lastModified] is the [mtime]
    given, and whose [expiresAt] is not in the past (it may be the present
    instant); (b) once the clock has passed [expiresAt] while the server
    still holds the key, deletes the key and returns nothing. *)
Theorem cache_round_trip (cm : CacheManager Stored) (projectPath : string)
    (mtime : Z) (res : AnalysisResult) (tNow tSet tGet tCheck : Z) :
  (forall c, JSON_parse (JSON_stringify c) = Some c) ->
  connected (client cm) = true ->
  (inject_Z (Qfloor (ttl cm)) == ttl cm)%Q ->
  0 < Qfloor (ttl cm) ->
  tGet <= tSet + Qfloor (ttl cm) * 1000 ->
  let expires := tNow + Qfloor (ttl cm) * 1000 in
  let stored := set cm projectPath mtime res tNow tSet in
  fst stored = true
  /\ (tCheck <= expires ->
      exists entry,
        get (snd stored) projectPath mtime tGet tCheck = (Some entry, snd stored)
        /\ result entry = res
        /\ lastModified entry = mtime
        /\ expiresAt entry = expires
        /\ tCheck <= expiresAt entry)
  /\ (expires < tCheck ->
      fst (get (snd stored) projectPath mtime tGet tCheck) = None
      /\ table (client (snd (get (snd stored) projectPath mtime tGet tCheck)))
           !! key projectPath mtime = None).
Proof.
  intros Hjson Hconn Hint Hpos Hget expires stored.
  subst stored. unfold CacheManager.set, redis_setex.
  rewrite Hconn.
  replace (Qeq_bool (inject_Z (Qfloor (ttl cm))) (ttl cm)) with true
    by (symmetry; now apply Qeq_bool_iff).
  replace (0 <? Qfloor (ttl cm)) with true by (symmetry; now apply Z.ltb_lt).
  cbn [andb fst snd]. rewrite expiresAt_seconds by exact Hint. fold expires.
  split; [reflexivity|].
  unfold CacheManager.get, redis_get. cbn [client connected table ttl].
  rewrite ?Hconn, lookup_insert_eq.
  replace (tSet + Qfloor (ttl cm) * 1000 <? tGet) with false
    by (symmetry; apply Z.ltb_ge; lia).
  rewrite Hjson. cbn [expiresAt].
  split.
  - intros Hlive.
    replace (expires <? tCheck) with false by (symmetry; apply Z.ltb_ge; lia).
    eexists. split; [reflexivity|]. cbn. repeat split; try reflexivity. exact Hlive.
  - intros Hdead.
    replace (expires <? tCheck) with true by (symmetry; apply Z.ltb_lt; lia).
    unfold redis_del. cbn [client connected table]. rewrite ?Hconn.
    cbn [fst snd client table]. split; [reflexivity | apply lookup_delete_eq].
Qed.

End Facts.

(** C8, as stated, fails at the instant of expiry: the entry is written at
    time 0 with a TTL of one second (the server executes the command at time
    1), and read at time 1000; it is returned, and its [expiresAt], 1000, is
    not strictly in the future. *)
Lemma entry_returned_at_the_instant_it_expires :
  let stored := CacheManager.set (fun s => s) (fun _ => "1970-01-01T00:00:00.000Z")
                  CachedAnalysis (fun c => c) plainCache "/projects/demo" 0
                  someResult 0 1 in
  let got := CacheManager.get (fun s => s) (fun _ => "1970-01-01T00:00:00.000Z")
               CachedAnalysis Some (snd stored) "/projects/demo" 0 1000 1000 in
  fst stored = true
  /\ exists entry,
       fst got = Some entry /\ result entry = someResult
       /\ expiresAt entry = 1000 /\ ~ (1000 < expiresAt entry).
Proof.
  vm_compute. split; [reflexivity|].
  eexists. split; [reflexivity|]. repeat split. intros H; discriminate H.
Qed.

(** The amended C8 at a read 500 ms after the write. *)
Lemma cache_round_trip_witness :
  let stored := CacheManager.set (fun s => s) (fun _ => "1970-01-01T00:00:00.000Z")
                  CachedAnalysis (fun c => c) plainCache "/projects/demo" 0
                  someResult 0 1 in
  connected (client plainCache) = true
  /\ 0 < Qfloor (ttl plainCache)
  /\ fst stored = true
  /\ exists entry,
       CacheManager.get (fun s => s) (fun _ => "1970-01-01T00:00:00.000Z")
         CachedAnalysis Some (snd stored) "/projects/demo" 0 500 500
       = (Some entry, snd stored)
       /\ result entry = someResult /\ lastModified entry = 0
       /\ 500 <= expiresAt entry.
Proof.
  assert (H1 : forall c : CachedAnalysis, Some ((fun c => c) c) = Some c)
    by reflexivity.
  assert (H2 : connected (client plainCache) = true) by reflexivity.
  assert (H3 : (inject_Z (Qfloor (ttl plainCache)) == ttl plainCache)%Q)
    by reflexivity.
  assert (H4 : 0 < Qfloor (ttl plainCache)) by (vm_compute; reflexivity).
  assert (H5 : 500 <= 1 + Qfloor (ttl plainCache) * 1000) by (vm_compute; discriminate).
  destruct (cache_round_trip (fun s => s) (fun _ => "1970-01-01T00:00:00.000Z")
              CachedAnalysis (fun c => c) Some plainCache "/projects/demo" 0
              someResult 0 1 500 500 H1 H2 H3 H4 H5) as (Hs & Hlive & _).
  destruct Hlive as (entry & Hg & Hr & Hm & He & Hf).
  { vm_compute. discriminate. }
  split; [exact H2 | split; [exact H4 | split; [exact Hs |]]].
  exists entry. repeat split; assumption.
Defined.

End CacheManagerFacts.

(** ** The debouncer *)

Module DebouncerFacts.
Import Debouncer.

Lemma filter_partition_perm {A} (f : A -> bool) (l : list A) :
  Permutation (List.filter f l ++ List.filter (fun x => negb (f x)) l) l.
Proof.
  induction l as [|x l IH]; simpl; [constructor|].
  destruct (f x); simpl.
  - now constructor.
  - etransitivity; [symmetry; apply Permutation_middle|]. now constructor.
Qed.

Lemma filter_none {A} (f : A -> bool) (l : list A) :
  (forall x, In x l -> f x = false) -> List.filter f l = [].
Proof.
  induction l as [|x l IH]; simpl; intros H; [reflexivity|].
  rewrite (H x) by now left. apply IH. intros. apply H. now right.
Qed.

Lemma NoDup_map_inj {A B} (f : A -> B) (l : list A) (x y : A) :
  NoDup (map f l) -> In x l -> In y l -> f x = f y -> x = y.
Proof.
  induction l as [|z l IH]; simpl; intros Hnd Hx Hy Hf; [contradiction|].
  inversion Hnd as [|? ? Hz Hnd']; subst. clear Hnd. rename Hnd' into Hnd.
  rewrite list_elem_of_In in Hz.
  destruct Hx as [<-|Hx], Hy as [<-|Hy]; auto.
  - exfalso. apply Hz. rewrite Hf. now apply in_map.
  - exfalso. apply Hz. rewrite <- Hf. now apply in_map.
Qed.

Section Facts.
Context {T : Type}.
Variable delay : nat.

Abbreviation State := (State T).
Abbreviation DebouncedEvent := (DebouncedEvent T).
Abbreviation debounce := (debounce (T:=T) delay).
Abbreviation run := (run (T:=T) delay).

(** Deliveries for one key are at least [delay] apart. *)
Fixpoint separated (l : list (nat * DebouncedEvent)) : Prop :=
  match l with
  | [] => True
  | (t, e) :: rest =>
      (forall t' e', In (t', e') rest -> key e' = key e -> (t + delay <= t')%nat)
      /\ separated rest
  end.

Lemma separated_snoc (l : list (nat * DebouncedEvent)) (t : nat)
    (e : DebouncedEvent) :
  separated l ->
  (forall t0 e0, In (t0, e0) l -> key e0 = key e -> (t0 + delay <= t)%nat) ->
  separated (l ++ [(t, e)]).
Proof.
  induction l as [|[t1 e1] l IH]; simpl; intros Hs Hn.
  - split; [intros ? ? []|exact I].
  - destruct Hs as [H1 Hs]. split.
    + intros t' e' Hin Hk. apply in_app_or in Hin. destruct Hin as [Hin|[[= <- <-]|[]]].
      * now apply (H1 t' e').
      * apply (Hn t1 e1); [now left | congruence].
    + apply IH; [exact Hs|]. intros t0 e0 ? ?.
      apply (Hn t0 e0); [now right | assumption].
Qed.

Lemma separated_apart (l : list (nat * DebouncedEvent)) :
  separated l ->
  forall pre t1 e1 mid t2 e2 post,
    l = pre ++ (t1, e1) :: mid ++ (t2, e2) :: post ->
    key e1 = key e2 -> (t1 + delay <= t2)%nat.
Proof.
  intros Hs pre. revert l Hs.
  induction pre as [|[t0 e0] pre IH]; intros l Hs t1 e1 mid t2 e2 post -> Hk.
  - destruct Hs as [H _]. apply (H t2 e2); [|congruence].
    apply in_or_app. right. now left.
  - destruct Hs as [_ Hs]. exact (IH _ Hs t1 e1 mid t2 e2 post eq_refl Hk).
Qed.

(** What holds of a debouncer, its [live] timers, the history [acts] of
    calls made so far, and a time [bound] that no delivery has passed. *)
Record Inv (live : list Timer) (st : State) (acts : list (Action T))
    (bound : nat) : Prop := {
  inv_registered : forall k h,
    timers st !! k = Some h ->
    exists ev,
      pendingEvents st !! k = Some ev /\ key ev = k
      /\ In {| handle := h; timer_key := k; due := (timestamp ev + delay)%nat |} live
      /\ latest k acts = Some (data ev)
      /\ (timestamp ev <= now st)%nat;
  inv_unregistered : forall k,
    timers st !! k = None -> pendingEvents st !! k = None;
  inv_live : forall t,
    In t live -> timers st !! timer_key t = Some (handle t);
  inv_handles : NoDup (map handle live);
  inv_fresh : forall t, In t live -> (handle t < nextHandle st)%nat;
  inv_past : forall t e, In (t, e) (delivered st) -> (t <= bound)%nat;
  inv_before : forall k ev,
    pendingEvents st !! k = Some ev ->
    forall t e, In (t, e) (delivered st) -> key e = k -> (t <= timestamp ev)%nat;
  inv_separated : separated (delivered st)
}.

(** A live timer is the one registered for its key, set [delay] after the
    pending event was stored. *)
Lemma live_timer_due (live : list Timer) (st : State) (acts : list (Action T))
    (bound : nat) (t : Timer) :
  Inv live st acts bound -> In t live ->
  exists ev,
    pendingEvents st !! timer_key t = Some ev /\ key ev = timer_key t
    /\ due t = (timestamp ev + delay)%nat
    /\ latest (timer_key t) acts = Some (data ev).
Proof.
  intros HI Hin.
  destruct (inv_registered _ _ _ _ HI _ _ (inv_live _ _ _ _ HI t Hin))
    as (ev & Hp & Hk & Hl & Hd & _).
  exists ev. repeat split; auto.
  assert (E : {| handle := handle t; timer_key := timer_key t;
                 due := (timestamp ev + delay)%nat |} = t).
  { apply (NoDup_map_inj handle live); auto. apply (inv_handles _ _ _ _ HI). }
  rewrite <- E. reflexivity.
Qed.

(** One timer fires. *)
Lemma fire_inv (t : Timer) (live : list Timer) (st : State)
    (acts : list (Action T)) (bound : nat) :
  Inv (t :: live) st acts bound ->
  (due t <= bound)%nat ->
  exists ev,
    delivered (fire t st) = delivered st ++ [(due t, ev)]
    /\ key ev = timer_key t
    /\ due t = (timestamp ev + delay)%nat
    /\ latest (timer_key t) acts = Some (data ev)
    /\ now (fire t st) = now st
    /\ Inv live (fire t st) acts bound.
Proof.
  intros HI Hdue.
  destruct (live_timer_due _ _ _ _ t HI ltac:(now left))
    as (ev & Hp & Hk & Hd & Hl).
  exists ev. unfold fire. rewrite Hp. cbn [delivered now].
  repeat split; auto; cbn [timers pendingEvents delivered nextHandle now].
  - intros k h Hk'.
    destruct (decide (k = timer_key t)) as [->|Hne];
      [rewrite lookup_delete_eq in Hk'; discriminate|].
    rewrite lookup_delete_ne in Hk' by congruence.
    destruct (inv_registered _ _ _ _ HI _ _ Hk') as (ev' & ? & ? & Hin & ? & ?).
    exists ev'. rewrite lookup_delete_ne by congruence. repeat split; auto.
    destruct Hin as [E|Hin]; [|exact Hin].
    exfalso. apply Hne. rewrite E. reflexivity.
  - intros k Hk'.
    destruct (decide (k = timer_key t)) as [->|Hne];
      [apply lookup_delete_eq|].
    rewrite lookup_delete_ne in Hk' by congruence.
    rewrite lookup_delete_ne by congruence.
    now apply (inv_unregistered _ _ _ _ HI).
  - intros t' Hin.
    assert (Hne : timer_key t' <> timer_key t).
    { intros E. pose proof (inv_handles _ _ _ _ HI) as Hnd. simpl in Hnd.
      inversion Hnd as [|? ? Hnd' _]; subst. apply Hnd'.
      rewrite list_elem_of_In.
      pose proof (inv_live _ _ _ _ HI t ltac:(now left)) as H1.
      pose proof (inv_live _ _ _ _ HI t' ltac:(now right)) as H2.
      rewrite E in H2. rewrite H1 in H2. injection H2 as ->.
      now apply in_map. }
    rewrite lookup_delete_ne by congruence.
    apply (inv_live _ _ _ _ HI). now right.
  - pose proof (inv_handles _ _ _ _ HI) as Hnd. simpl in Hnd.
    now inversion Hnd.
  - intros t' Hin. apply (inv_fresh _ _ _ _ HI). now right.
  - intros t' e' Hin. apply in_app_or in Hin.
    destruct Hin as [Hin|[[= <- <-]|[]]]; [|exact Hdue].
    now apply (inv_past _ _ _ _ HI) in Hin.
  - intros k ev' Hk' t' e' Hin Hke.
    destruct (decide (k = timer_key t)) as [->|Hne];
      [rewrite lookup_delete_eq in Hk'; discriminate|].
    rewrite lookup_delete_ne in Hk' by congruence.
    apply in_app_or in Hin. destruct Hin as [Hin|[[= <- <-]|[]]].
    + now apply (inv_before _ _ _ _ HI k ev' Hk' t' e').
    + congruence.
  - apply separated_snoc; [apply (inv_separated _ _ _ _ HI)|].
    intros t0 e0 Hin Hke. rewrite Hd.
    pose proof (inv_before _ _ _ _ HI _ _ Hp t0 e0 Hin ltac:(congruence)). lia.
Qed.

Lemma Inv_transport (live live' : list Timer) (st st' : State)
    (acts acts' : list (Action T)) (bound bound' : nat) :
  Inv live st acts bound ->
  Permutation live live' ->
  timers st' = timers st ->
  pendingEvents st' = pendingEvents st ->
  delivered st' = delivered st ->
  nextHandle st' = nextHandle st ->
  (now st <= now st')%nat ->
  (bound <= bound')%nat ->
  (forall k, latest k acts' = latest k acts) ->
  Inv live' st' acts' bound'.
Proof.
  intros HI Hperm Ht Hp Hd Hn Hnow Hb Hl.
  constructor; rewrite ?Ht, ?Hp, ?Hd, ?Hn.
  - intros k h Hk.
    destruct (inv_registered _ _ _ _ HI _ _ Hk) as (ev & ? & ? & Hin & ? & ?).
    exists ev. rewrite Hl. repeat split; auto; [|lia].
    eapply Permutation_in; eauto.
  - apply (inv_unregistered _ _ _ _ HI).
  - intros t Hin. apply (inv_live _ _ _ _ HI).
    eapply Permutation_in; [symmetry|]; eauto.
  - pose proof (Permutation_map handle Hperm) as Hpm. rewrite <- Hpm.
    apply (inv_handles _ _ _ _ HI).
  - intros t Hin. apply (inv_fresh _ _ _ _ HI).
    eapply Permutation_in; [symmetry|]; eauto.
  - intros t e Hin. pose proof (inv_past _ _ _ _ HI t e Hin). lia.
  - apply (inv_before _ _ _ _ HI).
  - apply (inv_separated _ _ _ _ HI).
Qed.

(** The timers that are due fire one after the other. *)
Lemma fire_all_inv (later : list Timer) (acts : list (Action T)) (bound : nat) :
  forall (todo : list Timer) (st : State),
    Inv (todo ++ later) st acts bound ->
    (forall t, In t todo -> (due t <= bound)%nat) ->
    let st' := fold_left (fun st t => fire t st) todo st in
    (exists fired,
       delivered st' = delivered st ++ fired
       /\ forall t ev, In (t, ev) fired ->
            latest (key ev) acts = Some (data ev)
            /\ t = (timestamp ev + delay)%nat /\ (t <= bound)%nat)
    /\ now st' = now st
    /\ scheduled st' = scheduled st
    /\ Inv later st' acts bound.
Proof.
  induction todo as [|t todo IH]; intros st HI Hdue; cbn [fold_left].
  - split; [|auto]. exists []. rewrite app_nil_r. split; [reflexivity|].
    intros ? ? [].
  - destruct (fire_inv t (todo ++ later) st acts bound HI
                (Hdue t ltac:(now left)))
      as (ev & Hdel & Hk & Hd & Hl & Hnow & HI').
    destruct (IH (fire t st) HI' ltac:(intros; apply Hdue; now right))
      as ((fired & Hdel' & Hfired) & Hnow' & Hsched & HI'').
    split; [|split; [congruence | split; [|exact HI'']]].
    + exists ((due t, ev) :: fired). rewrite Hdel', Hdel, <- app_assoc.
      split; [reflexivity|].
      intros t' ev' [[= <- <-]|Hin]; [|now apply Hfired].
      rewrite Hk. repeat split; auto. apply Hdue. now left.
    + rewrite Hsched. unfold fire. now destruct (pendingEvents st !! timer_key t).
Qed.

Lemma latest_wait (k : string) (acts : list (Action T)) (dt : nat) :
  latest k (acts ++ [Wait dt]) = latest k acts.
Proof. unfold latest. now rewrite fold_left_app. Qed.

Lemma latest_call (k k' : string) (d : T) (acts : list (Action T)) :
  latest k (acts ++ [Call k' d])
  = if String.eqb k' k then Some d else latest k acts.
Proof. unfold latest. now rewrite fold_left_app. Qed.

(** Time passes: what is delivered is, for each key, the data of its latest
    call, [delay] after that call. *)
Lemma advance_inv (st : State) (acts : list (Action T)) (dt : nat) :
  Inv (scheduled st) st acts (now st) ->
  (exists fired,
     delivered (advance dt st) = delivered st ++ fired
     /\ forall t ev, In (t, ev) fired ->
          latest (key ev) acts = Some (data ev)
          /\ t = (timestamp ev + delay)%nat /\ (t <= now st + dt)%nat)
  /\ Inv (scheduled (advance dt st)) (advance dt st) (acts ++ [Wait dt])
       (now (advance dt st)).
Proof.
  intros HI. unfold advance.
  set (target := (now st + dt)%nat).
  set (dueTimers := List.filter (fun t => (due t <=? target)%nat) (scheduled st)).
  set (later := List.filter (fun t => negb (due t <=? target)%nat) (scheduled st)).
  set (st0 := {| timers := timers st; pendingEvents := pendingEvents st;
                 now := now st; scheduled := later;
                 nextHandle := nextHandle st; delivered := delivered st |}).
  assert (HI0 : Inv (dueTimers ++ later) st0 acts target).
  { apply (Inv_transport (scheduled st) _ st _ acts _ (now st)); auto;
      try reflexivity; [|subst target; lia].
    symmetry. apply filter_partition_perm. }
  destruct (fire_all_inv later acts target dueTimers st0 HI0)
    as ((fired & Hdel & Hfired) & Hnow & Hsched & HI').
  { intros t Hin. apply filter_In in Hin. destruct Hin as [_ Hin].
    now apply Nat.leb_le in Hin. }
  cbn [delivered scheduled now]. split.
  - exists fired. split; [exact Hdel | exact Hfired].
  - rewrite Hsched. cbn [scheduled st0].
    eapply Inv_transport; [exact HI' | reflexivity | reflexivity | reflexivity
                          | reflexivity | reflexivity | | lia | ].
    + cbn [now]. rewrite Hnow. cbn [now st0]. subst target. lia.
    + intros k. apply latest_wait.
Qed.

Lemma NoDup_map_filter {A B} (f : A -> B) (p : A -> bool) (l : list A) :
  NoDup (map f l) -> NoDup (map f (List.filter p l)).
Proof.
  induction l as [|x l IH]; simpl; intros H; [constructor|].
  inversion H as [|? ? Hx Hl]; subst.
  destruct (p x); simpl; [|auto].
  constructor; [|auto]. rewrite list_elem_of_In in *.
  intros Hin. apply Hx. apply in_map_iff in Hin.
  destruct Hin as (y & <- & Hy). apply filter_In in Hy. apply in_map. tauto.
Qed.

(** the state in which [debounce(k, _)] stores its event: the pending timer
    of [k] is cleared, no other *)
Definition cleared (k : string) (st : State) : State :=
  match timers st !! k with
  | Some existingTimer => clearTimeout existingTimer st
  | None => st
  end.

Lemma cleared_live (k : string) (st : State) (acts : list (Action T))
    (bound : nat) :
  Inv (scheduled st) st acts bound ->
  (forall t, In t (scheduled (cleared k st))
             <-> In t (scheduled st) /\ timer_key t <> k)
  /\ NoDup (map handle (scheduled (cleared k st)))
  /\ (forall h, timers st !! k = Some h ->
        forall t, In t (scheduled (cleared k st)) -> handle t <> h).
Proof.
  intros HI. unfold cleared.
  destruct (timers st !! k) as [h|] eqn:Hk; cbn [clearTimeout scheduled].
  - split; [|split].
    + intros t. rewrite filter_In. split.
      * intros [Hin Hh]. split; [exact Hin|]. intros <-.
        rewrite (inv_live _ _ _ _ HI t Hin) in Hk. injection Hk as <-.
        now rewrite Nat.eqb_refl in Hh.
      * intros [Hin Hne]. split; [exact Hin|].
        apply negb_true_iff, Nat.eqb_neq. intros <-.
        destruct (inv_registered _ _ _ _ HI _ _ Hk) as (ev & _ & _ & Hin' & _).
        apply Hne.
        rewrite (NoDup_map_inj handle (scheduled st) t _
                   (inv_handles _ _ _ _ HI) Hin Hin' eq_refl).
        reflexivity.
    + apply NoDup_map_filter. apply (inv_handles _ _ _ _ HI).
    + intros h' [= <-] t Hin. apply filter_In in Hin. destruct Hin as [_ Hh].
      now apply negb_true_iff, Nat.eqb_neq in Hh.
  - split; [|split].
    + intros t. split; [|tauto]. intros Hin. split; [exact Hin|]. intros <-.
      rewrite (inv_live _ _ _ _ HI t Hin) in Hk. discriminate.
    + apply (inv_handles _ _ _ _ HI).
    + intros h' [=].
Qed.

Lemma cleared_fields (k : string) (st : State) :
  timers (cleared k st) = timers st
  /\ pendingEvents (cleared k st) = pendingEvents st
  /\ now (cleared k st) = now st
  /\ nextHandle (cleared k st) = nextHandle st
  /\ delivered (cleared k st) = delivered st.
Proof. unfold cleared. destruct (timers st !! k); repeat split; reflexivity. Qed.

Lemma debounce_cleared (k : string) (d : T) (st : State) :
  debounce k d st
  = {| timers := <[k := nextHandle st]> (timers st);
       pendingEvents :=
         <[k := {| key := k; data := d; timestamp := now st |}]> (pendingEvents st);
       now := now st;
       scheduled :=
         scheduled (cleared k st)
           ++ [{| handle := nextHandle st; timer_key := k;
                  due := (now st + delay)%nat |}];
       nextHandle := S (nextHandle st);
       delivered := delivered st |}.
Proof.
  unfold Debouncer.debounce, cleared.
  destruct (timers st !! k); reflexivity.
Qed.

Lemma NoDup_snoc_fresh (l : list Timer) (t : Timer) :
  NoDup (map handle l) ->
  (forall t', In t' l -> (handle t' < handle t)%nat) ->
  NoDup (map handle (l ++ [t])).
Proof.
  intros Hnd Hfresh. rewrite map_app. apply NoDup_app. split; [exact Hnd|].
  split; [|repeat constructor; intros H; inversion H].
  intros h Hin Hin'. rewrite list_elem_of_In in Hin, Hin'.
  destruct Hin' as [<-|[]]. apply in_map_iff in Hin.
  destruct Hin as (t' & E & Hin). apply Hfresh in Hin. lia.
Qed.

(** A call of [debounce(k, d)]. *)
Lemma debounce_inv (st : State) (acts : list (Action T)) (k : string) (d : T) :
  Inv (scheduled st) st acts (now st) ->
  Inv (scheduled (debounce k d st)) (debounce k d st) (acts ++ [Call k d])
    (now (debounce k d st)).
Proof.
  intros HI. rewrite debounce_cleared.
  destruct (cleared_live k st acts (now st) HI) as (Hlive & Hnd & _).
  cbn [scheduled now].
  constructor; cbn [timers pendingEvents now nextHandle delivered].
  - intros k' h Hk'. rewrite latest_call.
    destruct (decide (k = k')) as [<-|Hne].
    + rewrite lookup_insert_eq in Hk'. injection Hk' as <-.
      eexists. rewrite lookup_insert_eq. split; [reflexivity|].
      cbn [key data timestamp]. rewrite String.eqb_refl.
      repeat split; auto. apply in_or_app. right. now left.
    + rewrite lookup_insert_ne in Hk' by exact Hne.
      destruct (inv_registered _ _ _ _ HI _ _ Hk') as (ev & ? & ? & Hin & ? & ?).
      exists ev. rewrite lookup_insert_ne by exact Hne.
      replace (String.eqb k k') with false
        by (symmetry; now apply String.eqb_neq).
      repeat split; auto. apply in_or_app. left. apply Hlive.
      split; [exact Hin | cbn; congruence].
  - intros k' Hk'.
    destruct (decide (k = k')) as [<-|Hne];
      [rewrite lookup_insert_eq in Hk'; discriminate|].
    rewrite lookup_insert_ne in Hk' by exact Hne.
    rewrite lookup_insert_ne by exact Hne.
    now apply (inv_unregistered _ _ _ _ HI).
  - intros t Hin. apply in_app_or in Hin. destruct Hin as [Hin|[<-|[]]].
    + apply Hlive in Hin. destruct Hin as [Hin Hne].
      rewrite lookup_insert_ne by congruence.
      now apply (inv_live _ _ _ _ HI).
    + cbn. apply lookup_insert_eq.
  - apply NoDup_snoc_fresh; [exact Hnd|].
    intros t' Hin. apply Hlive in Hin. cbn.
    apply (inv_fresh _ _ _ _ HI). tauto.
  - intros t Hin. apply in_app_or in Hin. destruct Hin as [Hin|[<-|[]]].
    + apply Hlive in Hin. pose proof (inv_fresh _ _ _ _ HI t ltac:(tauto)). lia.
    + cbn. lia.
  - apply (inv_past _ _ _ _ HI).
  - intros k' ev Hk' t e Hin Hke.
    destruct (decide (k = k')) as [<-|Hne].
    + rewrite lookup_insert_eq in Hk'. injection Hk' as <-. cbn.
      now apply (inv_past _ _ _ _ HI) in Hin.
    + rewrite lookup_insert_ne in Hk' by exact Hne.
      now apply (inv_before _ _ _ _ HI k' ev Hk' t e).
  - apply (inv_separated _ _ _ _ HI).
Qed.

Lemma create_inv (t0 : nat) : Inv [] (create (T:=T) t0) [] t0.
Proof.
  constructor; cbn.
  - intros k h H. rewrite lookup_empty in H. discriminate.
  - intros k _. apply lookup_empty.
  - intros t [].
  - constructor.
  - intros t [].
  - intros t e [].
  - intros k ev H. rewrite lookup_empty in H. discriminate.
  - exact I.
Qed.

Lemma run_snoc (acts : list (Action T)) (a : Action T) (st : State) :
  run (acts ++ [a]) st = step delay (run acts st) a.
Proof. unfold Debouncer.run. now rewrite fold_left_app. Qed.

(** Every state a debouncer reaches satisfies the invariant. *)
Lemma run_inv (t0 : nat) (acts : list (Action T)) :
  let st := run acts (create t0) in
  Inv (scheduled st) st acts (now st).
Proof.
  induction acts as [|a acts IH] using rev_ind; cbn zeta in *.
  - apply create_inv.
  - rewrite run_snoc. destruct a as [k d|dt]; cbn [step].
    + now apply debounce_inv.
    + now apply advance_inv.
Qed.


End Facts.

(** The scenario of the unit test "should reset timer on repeated debounce
    for same key": with a delay of 1000, a call at time 0 and another at
    time 500 lead to nothing after 1000 and to one delivery, of the second
    data, after 1500. *)
Example reset_timer_on_repeated_debounce :
  let st1 := run 1000 [Call "key1" "data1"; Wait 500; Call "key1" "data2"; Wait 500]
               (create 0) in
  let st2 := advance 500 st1 in
  delivered st1 = []
  /\ delivered st2
     = [(1500%nat, {| key := "key1"; data := "data2"; timestamp := 500 |})]
  /\ scheduled st2 = [].
Proof. vm_compute. repeat split; reflexivity. Qed.

End DebouncerFacts.

(** ** The worker processor *)

Module WorkerProcessorFacts.
Import Types WorkerProcessor.

(** What an event on the channel says: the job started; a stage of the work
    was reached (a progress event with status queued, extracting, analyzing
    or caching); the final progress event, which repeats the outcome (status
    completed, or failed); the job completed; the job failed. *)
Inductive Kind :=
  | Started | StageProgress | CompletedProgress | FailedProgress
  | Completed | Failed.

Definition kind (e : WebSocketEvent) : Kind :=
  match ev_type e with
  | analysis_started => Started
  | analysis_completed => Completed
  | analysis_failed => Failed
  | analysis_progress =>
      match ev_data e with
      | ProgressData p =>
          match jp_status p with
          | completed => CompletedProgress
          | failed => FailedProgress
          | _ => StageProgress
          end
      | _ => StageProgress
      end
  end.

(** the events after the progress events that open a list *)
Fixpoint after_stages (l : list Kind) : list Kind :=
  match l with
  | StageProgress :: l' => after_stages l'
  | _ => l
  end.

Fixpoint count_stages (l : list Kind) : nat :=
  match l with
  | StageProgress :: l' => S (count_stages l')
  | _ => O
  end.

Lemma stages_split (l : list Kind) :
  l = repeat StageProgress (count_stages l) ++ after_stages l.
Proof.
  induction l as [|k l IH]; [reflexivity|].
  destruct k; try reflexivity. simpl. now rewrite <- IH.
Qed.

(** Symbolic execution of the processor: unfold the methods, then split on
    the next answer of a collaborator. *)
Ltac exec_unfold :=
  cbv [processJob analyzeFresh serveFromCache updateProgress job_updateProgress
       emitProgress emitStarted emitCompleted emitFailed emit saveToDatabase
       prisma validateProjectPath stat bind ret throw tryCatch gets modify
       await countCacheHit countCacheMiss countFailed updateStats
       cacheManager_get cacheManager_set
       set_db set_cache set_bus set_jobProgress set_stats set_clock
       set_statCalls set_progressCalls set_dbCalls
       db cache bus jobProgress stats clock statCalls progressCalls dbCalls
       fst snd negb].

Ltac exec_unfold_in E :=
  cbv [processJob analyzeFresh serveFromCache updateProgress job_updateProgress
       emitProgress emitStarted emitCompleted emitFailed emit saveToDatabase
       prisma validateProjectPath stat bind ret throw tryCatch gets modify
       await countCacheHit countCacheMiss countFailed updateStats
       cacheManager_get cacheManager_set
       set_db set_cache set_bus set_jobProgress set_stats set_clock
       set_statCalls set_progressCalls set_dbCalls
       db cache bus jobProgress stats clock statCalls progressCalls dbCalls
       fst snd negb] in E.

Ltac exec_step :=
  match goal with
  | |- context [match ?x with _ => _ end] =>
      lazymatch x with
      | context [match _ with _ => _ end] => fail
      | _ => destruct x eqn:?
      end
  end.

Ltac exec_step_in E :=
  match type of E with
  | context [match ?x with _ => _ end] =>
      lazymatch x with
      | context [match _ with _ => _ end] => fail
      | _ => destruct x eqn:?
      end
  end.

Section Facts.
Variable sha256 : string -> string.
Variable toISOString : Z -> string.
Variable Stored : Type.
Variable JSON_stringify : CachedAnalysis -> Stored.
Variable JSON_parse : Stored -> option CachedAnalysis.

Abbreviation World := (World Stored).
Abbreviation processJob :=
  (processJob sha256 toISOString Stored JSON_stringify JSON_parse).
Abbreviation saveToDatabase := (saveToDatabase Stored).
Abbreviation bus := (bus Stored).
Abbreviation db := (db Stored).
Abbreviation cache := (cache Stored).
Abbreviation clock := (clock Stored).
Abbreviation statCalls := (statCalls Stored).
Abbreviation dbCalls := (dbCalls Stored).


(** the projects for which [status = ANALYZED] implies an analysis row and
    a date of analysis *)
Definition analyzed_has_analysis (d : Database) : Prop :=
  forall pid row,
    projects d !! pid = Some row ->
    status row = ANALYZED ->
    analyzedAt row <> None
    /\ exists a, In a (analyses d) /\ pa_projectId a = pid.

(** Because the row is inserted before the status is set, no state that
    [saveToDatabase] leaves behind, finished or not, has a project that is
    ANALYZED without an analysis. *)
Lemma saveToDatabase_keeps_analyzed_with_analysis (env : Env)
    (res : AnalysisResult) (w : World) :
  analyzed_has_analysis (db w) ->
  analyzed_has_analysis (db (snd (saveToDatabase env res w))).
Proof.
  intros HI. destruct w as [d c b jp s clk ns np nd].
  cbn [WorkerProcessor.db] in HI.
  assert (Hgrow : forall row0,
            analyzed_has_analysis
              {| projects := projects d; analyses := analyses d ++ [row0] |}).
  { intros row0 pid row Hrow Hst. destruct (HI pid row Hrow Hst) as (Ha & a & Hin & Hp).
    split; [exact Ha|]. exists a. split; [apply in_or_app; now left | exact Hp]. }
  exec_unfold. unfold projectAnalysis_create, project_update.
  repeat (exec_step; exec_unfold).
  all: try exact HI.
  all: try apply Hgrow.
  intros pid row Hrow Hst. cbn [projects analyses] in *.
  destruct (decide (projectId res = pid)) as [<-|Hne].
  - rewrite lookup_insert_eq in Hrow. injection Hrow as <-. cbn.
    split; [discriminate|]. eexists. split; [apply in_or_app; right; now left|].
    reflexivity.
  - rewrite lookup_insert_ne in Hrow by exact Hne.
    now apply (Hgrow (analysisRow res clk) pid row).
Qed.

(** C10.  When a job that does not force a refresh finds its project path
    and modification time in the result cache and completes, the database
    differs from the one before the job in this only: one analysis row, built
    from the cached result, is appended, and the project row of the cached
    result has status ANALYZED and [analyzedAt] set to the time of the
    write; [fileCount], [linesOfCode] and [size] of every project row are
    as they were. *)
Theorem cache_hit_leaves_project_metadata (env : Env) (job : AnalysisJobData)
    (w : World) (isDir : bool) (mtime : Z) (cached : CachedAnalysis) :
  job_forceRefresh job <> Some true ->
  fs_stat env (S (statCalls w)) = StatOk isDir mtime ->
  fst (CacheManager.get sha256 toISOString Stored JSON_parse (cache w)
         (job_projectPath job) mtime (clock w) (clock w)) = Some cached ->
  fst (processJob env job w) = inr tt ->
  let w' := snd (processJob env job w) in
  analyses (db w') = analyses (db w) ++ [analysisRow (result cached) (clock w)]
  /\ (exists row,
        projects (db w) !! projectId (result cached) = Some row
        /\ projects (db w')
           = <[projectId (result cached) :=
                 markAnalyzed (clock w) row]>
               (projects (db w)))
  /\ (forall pid,
        fileCount <$> projects (db w') !! pid = fileCount <$> projects (db w) !! pid
        /\ linesOfCode <$> projects (db w') !! pid
           = linesOfCode <$> projects (db w) !! pid
        /\ size <$> projects (db w') !! pid = size <$> projects (db w) !! pid).
Proof.
  intros Hf Hstat Hhit Hdone w'.
  assert (H : analyses (db w')
              = analyses (db w) ++ [analysisRow (result cached) (clock w)]
              /\ exists row,
                   projects (db w) !! projectId (result cached) = Some row
                   /\ projects (db w')
                      = <[projectId (result cached) :=
                            markAnalyzed (clock w) row]>
                          (projects (db w))).
  { subst w'.
    destruct (processJob env job w) as [r w'] eqn:E.
    cbn [fst snd] in *. subst r.
    destruct w as [d c b jp s clk ns np nd].
    cbn [WorkerProcessor.statCalls WorkerProcessor.cache WorkerProcessor.clock
         WorkerProcessor.db] in *.
    exec_unfold_in E.
    repeat (exec_step_in E; exec_unfold_in E; try congruence).
    all: try discriminate E.
    all: match goal with
         | H1 : fs_stat _ _ = StatOk _ ?m, H2 : StatOk _ ?m = StatOk _ _ |- _ =>
             injection H2 as -> ->
         end.
    all: match goal with
         | H1 : CacheManager.get _ _ _ _ _ _ _ _ _ = _ |- _ =>
             rewrite H1 in Hhit; cbn [fst] in Hhit; try discriminate Hhit
         end.
    all: injection Hhit as ->.
    all: injection E as <-.
    all: cbn [WorkerProcessor.db].
    all: unfold projectAnalysis_create, project_update in *.
    all: repeat match goal with
         | H : match ?x with _ => _ end = _ |- _ => destruct x eqn:?; try discriminate H
         end.
    all: repeat match goal with
         | H : inr _ = inr _ |- _ => injection H as ? ?; subst
         end.
    all: cbn [projects analyses] in *.
    all: split; [reflexivity|].
    all: eexists; split; [eassumption | reflexivity]. }
  destruct H as (Ha & row & Hrow & Hp).
  split; [exact Ha | split; [exists row; split; assumption |]].
  intros pid. rewrite Hp.
  destruct (decide (projectId (result cached) = pid)) as [<-|Hne].
  - rewrite lookup_insert_eq, Hrow. repeat split; reflexivity.
  - rewrite lookup_insert_ne by exact Hne. repeat split; reflexivity.
Qed.

End Facts.

(** *** A worker, a project and two jobs *)

Import Samples.

Definition demoProject : Project :=
  {| id := "p1"; name := "demo"; path := "/projects/demo";
     fileCount := Some 12; linesOfCode := Some 340; size := Some 20480;
     status := QUEUED; isActive := true; analyzedAt := None |}.

Definition demoWorld : WorkerProcessor.World CachedAnalysis :=
  {| db := {| projects := {[ "p1" := demoProject ]}; analyses := [] |};
     cache :=
       CacheManager.create CachedAnalysis
         {| CacheManager.table := ∅; CacheManager.connected := true |} 24;
     bus := []; jobProgress := [];
     stats := {| jobsProcessed := 0; jobsFailed := 0; cacheHits := 0;
                 cacheMisses := 0; totalTokensUsed := 0; averageDuration := 0;
                 uptime := 0 |};
     clock := 1000000; statCalls := O; progressCalls := O; dbCalls := O |}.

Definition demoContext : ProjectContext :=
  {| ctx_name := "demo"; ctx_path := "/projects/demo"; ctx_readme := None;
     ctx_mainFiles := []; ctx_fileCount := 14; ctx_linesOfCode := 410;
     ctx_totalSize := 23000; ctx_estimatedTokens := 0 |}.

(** every collaborator answers, and the analyzer returns [someResult] *)
Definition demoEnv : Env :=
  {| fs_stat := fun _ => StatOk true 500000;
     updateProgress_rejects := fun _ => None;
     database_rejects := fun _ => None;
     extractContext := inr demoContext;
     extractTime := 250;
     analyzeProject := inr someResult;
     analyzeTime := 4000 |}.

Definition connectionLost : JsError :=
  newError "Can't reach database server".

(** as [demoEnv], but the database connection rejects its second call *)
Definition secondWriteFails : Env :=
  {| fs_stat := fs_stat demoEnv;
     updateProgress_rejects := updateProgress_rejects demoEnv;
     database_rejects :=
       fun n => if Nat.eqb n 1 then Some connectionLost else None;
     extractContext := extractContext demoEnv;
     extractTime := extractTime demoEnv;
     analyzeProject := analyzeProject demoEnv;
     analyzeTime := analyzeTime demoEnv |}.

Definition demoJob : AnalysisJobData :=
  {| job_projectId := "p1"; job_projectPath := "/projects/demo";
     job_projectName := "demo"; job_forceRefresh := None |}.

(** the processor over a cache whose stored text is the entry itself *)
Abbreviation demoProcessJob :=
  (WorkerProcessor.processJob (fun s => s)
     (fun _ => "1970-01-01T00:08:20.000Z") CachedAnalysis (fun c => c) Some).


(** C2: [saveToDatabase] when the connection is lost between its two
    writes.  The error is thrown, the analysis row is in the table, and the
    project is neither ANALYZED nor dated: the two writes are not one
    transaction. *)
Lemma analysis_row_persists_without_status_update :
  let r := WorkerProcessor.saveToDatabase CachedAnalysis secondWriteFails
             someResult demoWorld in
  fst r = inl connectionLost
  /\ analyses (WorkerProcessor.db CachedAnalysis (snd r))
     = [analysisRow someResult 1000000]
  /\ projects (WorkerProcessor.db CachedAnalysis (snd r)) !! "p1"
     = Some demoProject
  /\ status demoProject = QUEUED /\ analyzedAt demoProject = None.
Proof. vm_compute. repeat split; reflexivity. Qed.

(** C4: the same job twice.  The first run analyzes the project and caches
    the result; the second is served from the cache (the worker counts one
    cache hit and one miss), and the analysis row it inserts has
    [cacheHit = false], the flag of the cached result. *)
Lemma cache_hit_replay_row_is_not_flagged :
  let first := demoProcessJob demoEnv demoJob demoWorld in
  let second := demoProcessJob demoEnv demoJob (snd first) in
  fst first = inr tt /\ fst second = inr tt
  /\ cacheHits (WorkerProcessor.stats CachedAnalysis (snd second)) = 1
  /\ cacheMisses (WorkerProcessor.stats CachedAnalysis (snd second)) = 1
  /\ map pa_cacheHit (analyses (WorkerProcessor.db CachedAnalysis (snd second)))
     = [false; false].
Proof. vm_compute. repeat split; reflexivity. Qed.

(** C10 at the second of two runs of the same job. *)
Lemma cache_hit_leaves_project_metadata_witness :
  let w1 := snd (demoProcessJob demoEnv demoJob demoWorld) in
  let w2 := snd (demoProcessJob demoEnv demoJob w1) in
  job_forceRefresh demoJob <> Some true
  /\ fst (demoProcessJob demoEnv demoJob w1) = inr tt
  /\ fileCount <$> projects (WorkerProcessor.db CachedAnalysis w2) !! "p1"
     = fileCount <$> projects (WorkerProcessor.db CachedAnalysis w1) !! "p1".
Proof.
  intros w1 w2.
  assert (H1 : job_forceRefresh demoJob <> Some true) by discriminate.
  assert (H2 : fs_stat demoEnv (S (WorkerProcessor.statCalls CachedAnalysis w1))
               = StatOk true 500000) by reflexivity.
  assert (H3 : exists cached,
            fst (CacheManager.get (fun s => s)
                   (fun _ => "1970-01-01T00:08:20.000Z") CachedAnalysis Some
                   (WorkerProcessor.cache CachedAnalysis w1)
                   (job_projectPath demoJob) 500000
                   (WorkerProcessor.clock CachedAnalysis w1)
                   (WorkerProcessor.clock CachedAnalysis w1)) = Some cached).
  { vm_compute. eexists. reflexivity. }
  destruct H3 as [cached H3].
  assert (H4 : fst (demoProcessJob demoEnv demoJob w1) = inr tt)
    by (vm_compute; reflexivity).
  split; [exact H1 | split; [exact H4 |]].
  destruct (cache_hit_leaves_project_metadata (fun s => s)
              (fun _ => "1970-01-01T00:08:20.000Z") CachedAnalysis (fun c => c)
              Some demoEnv demoJob w1 true 500000 cached H1 H2 H3 H4)
    as (_ & _ & Hframe).
  exact (proj1 (Hframe "p1")).
Defined.

End WorkerProcessorFacts.

(** ** The debouncer: flushing, cancelling and shutting down *)

Module DebouncerControlFacts.
Import Debouncer.

Lemma fold_clearTimeout_fields {T} (l : list (string * nat)) (st : State T) :
  let st' := fold_left (fun st entry => clearTimeout (snd entry) st) l st in
  timers st' = timers st /\ pendingEvents st' = pendingEvents st
  /\ now st' = now st /\ nextHandle st' = nextHandle st
  /\ delivered st' = delivered st
  /\ forall t, In t (scheduled st') ->
       In t (scheduled st) /\ forall e, In e l -> handle t <> snd e.
Proof.
  revert st. induction l as [|e l IH]; intros st; cbn [fold_left].
  - do 5 (split; [reflexivity|]). intros t Hin. split; [exact Hin|]. intros ? [].
  - destruct (IH (clearTimeout (snd e) st)) as (H1 & H2 & H3 & H4 & H5 & H6).
    cbv zeta. rewrite H1, H2, H3, H4, H5.
    do 5 (split; [reflexivity|]). intros t Hin.
    apply H6 in Hin. destruct Hin as [Hin Hne]. cbn in Hin.
    apply filter_In in Hin. destruct Hin as [Hin Hh].
    split; [exact Hin|]. intros e' [<-|Hin'].
    + now apply negb_true_iff, Nat.eqb_neq in Hh.
    + now apply Hne.
Qed.

Lemma filter_all {A} (f : A -> bool) (l : list A) :
  (forall x, In x l -> f x = true) -> List.filter f l = l.
Proof.
  induction l as [|x l IH]; cbn; intros H; [reflexivity|].
  rewrite (H x) by now left. f_equal. apply IH. intros. apply H. now right.
Qed.

Lemma omap_ext_in {A B} (f g : A -> option B) (l : list A) :
  (forall x, In x l -> f x = g x) -> omap f l = omap g l.
Proof.
  induction l as [|x l IH]; cbn; intros H; [reflexivity|].
  rewrite (H x) by now left. rewrite IH; [reflexivity|].
  intros. apply H. now right.
Qed.

Section Facts.
Context {T : Type}.
Variable delay : nat.

Abbreviation State := (State T).
Abbreviation DebouncedEvent := (DebouncedEvent T).
Abbreviation debounce := (debounce (T:=T) delay).
Abbreviation reachable := (reachable (T:=T) delay).

(** What holds of the two maps of a debouncer and its [live] timers: every
    registered handle is that of a live timer of the same key and the other
    way round, the keys with a pending event are those with a registered
    timer, and no two live timers share a handle. *)
Record WF (live : list Timer) (st : State) : Prop := {
  wf_registered : forall k h,
    timers st !! k = Some h ->
    exists t, In t live /\ handle t = h /\ timer_key t = k;
  wf_live : forall t, In t live -> timers st !! timer_key t = Some (handle t);
  wf_pending : forall k,
    pendingEvents st !! k = None <-> timers st !! k = None;
  wf_key : forall k e, pendingEvents st !! k = Some e -> key e = k;
  wf_handles : NoDup (map handle live);
  wf_fresh : forall t, In t live -> (handle t < nextHandle st)%nat
}.

Lemma WF_same_key (live : list Timer) (st : State) (t t' : Timer) :
  WF live st -> In t live -> In t' live -> timer_key t = timer_key t' -> t = t'.
Proof.
  intros HW Ht Ht' Hk.
  apply (DebouncerFacts.NoDup_map_inj handle live t t' (wf_handles _ _ HW) Ht Ht').
  pose proof (wf_live _ _ HW t Ht) as H1.
  pose proof (wf_live _ _ HW t' Ht') as H2.
  rewrite Hk in H1. congruence.
Qed.

Lemma WF_keys_NoDup (live : list Timer) (st : State) :
  WF live st -> NoDup (map timer_key live).
Proof.
  intros HW. pose proof (wf_handles _ _ HW) as Hnd.
  assert (Hinj : forall t t', In t live -> In t' live ->
                   timer_key t = timer_key t' -> t = t')
    by (intros; eapply WF_same_key; eauto).
  clear HW. induction live as [|t live IH]; cbn; [constructor|].
  inversion Hnd as [|? ? Hh Hnd']; subst.
  constructor.
  - rewrite list_elem_of_In. intros Hin. apply in_map_iff in Hin.
    destruct Hin as (t' & Hk & Hin).
    assert (t' = t) by (apply Hinj; [now right | now left | exact Hk]).
    subst t'. apply Hh. rewrite list_elem_of_In. now apply in_map.
  - apply IH; [exact Hnd'|]. intros; apply Hinj; auto; now right.
Qed.

(** the live timers with another key than [k] *)
Definition others (k : string) (live : list Timer) : list Timer :=
  List.filter (fun t => negb (String.eqb (timer_key t) k)) live.

Lemma In_others (k : string) (live : list Timer) (t : Timer) :
  In t (others k live) <-> In t live /\ timer_key t <> k.
Proof.
  unfold others. rewrite filter_In, negb_true_iff, String.eqb_neq. tauto.
Qed.

(** Clearing the timer registered for [k] removes the live timers of [k],
    and no other. *)
Lemma clear_registered (st : State) (k : string) (h : nat) :
  WF (scheduled st) st -> timers st !! k = Some h ->
  scheduled (clearTimeout h st) = others k (scheduled st).
Proof.
  intros HW Hk. cbn. unfold others. apply filter_ext_in. intros t Hin.
  f_equal.
  destruct (String.eqb (timer_key t) k) eqn:E.
  - apply String.eqb_eq in E. subst k.
    rewrite (wf_live _ _ HW t Hin) in Hk. injection Hk as <-.
    apply Nat.eqb_refl.
  - apply String.eqb_neq in E. apply Nat.eqb_neq. intros <-.
    destruct (wf_registered _ _ HW _ _ Hk) as (t' & Hin' & Hh & Hk').
    apply E. rewrite <- Hk'. f_equal.
    apply (DebouncerFacts.NoDup_map_inj handle (scheduled st) t t'
             (wf_handles _ _ HW) Hin Hin'). now rewrite Hh.
Qed.

Lemma others_unregistered (st : State) (k : string) :
  WF (scheduled st) st -> timers st !! k = None ->
  others k (scheduled st) = scheduled st.
Proof.
  intros HW Hk. unfold others. apply filter_all.
  intros t Hin. apply negb_true_iff, String.eqb_neq. intros <-.
  rewrite (wf_live _ _ HW t Hin) in Hk. discriminate.
Qed.

(** *** The methods in normal form *)

Lemma debounce_fields (k : string) (d : T) (st : State) :
  WF (scheduled st) st ->
  debounce k d st
  = {| timers := <[k := nextHandle st]> (timers st);
       pendingEvents :=
         <[k := {| key := k; data := d; timestamp := now st |}]> (pendingEvents st);
       now := now st;
       scheduled :=
         others k (scheduled st)
           ++ [{| handle := nextHandle st; timer_key := k;
                  due := (now st + delay)%nat |}];
       nextHandle := S (nextHandle st);
       delivered := delivered st |}.
Proof.
  intros HW. unfold Debouncer.debounce.
  destruct (timers st !! k) as [h|] eqn:Hk.
  - rewrite (clear_registered st k h HW Hk). reflexivity.
  - now rewrite (others_unregistered st k HW Hk).
Qed.

Lemma flush_fields (k : string) (st : State) :
  WF (scheduled st) st ->
  flush k st
  = {| timers := delete k (timers st);
       pendingEvents := delete k (pendingEvents st);
       now := now st;
       scheduled := others k (scheduled st);
       nextHandle := nextHandle st;
       delivered :=
         delivered st
           ++ match pendingEvents st !! k with
              | Some e => [(now st, e)]
              | None => []
              end |}.
Proof.
  intros HW. unfold flush.
  destruct (timers st !! k) as [h|] eqn:Hk.
  - rewrite (clear_registered st k h HW Hk). cbn.
    destruct (pendingEvents st !! k) as [e|] eqn:Hp; [reflexivity|].
    apply (wf_pending _ _ HW) in Hp. congruence.
  - pose proof (proj2 (wf_pending _ _ HW k) Hk) as Hp. rewrite Hp.
    rewrite (others_unregistered st k HW Hk), !delete_id, app_nil_r by assumption.
    now destruct st.
Qed.

Lemma cancel_fields (k : string) (st : State) :
  WF (scheduled st) st ->
  cancel k st
  = {| timers := delete k (timers st);
       pendingEvents := delete k (pendingEvents st);
       now := now st;
       scheduled := others k (scheduled st);
       nextHandle := nextHandle st;
       delivered := delivered st |}.
Proof.
  intros HW. unfold cancel.
  destruct (timers st !! k) as [h|] eqn:Hk.
  - rewrite (clear_registered st k h HW Hk). reflexivity.
  - now rewrite (others_unregistered st k HW Hk), (delete_id (timers st)) by assumption.
Qed.

Lemma cancelAll_fields (st : State) :
  WF (scheduled st) st ->
  cancelAll st
  = {| timers := ∅; pendingEvents := ∅; now := now st; scheduled := [];
       nextHandle := nextHandle st; delivered := delivered st |}.
Proof.
  intros HW. unfold cancelAll.
  destruct (fold_clearTimeout_fields (map_to_list (timers st)) st)
    as (_ & _ & H3 & H4 & H5 & H6).
  cbv zeta in *. rewrite H3, H4, H5. f_equal.
  match goal with |- ?l = [] => destruct l as [|t l'] eqn:E end; [reflexivity|].
  exfalso. destruct (H6 t) as [Hin Hne]; [now left|].
  apply (Hne (timer_key t, handle t)); [|reflexivity].
  apply list_elem_of_In, elem_of_map_to_list. apply (wf_live _ _ HW t Hin).
Qed.

(** *** The invariant *)

Lemma create_WF (t0 : nat) : WF [] (create (T:=T) t0).
Proof.
  constructor; cbn.
  - intros k h H. rewrite lookup_empty in H. discriminate.
  - intros t [].
  - intros k. now rewrite !lookup_empty.
  - intros k e H. rewrite lookup_empty in H. discriminate.
  - constructor.
  - intros t [].
Qed.

Lemma removed_WF (k : string) (st st' : State) :
  WF (scheduled st) st ->
  timers st' = delete k (timers st) ->
  pendingEvents st' = delete k (pendingEvents st) ->
  scheduled st' = others k (scheduled st) ->
  nextHandle st' = nextHandle st ->
  WF (scheduled st') st'.
Proof.
  intros HW Ht Hp Hs Hn. rewrite Hs.
  constructor; rewrite ?Ht, ?Hp, ?Hn.
  - intros k' h Hk'.
    destruct (decide (k = k')) as [<-|Hne].
    { rewrite lookup_delete_eq in Hk'. discriminate. }
    rewrite lookup_delete_ne in Hk' by exact Hne.
    destruct (wf_registered _ _ HW _ _ Hk') as (t & Hin & Hh & Hkt).
    exists t. repeat split; auto. apply In_others. split; [exact Hin | congruence].
  - intros t Hin. apply In_others in Hin. destruct Hin as [Hin Hne].
    rewrite lookup_delete_ne by congruence. apply (wf_live _ _ HW t Hin).
  - intros k'. destruct (decide (k = k')) as [<-|Hne].
    + now rewrite !lookup_delete_eq.
    + rewrite !lookup_delete_ne by exact Hne. apply (wf_pending _ _ HW).
  - intros k' e Hk'. destruct (decide (k = k')) as [<-|Hne].
    { rewrite lookup_delete_eq in Hk'. discriminate. }
    rewrite lookup_delete_ne in Hk' by exact Hne. apply (wf_key _ _ HW _ _ Hk').
  - apply DebouncerFacts.NoDup_map_filter. apply (wf_handles _ _ HW).
  - intros t Hin. apply In_others in Hin. apply (wf_fresh _ _ HW t). tauto.
Qed.

Lemma flush_WF (k : string) (st : State) :
  WF (scheduled st) st -> WF (scheduled (flush k st)) (flush k st).
Proof.
  intros HW. apply (removed_WF k st); auto; now rewrite flush_fields.
Qed.

Lemma cancel_WF (k : string) (st : State) :
  WF (scheduled st) st -> WF (scheduled (cancel k st)) (cancel k st).
Proof.
  intros HW. apply (removed_WF k st); auto; now rewrite cancel_fields.
Qed.

Lemma cancelAll_WF (st : State) :
  WF (scheduled st) st -> WF (scheduled (cancelAll st)) (cancelAll st).
Proof.
  intros HW. rewrite cancelAll_fields by exact HW.
  constructor; cbn.
  - intros k h H. rewrite lookup_empty in H. discriminate.
  - intros t [].
  - intros k. now rewrite !lookup_empty.
  - intros k e H. rewrite lookup_empty in H. discriminate.
  - constructor.
  - intros t [].
Qed.

Lemma flushAll_WF (keys : list string) (st : State) :
  WF (scheduled st) st -> WF (scheduled (flushAll keys st)) (flushAll keys st).
Proof.
  revert st. induction keys as [|k keys IH]; intros st HW; cbn; [exact HW|].
  apply IH. now apply flush_WF.
Qed.

Lemma debounce_WF (k : string) (d : T) (st : State) :
  WF (scheduled st) st -> WF (scheduled (debounce k d st)) (debounce k d st).
Proof.
  intros HW. rewrite debounce_fields by exact HW.
  constructor; cbn [timers pendingEvents scheduled nextHandle].
  - intros k' h Hk'. destruct (decide (k = k')) as [<-|Hne].
    + rewrite lookup_insert_eq in Hk'. injection Hk' as <-.
      eexists. split; [apply in_or_app; right; now left|]. split; reflexivity.
    + rewrite lookup_insert_ne in Hk' by exact Hne.
      destruct (wf_registered _ _ HW _ _ Hk') as (t & Hin & Hh & Hkt).
      exists t. repeat split; auto. apply in_or_app. left.
      apply In_others. split; [exact Hin | congruence].
  - intros t Hin. apply in_app_or in Hin. destruct Hin as [Hin|[<-|[]]].
    + apply In_others in Hin. destruct Hin as [Hin Hne].
      rewrite lookup_insert_ne by congruence. apply (wf_live _ _ HW t Hin).
    + cbn. apply lookup_insert_eq.
  - intros k'. destruct (decide (k = k')) as [<-|Hne].
    + rewrite !lookup_insert_eq. split; discriminate.
    + rewrite !lookup_insert_ne by exact Hne. apply (wf_pending _ _ HW).
  - intros k' e Hk'. destruct (decide (k = k')) as [<-|Hne].
    + rewrite lookup_insert_eq in Hk'. now injection Hk' as <-.
    + rewrite lookup_insert_ne in Hk' by exact Hne. apply (wf_key _ _ HW _ _ Hk').
  - rewrite map_app. cbn. apply NoDup_app. split; [|split].
    + apply DebouncerFacts.NoDup_map_filter. apply (wf_handles _ _ HW).
    + intros h Hin Hh. apply list_elem_of_In in Hin, Hh.
      destruct Hh as [<-|[]]. apply in_map_iff in Hin.
      destruct Hin as (t & Hh & Hin). apply In_others in Hin.
      pose proof (wf_fresh _ _ HW t (proj1 Hin)). lia.
    + apply NoDup_singleton.
  - intros t Hin. apply in_app_or in Hin. destruct Hin as [Hin|[<-|[]]].
    + apply In_others in Hin. pose proof (wf_fresh _ _ HW t (proj1 Hin)). lia.
    + cbn. lia.
Qed.

Lemma WF_perm (live live' : list Timer) (st st' : State) :
  Permutation live live' ->
  timers st' = timers st -> pendingEvents st' = pendingEvents st ->
  nextHandle st' = nextHandle st ->
  WF live st -> WF live' st'.
Proof.
  intros Hp Ht Hpe Hn HW.
  constructor; rewrite ?Ht, ?Hpe, ?Hn.
  - intros k h Hk. destruct (wf_registered _ _ HW _ _ Hk) as (t & Hin & H).
    exists t. split; [|exact H]. now apply (Permutation_in _ Hp).
  - intros t Hin. apply (wf_live _ _ HW).
    now apply (Permutation_in _ (Permutation_sym Hp)).
  - apply (wf_pending _ _ HW).
  - apply (wf_key _ _ HW).
  - rewrite <- (Permutation_map handle Hp). apply (wf_handles _ _ HW).
  - intros t Hin. apply (wf_fresh _ _ HW).
    now apply (Permutation_in _ (Permutation_sym Hp)).
Qed.

(** A live timer that fires finds the pending event of its key, delivers
    it, and unregisters itself. *)
Lemma fire_WF (t : Timer) (live : list Timer) (st : State) :
  WF (t :: live) st ->
  exists e,
    pendingEvents st !! timer_key t = Some e
    /\ fire t st
       = {| timers := delete (timer_key t) (timers st);
            pendingEvents := delete (timer_key t) (pendingEvents st);
            now := now st; scheduled := scheduled st;
            nextHandle := nextHandle st;
            delivered := delivered st ++ [(due t, e)] |}
    /\ WF live (fire t st).
Proof.
  intros HW.
  pose proof (wf_live _ _ HW t ltac:(now left)) as Hreg.
  destruct (pendingEvents st !! timer_key t) as [e|] eqn:Hp.
  2:{ apply (wf_pending _ _ HW) in Hp. congruence. }
  exists e. split; [reflexivity|].
  unfold fire. rewrite Hp. split; [reflexivity|].
  assert (Hother : forall t', In t' live -> timer_key t' <> timer_key t).
  { intros t' Hin Hk.
    assert (t' = t)
      by (apply (WF_same_key _ _ _ _ HW); [now right | now left | exact Hk]).
    subst t'. pose proof (wf_handles _ _ HW) as Hnd. cbn in Hnd.
    inversion Hnd as [|? ? Hh _]; subst. apply Hh.
    apply list_elem_of_In. now apply in_map. }
  constructor; cbn [timers pendingEvents nextHandle].
  - intros k h Hk. destruct (decide (timer_key t = k)) as [<-|Hne].
    { rewrite lookup_delete_eq in Hk. discriminate. }
    rewrite lookup_delete_ne in Hk by exact Hne.
    destruct (wf_registered _ _ HW _ _ Hk) as (t' & [<-|Hin] & Hh & Hkt).
    + congruence.
    + exists t'. auto.
  - intros t' Hin. rewrite lookup_delete_ne by (apply not_eq_sym; auto).
    apply (wf_live _ _ HW). now right.
  - intros k. destruct (decide (timer_key t = k)) as [<-|Hne].
    + now rewrite !lookup_delete_eq.
    + rewrite !lookup_delete_ne by exact Hne. apply (wf_pending _ _ HW).
  - intros k e' Hk. destruct (decide (timer_key t = k)) as [<-|Hne].
    { rewrite lookup_delete_eq in Hk. discriminate. }
    rewrite lookup_delete_ne in Hk by exact Hne. apply (wf_key _ _ HW _ _ Hk).
  - pose proof (wf_handles _ _ HW) as Hnd. cbn in Hnd. now inversion Hnd.
  - intros t' Hin. apply (wf_fresh _ _ HW). now right.
Qed.

(** the events that the timers [dueTimers] deliver when they fire, in a
    state in which they are live *)
Definition firing (dueTimers : list Timer) (st : State)
    : list (nat * DebouncedEvent) :=
  omap (fun t => match pendingEvents st !! timer_key t with
                 | Some e => Some (due t, e)
                 | None => None
                 end) dueTimers.

Lemma fire_all (dueTimers later : list Timer) (st : State) :
  WF (dueTimers ++ later) st ->
  let st' := fold_left (fun st t => fire t st) dueTimers st in
  WF later st'
  /\ scheduled st' = scheduled st /\ now st' = now st
  /\ delivered st' = delivered st ++ firing dueTimers st
  /\ List.length (firing dueTimers st) = List.length dueTimers.
Proof.
  revert st. induction dueTimers as [|t dueTimers IH]; intros st HW; cbn zeta.
  - cbn. rewrite app_nil_r. auto.
  - cbn [fold_left app] in *.
    destruct (fire_WF t _ st HW) as (e & Hp & Hf & HW').
    destruct (IH _ HW') as (H1 & H2 & H3 & H4 & H5). cbv zeta in *.
    assert (Hs : scheduled (fire t st) = scheduled st) by now rewrite Hf.
    assert (Hn : now (fire t st) = now st) by now rewrite Hf.
    assert (Hd : delivered (fire t st) = delivered st ++ [(due t, e)])
      by now rewrite Hf.
    rewrite H2, H3, H4, Hs, Hn, Hd.
    split; [exact H1|]. split; [reflexivity|]. split; [reflexivity|].
    assert (Hfiring : firing dueTimers (fire t st) = firing dueTimers st).
    { unfold firing. apply omap_ext_in. intros t' Hin.
      rewrite Hf. cbn [pendingEvents].
      rewrite lookup_delete_ne; [reflexivity|].
      intros Hk.
      assert (t = t').
      { apply (WF_same_key _ _ _ _ HW); [now left | | exact Hk].
        right. apply in_or_app. now left. }
      subst t'. pose proof (wf_handles _ _ HW) as Hnd. cbn in Hnd.
      inversion Hnd as [|? ? Hh _]; subst. apply Hh.
      apply list_elem_of_In, in_map, in_or_app. now left. }
    assert (Hc : firing (t :: dueTimers) st = (due t, e) :: firing dueTimers st).
    { unfold firing. cbn. now rewrite Hp. }
    rewrite Hfiring in *. rewrite Hc, <- app_assoc. cbn.
    split; [reflexivity|]. now rewrite H5.
Qed.

Lemma In_firing (dueTimers : list Timer) (st : State) (t : nat)
    (e : DebouncedEvent) :
  In (t, e) (firing dueTimers st) ->
  exists tm, In tm dueTimers /\ due tm = t
             /\ pendingEvents st !! timer_key tm = Some e.
Proof.
  unfold firing. intros Hin. apply list_elem_of_In, list_elem_of_omap in Hin.
  destruct Hin as (tm & Hin & H). exists tm.
  destruct (pendingEvents st !! timer_key tm) as [e'|]; [|discriminate].
  injection H as <- <-. split; [now apply list_elem_of_In | auto].
Qed.

(** What the passing of time delivers: the pending events of the live
    timers that come due, one for each. *)
Lemma advance_spec (dt : nat) (st : State) :
  WF (scheduled st) st ->
  let dueTimers :=
    List.filter (fun t => (due t <=? now st + dt)%nat) (scheduled st) in
  WF (scheduled (advance dt st)) (advance dt st)
  /\ scheduled (advance dt st)
     = List.filter (fun t => negb (due t <=? now st + dt)%nat) (scheduled st)
  /\ now (advance dt st) = (now st + dt)%nat
  /\ delivered (advance dt st) = delivered st ++ firing dueTimers st
  /\ List.length (firing dueTimers st) = List.length dueTimers.
Proof.
  intros HW dueTimers. unfold advance. fold dueTimers.
  set (later := List.filter (fun t => negb (due t <=? now st + dt)%nat)
                  (scheduled st)).
  set (st0 := {| timers := timers st; pendingEvents := pendingEvents st;
                 now := now st; scheduled := later;
                 nextHandle := nextHandle st; delivered := delivered st |}).
  assert (HW0 : WF (dueTimers ++ later) st0).
  { apply (WF_perm (scheduled st) _ st); auto.
    symmetry. apply DebouncerFacts.filter_partition_perm. }
  destruct (fire_all dueTimers later st0 HW0) as (H1 & H2 & H3 & H4 & H5).
  cbv zeta in *. cbn [scheduled now delivered timers pendingEvents nextHandle].
  rewrite H2, H4. subst st0. cbn [scheduled delivered] in *.
  split; [|split; [reflexivity|split; [reflexivity|split; [reflexivity|exact H5]]]].
  eapply WF_perm; [reflexivity| | | |exact H1]; reflexivity.
Qed.

Lemma advance_WF (dt : nat) (st : State) :
  WF (scheduled st) st -> WF (scheduled (advance dt st)) (advance dt st).
Proof. intros HW. apply (advance_spec dt st HW). Qed.

(** Every state of a debouncer satisfies the invariant. *)
Lemma reachable_WF (st : State) : reachable st -> WF (scheduled st) st.
Proof.
  induction 1.
  - apply create_WF.
  - now apply debounce_WF.
  - now apply advance_WF.
  - now apply flush_WF.
  - now apply flushAll_WF.
  - now apply cancel_WF.
  - now apply cancelAll_WF.
Qed.

Lemma debounce_pending (k : string) (d : T) (st : State) :
  pendingEvents (debounce k d st)
  = <[k := {| key := k; data := d; timestamp := now st |}]> (pendingEvents st).
Proof. unfold Debouncer.debounce. destruct (timers st !! k); reflexivity. Qed.

Lemma hasPending_lookup (k : string) (st : State) :
  hasPending k st = false <-> pendingEvents st !! k = None.
Proof.
  unfold hasPending. destruct (pendingEvents st !! k); split; congruence.
Qed.

Lemma advance_without_timers (dt : nat) (st : State) :
  scheduled st = [] -> delivered (advance dt st) = delivered st.
Proof. intros H. unfold advance. rewrite H. reflexivity. Qed.

(** The timers that come due among those of other keys deliver what all
    timers that come due deliver, less the events of [k]. *)
Lemma firing_others (k : string) (dueTimers : list Timer) (st st' : State) :
  (forall k e, pendingEvents st !! k = Some e -> key e = k) ->
  pendingEvents st' = delete k (pendingEvents st) ->
  firing (others k dueTimers) st'
  = List.filter (fun te => negb (String.eqb (key (snd te)) k))
      (firing dueTimers st).
Proof.
  intros Hkey Hp. unfold firing, others. rewrite Hp.
  induction dueTimers as [|t l IH]; cbn; [reflexivity|].
  destruct (String.eqb (timer_key t) k) eqn:E; cbn.
  - apply String.eqb_eq in E.
    destruct (pendingEvents st !! timer_key t) as [e|] eqn:He; cbn.
    + rewrite (Hkey _ _ He), E, String.eqb_refl. cbn. exact IH.
    + exact IH.
  - pose proof E as Hne. apply String.eqb_neq in Hne.
    rewrite lookup_delete_ne by congruence.
    destruct (pendingEvents st !! timer_key t) as [e|] eqn:He; cbn.
    + rewrite (Hkey _ _ He), E. cbn. now rewrite IH.
    + exact IH.
Qed.

Lemma others_filter (k : string) (f : Timer -> bool) (l : list Timer) :
  List.filter f (others k l) = others k (List.filter f l).
Proof.
  unfold others. induction l as [|t l IH]; cbn; [reflexivity|].
  destruct (String.eqb (timer_key t) k) eqn:E, (f t) eqn:F; cbn;
    rewrite ?E, ?F; cbn; rewrite ?IH; reflexivity.
Qed.

(** X1.  [flush(key)] in any state of a debouncer: the pending event of
    the key, if there is one, is delivered at once and once; afterwards the
    key has no pending event and no timer, the other keys are as before,
    and however much time passes, no event of the key is delivered until
    [debounce] is called for it again. *)
Theorem flush_delivers_now_and_disarms (st : State) (k : string) :
  reachable st ->
  let st' := flush k st in
  delivered st'
  = delivered st ++ match pendingEvents st !! k with
                    | Some e => [(now st, e)]
                    | None => []
                    end
  /\ hasPending k st' = false
  /\ (forall k', k' <> k -> pendingEvents st' !! k' = pendingEvents st !! k')
  /\ (forall t, In t (scheduled st') <-> In t (scheduled st) /\ timer_key t <> k)
  /\ forall dt, exists fired,
       delivered (advance dt st') = delivered st' ++ fired
       /\ forall t e, In (t, e) fired -> key e <> k.
Proof.
  intros Hr st'. pose proof (reachable_WF st Hr) as HW.
  pose proof (flush_WF k st HW) as HW'. fold st' in HW'.
  assert (Hf := flush_fields k st HW). fold st' in Hf.
  split; [now rewrite Hf|]. split.
  { apply hasPending_lookup. rewrite Hf. cbn. apply lookup_delete_eq. }
  split.
  { intros k' Hne. rewrite Hf. cbn. now apply lookup_delete_ne. }
  split.
  { intros t. rewrite Hf. cbn. apply In_others. }
  intros dt. destruct (advance_spec dt st' HW') as (_ & _ & _ & Hd & _).
  eexists. split; [exact Hd|].
  intros t e Hin Hk. apply In_firing in Hin.
  destruct Hin as (tm & Hin & _ & Hp).
  apply filter_In in Hin. destruct Hin as [Hin _].
  pose proof (wf_key _ _ HW' _ _ Hp) as Hke.
  assert (Hs : scheduled st' = others k (scheduled st)) by now rewrite Hf.
  rewrite Hs in Hin. apply In_others in Hin. destruct Hin as [_ Hne].
  congruence.
Qed.

(** X2.  [cancel(key)] in any state of a debouncer delivers nothing and
    leaves the key without pending event; and whatever time passes
    afterwards, the events delivered are those that would have been
    delivered without the call, in the same order and at the same times,
    less the events of that key. *)
Theorem cancel_silences_only_its_key (st : State) (k : string) :
  reachable st ->
  let st' := cancel k st in
  delivered st' = delivered st
  /\ hasPending k st' = false
  /\ forall dt, exists fired,
       delivered (advance dt st) = delivered st ++ fired
       /\ delivered (advance dt st')
          = delivered st
              ++ List.filter (fun te => negb (String.eqb (key (snd te)) k)) fired.
Proof.
  intros Hr st'. pose proof (reachable_WF st Hr) as HW.
  pose proof (cancel_WF k st HW) as HW'. fold st' in HW'.
  assert (Hf := cancel_fields k st HW). fold st' in Hf.
  split; [now rewrite Hf|]. split.
  { apply hasPending_lookup. rewrite Hf. cbn. apply lookup_delete_eq. }
  intros dt.
  destruct (advance_spec dt st HW) as (_ & _ & _ & Hd & _).
  destruct (advance_spec dt st' HW') as (_ & _ & _ & Hd' & _).
  eexists. split; [exact Hd|]. rewrite Hd'.
  assert (Hs : scheduled st' = others k (scheduled st)) by now rewrite Hf.
  assert (Hn : now st' = now st) by now rewrite Hf.
  assert (Hdl : delivered st' = delivered st) by now rewrite Hf.
  rewrite Hs, Hn, Hdl, others_filter. f_equal.
  apply firing_others; [apply (wf_key _ _ HW) | now rewrite Hf].
Qed.

(** X3.  [cancelAll()], and so [destroy()], in any state of a debouncer:
    no event is pending afterwards, no timer of the debouncer is left in
    the runtime, nothing was delivered by the call and nothing is delivered
    however much time passes. *)
Theorem cancelAll_drops_every_pending_event (st : State) :
  reachable st ->
  let st' := destroy st in
  getPendingCount st' = 0%nat
  /\ (forall k, hasPending k st' = false)
  /\ scheduled st' = []
  /\ delivered st' = delivered st
  /\ forall dt, delivered (advance dt st') = delivered st.
Proof.
  intros Hr st'. pose proof (reachable_WF st Hr) as HW.
  subst st'. unfold destroy. rewrite (cancelAll_fields st HW).
  split; [apply map_size_empty|]. split; [reflexivity|].
  split; [reflexivity|]. split; [reflexivity|].
  intros dt. now rewrite advance_without_timers.
Qed.

(** the events of the keys [keys] that are pending in [st], as delivered at
    time [now st] *)
Definition flushed (keys : list string) (st : State)
    : list (nat * DebouncedEvent) :=
  omap (fun k => match pendingEvents st !! k with
                 | Some e => Some (now st, e)
                 | None => None
                 end) keys.

Lemma flushAll_spec (keys : list string) (st : State) :
  WF (scheduled st) st -> NoDup keys ->
  let st' := flushAll keys st in
  delivered st' = delivered st ++ flushed keys st
  /\ now st' = now st
  /\ (forall k, pendingEvents st' !! k
                = if decide (k ∈ keys) then None else pendingEvents st !! k)
  /\ (forall t, In t (scheduled st')
                <-> In t (scheduled st) /\ ~ In (timer_key t) keys).
Proof.
  revert st. induction keys as [|k keys IH]; intros st HW Hnd; cbn zeta.
  - cbn. rewrite app_nil_r. repeat split; auto; tauto.
  - inversion Hnd as [|? ? Hk Hnd']; subst. rewrite list_elem_of_In in Hk.
    cbn [flushAll fold_left].
    destruct (IH (flush k st) (flush_WF k st HW) Hnd') as (H1 & H2 & H3 & H4).
    cbv zeta in *. unfold flushAll in *. rewrite H1, H2.
    assert (Hf := flush_fields k st HW).
    assert (Hflushed : flushed keys (flush k st) = flushed keys st).
    { unfold flushed. apply omap_ext_in. intros k' Hin. rewrite Hf. cbn.
      rewrite lookup_delete_ne; [reflexivity|]. intros <-. contradiction. }
    rewrite Hflushed. split; [|split; [|split]].
    + rewrite Hf at 1. cbn [delivered]. rewrite <- app_assoc. f_equal.
      unfold flushed. cbn. destruct (pendingEvents st !! k); reflexivity.
    + now rewrite Hf.
    + intros k'. rewrite H3. rewrite Hf. cbn [pendingEvents].
      destruct (decide (k' ∈ keys)) as [Hin|Hnin].
      * rewrite decide_True; [reflexivity | now right].
      * destruct (decide (k = k')) as [<-|Hne].
        -- rewrite lookup_delete_eq. rewrite decide_True; [reflexivity | now left].
        -- rewrite lookup_delete_ne by exact Hne.
           rewrite decide_False; [reflexivity|].
           intros Hin. apply elem_of_cons in Hin. destruct Hin; congruence.
    + intros t. rewrite H4. rewrite Hf. cbn [scheduled]. rewrite In_others.
      cbn [In]. intuition congruence.
Qed.

(** X4.  [flushAll()] in any state of a debouncer, visiting the keys of the
    pending events in whatever order the map yields them: it delivers at
    once the pending event of every key, one event for each key and in the
    order of the visit; afterwards no event is pending, no timer of the
    debouncer is left in the runtime, and nothing more is delivered however
    much time passes. *)
Theorem flushAll_delivers_every_pending_event (st : State) (keys : list string) :
  reachable st ->
  NoDup keys ->
  (forall k, In k keys <-> hasPending k st = true) ->
  let st' := flushAll keys st in
  (exists events,
     delivered st' = delivered st ++ events
     /\ Forall2 (fun k te => fst te = now st
                             /\ pendingEvents st !! k = Some (snd te))
          keys events)
  /\ getPendingCount st' = 0%nat
  /\ scheduled st' = []
  /\ forall dt, delivered (advance dt st') = delivered st'.
Proof.
  intros Hr Hnd Hkeys st'. pose proof (reachable_WF st Hr) as HW.
  destruct (flushAll_spec keys st HW Hnd) as (H1 & H2 & H3 & H4).
  fold st' in H1, H2, H3, H4.
  assert (Hsched : scheduled st' = []).
  { destruct (scheduled st') as [|t l] eqn:E; [reflexivity|]. exfalso.
    destruct (proj1 (H4 t) ltac:(now left)) as [Hin Hnin]. apply Hnin.
    apply Hkeys. unfold hasPending.
    destruct (pendingEvents st !! timer_key t) eqn:Hp; [reflexivity|].
    apply (wf_pending _ _ HW) in Hp.
    rewrite (wf_live _ _ HW t Hin) in Hp. discriminate. }
  split; [|split; [|split]].
  - exists (flushed keys st). split; [exact H1|].
    assert (Hall : forall k, In k keys -> exists e, pendingEvents st !! k = Some e).
    { intros k Hin. apply Hkeys in Hin. unfold hasPending in Hin.
      destruct (pendingEvents st !! k) as [e|]; [now exists e | discriminate]. }
    clear -Hall. unfold flushed.
    induction keys as [|k keys IH]; cbn; [constructor|].
    destruct (Hall k ltac:(now left)) as [e He]. rewrite He. cbn.
    constructor; [now rewrite He|]. apply IH. intros. apply Hall. now right.
  - unfold getPendingCount.
    replace (pendingEvents st') with (∅ : gmap string DebouncedEvent);
      [apply map_size_empty|].
    symmetry. apply map_eq. intros k. rewrite H3, lookup_empty.
    destruct (decide (k ∈ keys)) as [|Hnin]; [reflexivity|].
    apply hasPending_lookup. destruct (hasPending k st) eqn:E; [|reflexivity].
    apply Hkeys, list_elem_of_In in E. contradiction.
  - exact Hsched.
  - intros dt. now apply advance_without_timers.
Qed.

(** X5.  In every state of a debouncer the pending events and the timers
    that the runtime holds for it correspond one to one: no two timers are
    set for the same key, a key has a pending event exactly if a timer is
    set for it, that timer is the one registered in [timers], and
    [getPendingCount()] is the number of timers. *)
Theorem one_timer_for_every_pending_event (st : State) :
  reachable st ->
  NoDup (map timer_key (scheduled st))
  /\ (forall k, hasPending k st = true <-> In k (map timer_key (scheduled st)))
  /\ (forall t, In t (scheduled st) -> timers st !! timer_key t = Some (handle t))
  /\ getPendingCount st = List.length (scheduled st).
Proof.
  intros Hr. pose proof (reachable_WF st Hr) as HW.
  pose proof (WF_keys_NoDup _ _ HW) as Hnd.
  assert (Hiff : forall k, hasPending k st = true
                           <-> In k (map timer_key (scheduled st))).
  { intros k. unfold hasPending. split.
    - destruct (pendingEvents st !! k) as [e|] eqn:Hp; [|discriminate].
      intros _. destruct (timers st !! k) as [h|] eqn:Ht.
      + destruct (wf_registered _ _ HW _ _ Ht) as (t & Hin & _ & <-).
        now apply in_map.
      + apply (wf_pending _ _ HW) in Ht. congruence.
    - intros Hin. apply in_map_iff in Hin. destruct Hin as (t & <- & Hin).
      destruct (pendingEvents st !! timer_key t) eqn:Hp; [reflexivity|].
      apply (wf_pending _ _ HW) in Hp.
      rewrite (wf_live _ _ HW t Hin) in Hp. discriminate. }
  split; [exact Hnd|]. split; [exact Hiff|]. split; [apply (wf_live _ _ HW)|].
  unfold getPendingCount.
  rewrite <- (length_map timer_key (scheduled st)).
  rewrite <- (length_map_to_list (pendingEvents st)).
  rewrite <- (length_map fst (map_to_list (pendingEvents st))).
  apply Permutation_length. apply NoDup_Permutation.
  - apply NoDup_fst_map_to_list.
  - exact Hnd.
  - intros k. rewrite (list_elem_of_In (map timer_key _) k), <- Hiff.
    unfold hasPending. rewrite list_elem_of_fmap. split.
    + intros ([k' e] & -> & Hin). apply elem_of_map_to_list in Hin.
      cbn. now rewrite Hin.
    + destruct (pendingEvents st !! k) as [e|] eqn:Hp; [|discriminate].
      intros _. exists (k, e). split; [reflexivity|].
      now apply elem_of_map_to_list.
Qed.

End Facts.

(** X1 to X5 at states of a debouncer with a delay of 1000 ms in which
    two keys were debounced. *)
Definition twoPending : Debouncer.State string :=
  Debouncer.debounce 1000 "key2" "data2"
    (Debouncer.debounce 1000 "key1" "data1" (create 0)).

Lemma twoPending_reachable : Debouncer.reachable 1000 twoPending.
Proof. repeat constructor. Qed.

Lemma flush_delivers_now_and_disarms_witness :
  delivered (flush "key1" twoPending)
  = [(0%nat, {| key := "key1"; data := "data1"; timestamp := 0 |})]
  /\ hasPending "key1" (flush "key1" twoPending) = false.
Proof.
  destruct (flush_delivers_now_and_disarms 1000 twoPending "key1"
              twoPending_reachable) as (H1 & H2 & _).
  split; [exact H1 | exact H2].
Defined.

Lemma cancel_silences_only_its_key_witness :
  delivered (cancel "key1" twoPending) = []
  /\ hasPending "key1" (cancel "key1" twoPending) = false.
Proof.
  destruct (cancel_silences_only_its_key 1000 twoPending "key1"
              twoPending_reachable) as (H1 & H2 & _).
  split; [exact H1 | exact H2].
Defined.

Lemma cancelAll_drops_every_pending_event_witness :
  getPendingCount (destroy twoPending) = 0%nat
  /\ delivered (advance 1000 (destroy twoPending)) = [].
Proof.
  destruct (cancelAll_drops_every_pending_event 1000 twoPending
              twoPending_reachable) as (H1 & _ & _ & _ & H5).
  split; [exact H1 | exact (H5 1000%nat)].
Defined.

Lemma flushAll_delivers_every_pending_event_witness :
  getPendingCount (flushAll ["key1"; "key2"] twoPending) = 0%nat
  /\ scheduled (flushAll ["key1"; "key2"] twoPending) = [].
Proof.
  assert (Hnd : NoDup ["key1"; "key2"]).
  { repeat constructor; rewrite list_elem_of_In; cbn; intuition discriminate. }
  assert (Hk : forall k, In k ["key1"; "key2"] <-> hasPending k twoPending = true).
  { intros k. unfold hasPending, twoPending.
    rewrite !debounce_pending. unfold create. cbn [In pendingEvents].
    destruct (decide (k = "key2")) as [->|H2].
    - rewrite lookup_insert_eq. intuition.
    - rewrite lookup_insert_ne by congruence.
      destruct (decide (k = "key1")) as [->|H1].
      + rewrite lookup_insert_eq. intuition.
      + rewrite lookup_insert_ne by congruence. rewrite lookup_empty.
        intuition congruence. }
  destruct (flushAll_delivers_every_pending_event 1000 twoPending
              ["key1"; "key2"] twoPending_reachable Hnd Hk) as (_ & H2 & H3 & _).
  split; [exact H2 | exact H3].
Defined.

Lemma one_timer_for_every_pending_event_witness :
  getPendingCount twoPending = 2%nat.
Proof.
  destruct (one_timer_for_every_pending_event 1000 twoPending
              twoPending_reachable) as (_ & _ & _ & H).
  exact H.
Defined.

End DebouncerControlFacts.

(** ** The rate limiter: the sliding window of requests *)

Module RateLimiterWindowFacts.
Import RateLimiter.

(** the timestamps later than [threshold] *)
Definition since (threshold : Z) (l : list Z) : list Z :=
  List.filter (fun ts => threshold <? ts) l.

Lemma since_since (a b : Z) (l : list Z) :
  a <= b -> since b (since a l) = since b l.
Proof.
  intros H. unfold since. induction l as [|x l IH]; cbn; [reflexivity|].
  destruct (a <? x) eqn:Ea; cbn; destruct (b <? x) eqn:Eb; rewrite ?IH; try reflexivity.
  apply Z.ltb_lt in Eb. apply Z.ltb_ge in Ea. lia.
Qed.

Lemma since_app (a : Z) (l l' : list Z) :
  since a (l ++ l') = since a l ++ since a l'.
Proof. apply List.filter_app. Qed.

Lemma filter_length_impl {A} (f g : A -> bool) (l : list A) :
  (forall x, f x = true -> g x = true) ->
  (List.length (List.filter f l) <= List.length (List.filter g l))%nat.
Proof.
  intros H. induction l as [|x l IH]; cbn; [lia|].
  destruct (f x) eqn:F.
  - rewrite (H x F). cbn. lia.
  - destruct (g x); cbn; lia.
Qed.

Lemma clean_since (st : State) (now : Z) :
  requestTimestamps (cleanOldTimestamps st now)
  = since (now - 60000) (requestTimestamps st).
Proof. reflexivity. Qed.

(** What the second loop of [waitForSlot] leaves when it ends: the clock
    has not gone back, the timestamps of the last minute are kept, the
    others dropped, and fewer than [requestsPerMinute] are left. *)
Lemma waitForRate_spec (cfg : RateLimitConfig) (fuel : nat) :
  forall st now st' now',
    waitForRate fuel cfg st now = Some (st', now') ->
    now <= now'
    /\ requestTimestamps st' = since (now' - 60000) (requestTimestamps st)
    /\ currentConcurrent st' = currentConcurrent st
    /\ Z.of_nat (List.length (requestTimestamps st')) < requestsPerMinute cfg.
Proof.
  induction fuel as [|fuel IH]; intros st now st' now'; cbn [waitForRate];
    unfold canMakeRequest;
    destruct (Z.of_nat (List.length (requestTimestamps (cleanOldTimestamps st now)))
              <? requestsPerMinute cfg) eqn:E.
  - intros [= <- <-]. apply Z.ltb_lt in E. repeat split; auto; lia.
  - discriminate.
  - intros [= <- <-]. apply Z.ltb_lt in E. repeat split; auto; lia.
  - unfold getWaitTime. rewrite RateLimiterFacts.clean_idempotent.
    destruct (requestTimestamps (cleanOldTimestamps st now))
      as [|oldest rest] eqn:Hts.
    + intros H. apply IH in H. destruct H as (H1 & H2 & H3 & H4).
      unfold sleep in *. split; [lia|]. split; [|split; [exact H3 | exact H4]].
      rewrite H2, clean_since. apply since_since. lia.
    + destruct (requestsPerMinute cfg <=? Z.of_nat (List.length (oldest :: rest)));
        intros H; apply IH in H; destruct H as (H1 & H2 & H3 & H4);
        unfold sleep in *; (split; [lia|]);
        (split; [|split; [exact H3 | exact H4]]);
        rewrite H2, clean_since; apply since_since; lia.
Qed.

Lemma waitForSlot_spec (cfg : RateLimitConfig) (st : State) (now : Z)
    (st' : State) (now' : Z) :
  waitForSlot cfg st now = Some (st', now') ->
  now <= now'
  /\ requestTimestamps st'
     = since (now' - 60000) (requestTimestamps st) ++ [now']
  /\ currentConcurrent st' = currentConcurrent st + 1
  /\ Z.of_nat (List.length (since (now' - 60000) (requestTimestamps st)))
     < requestsPerMinute cfg.
Proof.
  unfold waitForSlot.
  destruct (maxConcurrent cfg <=? currentConcurrent st); [discriminate|].
  destruct (waitForRate _ cfg st now) as [[st1 now1]|] eqn:E; [|discriminate].
  intros [= <- <-]. apply waitForRate_spec in E.
  destruct E as (H1 & H2 & H3 & H4). cbn. rewrite <- H2, H3. auto.
Qed.

(** the reservations made in the minute that ends at [a + 60000] *)
Definition within (a : Z) (reserved : list Z) : list Z :=
  List.filter (fun s => (a <? s) && (s <=? a + 60000)) reserved.

Lemma uses_window (cfg : RateLimitConfig) (us : list Use) :
  (forall ms, In (UsePause ms) us -> 0 <= ms) ->
  forall st now reserved st' now' reserved',
    since (now - 60000) reserved = since (now - 60000) (requestTimestamps st) ->
    (forall a, Z.of_nat (List.length (within a reserved))
               <= Z.max 0 (requestsPerMinute cfg)) ->
    uses cfg us st now reserved = Some (st', now', reserved') ->
    forall a, Z.of_nat (List.length (within a reserved'))
              <= Z.max 0 (requestsPerMinute cfg).
Proof.
  induction us as [|u us IH]; intros Hms st now reserved st' now' reserved' HP HW.
  - cbn. intros [= <- <- <-]. exact HW.
  - assert (Hms' : forall ms, In (UsePause ms) us -> 0 <= ms)
      by (intros; apply Hms; now right).
    destruct u as [| | |ms]; cbn [uses].
    + destruct (waitForSlot cfg st now) as [[st1 now1]|] eqn:E; [|discriminate].
      apply waitForSlot_spec in E. destruct E as (H1 & H2 & H3 & H4).
      assert (HP1 : since (now1 - 60000) reserved
                    = since (now1 - 60000) (requestTimestamps st)).
      { rewrite <- (since_since (now - 60000) (now1 - 60000) reserved) by lia.
        rewrite HP. apply since_since. lia. }
      apply (IH Hms').
      * rewrite H2, !since_app, HP1.
        rewrite (since_since (now1 - 60000) (now1 - 60000)) by lia. reflexivity.
      * intros a. unfold within. rewrite List.filter_app, length_app. cbn [List.filter].
        destruct ((a <? now1) && (now1 <=? a + 60000)) eqn:Ein; cbn [List.length].
        -- apply andb_true_iff in Ein. destruct Ein as [Ea Eb].
           apply Z.ltb_lt in Ea. apply Z.leb_le in Eb.
           assert (Nat.le (List.length (within a reserved))
                     (List.length (since (now1 - 60000) reserved))).
           { apply filter_length_impl. intros x Hx.
             apply andb_true_iff in Hx. destruct Hx as [Hx _].
             apply Z.ltb_lt in Hx. apply Z.ltb_lt. lia. }
           rewrite HP1 in H. unfold within in H. lia.
        -- specialize (HW a). unfold within in HW. lia.
    + apply (IH Hms'); assumption.
    + apply (IH Hms'); [|assumption].
      cbn [getStats snd]. rewrite clean_since.
      rewrite since_since by lia. exact HP.
    + assert (0 <= ms) by (apply Hms; now left).
      apply (IH Hms'); [|assumption]. unfold sleep.
      rewrite <- (since_since (now - 60000) (now + ms - 60000) reserved) by lia.
      rewrite HP. apply since_since. lia.
Qed.

(** X6.  Whatever a client does with a new limiter, as long as the clock
    does not go back: no minute, wherever it starts, holds more than
    [requestsPerMinute] of the times at which [waitForSlot] reserved a
    slot. *)
Theorem no_minute_holds_more_than_requestsPerMinute (cfg : RateLimitConfig)
    (us : list Use) (start : Z) (st : State) (now : Z) (reserved : list Z) :
  (forall ms, In (UsePause ms) us -> 0 <= ms) ->
  uses cfg us reset start [] = Some (st, now, reserved) ->
  forall a,
    Z.of_nat
      (List.length
         (List.filter (fun s => (a <? s) && (s <=? a + 60000)) reserved))
    <= Z.max 0 (requestsPerMinute cfg).
Proof.
  intros Hms Hrun. apply (uses_window cfg us Hms reset start [] st now reserved).
  - reflexivity.
  - intros a. cbn. lia.
  - exact Hrun.
Qed.

(** a limiter that admits two requests a minute *)
Definition twoPerMinute : RateLimitConfig :=
  {| maxConcurrent := 1; requestsPerMinute := 2; backoffMultiplier := 2;
     maxRetries := 3; initialDelayMs := 2000 |}.

Definition threeRequests : list Use :=
  [UseWaitForSlot; UseReleaseSlot; UsePause 1000; UseWaitForSlot;
   UseReleaseSlot; UseGetStats; UseWaitForSlot].

(** X6 at a limiter for two requests a minute: of three requests made
    within a second, the third is held back until a minute after the
    first. *)
Lemma no_minute_holds_more_than_requestsPerMinute_witness :
  (exists st, uses twoPerMinute threeRequests reset 0 []
              = Some (st, 60100, [0; 1000; 60100]))
  /\ Z.of_nat
       (List.length
          (List.filter (fun s => (500 <? s) && (s <=? 500 + 60000))
             [0; 1000; 60100]))
     <= Z.max 0 (requestsPerMinute twoPerMinute).
Proof.
  assert (Hms : forall ms, In (UsePause ms) threeRequests -> 0 <= ms).
  { intros ms H. cbn in H.
    repeat (destruct H as [H|H]; [try discriminate H|]); [|contradiction].
    injection H as <-. lia. }
  assert (Hrun : uses twoPerMinute threeRequests reset 0 []
                 = Some ({| requestTimestamps := [1000; 60100];
                            currentConcurrent := 1 |}, 60100, [0; 1000; 60100]))
    by reflexivity.
  split; [eexists; exact Hrun|].
  exact (no_minute_holds_more_than_requestsPerMinute twoPerMinute threeRequests
           0 _ _ _ Hms Hrun 500).
Defined.

Lemma waitForRate_now (cfg : RateLimitConfig) (fuel : nat) (st : State) (now : Z) :
  fst (canMakeRequest cfg st now) = true ->
  waitForRate fuel cfg st now = Some (cleanOldTimestamps st now, now).
Proof.
  unfold canMakeRequest. cbn [fst]. intros H.
  destruct fuel; cbn [waitForRate]; unfold canMakeRequest; now rewrite H.
Qed.

(** While no request can be made, the second loop of [waitForSlot] does not
    end at the clock reading at which it began. *)
Lemma waitForRate_later (cfg : RateLimitConfig) (fuel : nat) :
  forall st now st' now',
    fst (canMakeRequest cfg st now) = false ->
    waitForRate fuel cfg st now = Some (st', now') ->
    now < now'.
Proof.
  induction fuel as [|fuel IH]; intros st now st' now' Hcan;
    unfold canMakeRequest in Hcan; cbn [fst] in Hcan;
    cbn [waitForRate]; unfold canMakeRequest; rewrite Hcan; [discriminate|].
  unfold getWaitTime. rewrite RateLimiterFacts.clean_idempotent.
  apply Z.ltb_ge in Hcan.
  destruct (requestTimestamps (cleanOldTimestamps st now))
    as [|oldest rest] eqn:Hts.
  - unfold sleep. rewrite Z.add_0_r. intros H.
    apply (IH (cleanOldTimestamps st now) now st' now'); [|exact H].
    unfold canMakeRequest. cbn [fst].
    rewrite RateLimiterFacts.clean_idempotent, Hts. now apply Z.ltb_ge.
  - replace (requestsPerMinute cfg <=? Z.of_nat (List.length (oldest :: rest)))
      with true by (symmetry; now apply Z.leb_le).
    intros H. apply waitForRate_spec in H. destruct H as [H _].
    assert (now - 60000 < oldest).
    { assert (Hin : In oldest (requestTimestamps (cleanOldTimestamps st now)))
        by (rewrite Hts; now left).
      cbn in Hin. apply filter_In in Hin. destruct Hin as [_ Hin]. lia. }
    unfold sleep in H. lia.
Qed.

(** X7.  A task that finds a concurrency slot free, at most
    [requestsPerMinute] timestamps recorded and none of them in the future
    is given its slot by [waitForSlot] at once if fewer than
    [requestsPerMinute] requests were made in the last minute, and otherwise
    after one sleep of more than 100 ms and at most 60.1 s; the limiter it
    leaves has one more slot taken, again at most [requestsPerMinute]
    timestamps, the last of them the time of the reservation, and none in
    the future. *)
Theorem waitForSlot_waits_at_most_a_minute (cfg : RateLimitConfig)
    (st : State) (now : Z) :
  0 <= currentConcurrent st < maxConcurrent cfg ->
  1 <= requestsPerMinute cfg ->
  Z.of_nat (List.length (requestTimestamps st)) <= requestsPerMinute cfg ->
  (forall ts, In ts (requestTimestamps st) -> ts <= now) ->
  exists st' now',
    waitForSlot cfg st now = Some (st', now')
    /\ (if fst (canMakeRequest cfg st now) then now' = now
        else now + 100 < now' <= now + 60100)
    /\ currentConcurrent st' = currentConcurrent st + 1
    /\ List.last (requestTimestamps st') 0 = now'
    /\ Z.of_nat (List.length (requestTimestamps st')) <= requestsPerMinute cfg
    /\ (forall ts, In ts (requestTimestamps st') -> ts <= now').
Proof.
  intros Hcc Hrpm Hlen Hpast.
  destruct (RateLimiterFacts.waitForSlot_returns cfg st now Hcc Hrpm)
    as (st' & now' & Hw & _).
  exists st', now'. split; [exact Hw|].
  pose proof (waitForSlot_spec cfg st now st' now' Hw) as (H1 & H2 & H3 & H4).
  assert (Hrest :
    currentConcurrent st' = currentConcurrent st + 1
    /\ List.last (requestTimestamps st') 0 = now'
    /\ Z.of_nat (List.length (requestTimestamps st')) <= requestsPerMinute cfg
    /\ (forall ts, In ts (requestTimestamps st') -> ts <= now')).
  { split; [exact H3|]. rewrite H2. split; [apply last_last|]. split.
    - rewrite length_app. cbn [List.length]. lia.
    - intros ts Hin. apply in_app_or in Hin. destruct Hin as [Hin|[<-|[]]]; [|lia].
      apply filter_In in Hin. specialize (Hpast ts (proj1 Hin)). lia. }
  split; [|exact Hrest].
  unfold waitForSlot in Hw.
  replace (maxConcurrent cfg <=? currentConcurrent st) with false in Hw
    by (symmetry; apply Z.leb_gt; lia).
  destruct (fst (canMakeRequest cfg st now)) eqn:Hcan.
  - rewrite (waitForRate_now cfg _ st now Hcan) in Hw. now injection Hw.
  - destruct (waitForRate _ cfg st now) as [[st1 now1]|] eqn:E; [|discriminate].
    injection Hw as <- <-.
    unfold canMakeRequest in Hcan. cbn [fst] in Hcan. apply Z.ltb_ge in Hcan.
    pose proof (RateLimiterFacts.clean_length st now) as Hcl.
    destruct (List.length (requestTimestamps st)) as [|fuel] eqn:Hfuel; [lia|].
    cbn [waitForRate] in E. unfold canMakeRequest in E.
    replace (Z.of_nat (List.length (requestTimestamps (cleanOldTimestamps st now)))
             <? requestsPerMinute cfg) with false in E
      by (symmetry; now apply Z.ltb_ge).
    unfold getWaitTime in E. rewrite RateLimiterFacts.clean_idempotent in E.
    destruct (requestTimestamps (cleanOldTimestamps st now))
      as [|oldest rest] eqn:Hc.
    { cbn in Hcan. lia. }
    replace (requestsPerMinute cfg <=? Z.of_nat (List.length (oldest :: rest)))
      with true in E by (symmetry; now apply Z.leb_le).
    assert (Hold : now - 60000 < oldest <= now).
    { assert (Hin : In oldest (requestTimestamps (cleanOldTimestamps st now)))
        by (rewrite Hc; now left).
      cbn in Hin. apply filter_In in Hin. destruct Hin as [Hin Hlt].
      specialize (Hpast _ Hin). lia. }
    pose proof (RateLimiterFacts.clean_drops_oldest st now oldest rest Hc) as Hdrop.
    cbn [List.length] in Hcl, Hcan.
    rewrite waitForRate_now in E.
    + injection E as <- <-. unfold sleep. lia.
    + unfold canMakeRequest. cbn [fst]. apply Z.ltb_lt. lia.
Qed.

(** X7 at the limiter for two requests a minute after two requests. *)
Lemma waitForSlot_waits_at_most_a_minute_witness :
  exists st' now',
    waitForSlot twoPerMinute
      {| requestTimestamps := [0; 1000]; currentConcurrent := 0 |} 2000
    = Some (st', now')
    /\ now' <= 2000 + 60100.
Proof.
  destruct (waitForSlot_waits_at_most_a_minute twoPerMinute
              {| requestTimestamps := [0; 1000]; currentConcurrent := 0 |} 2000)
    as (st' & now' & Hw & Hwait & _).
  - cbn. lia.
  - cbn. lia.
  - cbn. lia.
  - cbn. intros ts [<-|[<-|[]]]; lia.
  - exists st', now'. split; [exact Hw|].
    destruct (fst (canMakeRequest _ _ _)); lia.
Defined.

(** X8.  [getStats()] reports a free slot exactly when [waitForSlot()],
    called at the same clock reading by a task that finds a concurrency
    slot free, reserves its slot without sleeping; and the two numbers it
    reports about requests never add up to less than [requestsPerMinute]. *)
Theorem getStats_reports_whether_waitForSlot_sleeps (cfg : RateLimitConfig)
    (st : State) (now : Z) :
  currentConcurrent st < maxConcurrent cfg ->
  let stats := fst (getStats cfg st now) in
  (0 < availableSlots stats
   <-> exists st', waitForSlot cfg st now = Some (st', now))
  /\ requestsInLastMinute stats
     = Z.of_nat (List.length (List.filter (fun ts => now - 60000 <? ts)
                                (requestTimestamps st)))
  /\ requestsPerMinute cfg <= requestsInLastMinute stats + availableSlots stats
  /\ 0 <= availableSlots stats.
Proof.
  intros Hcc stats. subst stats. cbn [getStats fst availableSlots requestsInLastMinute].
  split; [|split; [reflexivity | lia]].
  unfold waitForSlot.
  replace (maxConcurrent cfg <=? currentConcurrent st) with false
    by (symmetry; apply Z.leb_gt; lia).
  destruct (fst (canMakeRequest cfg st now)) eqn:Hcan.
  - rewrite (waitForRate_now cfg _ st now Hcan).
    unfold canMakeRequest in Hcan. cbn [fst] in Hcan. apply Z.ltb_lt in Hcan.
    split; [intros _; eexists; reflexivity | lia].
  - split.
    + unfold canMakeRequest in Hcan. cbn [fst] in Hcan. apply Z.ltb_ge in Hcan. lia.
    + intros [st' H].
      destruct (waitForRate _ cfg st now) as [[st1 now1]|] eqn:E; [|discriminate].
      pose proof (waitForRate_later cfg _ st now st1 now1 Hcan E).
      injection H as _ H. lia.
Qed.

(** X8 at the limiter for two requests a minute after two requests. *)
Lemma getStats_reports_whether_waitForSlot_sleeps_witness :
  0 < availableSlots
        (fst (getStats twoPerMinute
                {| requestTimestamps := [0]; currentConcurrent := 0 |} 2000))
  <-> exists st',
        waitForSlot twoPerMinute
          {| requestTimestamps := [0]; currentConcurrent := 0 |} 2000
        = Some (st', 2000).
Proof.
  destruct (getStats_reports_whether_waitForSlot_sleeps twoPerMinute
              {| requestTimestamps := [0]; currentConcurrent := 0 |} 2000)
    as (H & _); [cbn; lia|].
  exact H.
Defined.

End RateLimiterWindowFacts.

(** ** The rate limiter: back-off delays and the end of [execute] *)

Module RateLimiterRunFacts.
Import RateLimiter.



Lemma executeLoop_total {T} (cfg : RateLimitConfig) (fn : nat -> JsError + T)
    (random : nat -> Q) (maxRetries : Z) :
  1 <= requestsPerMinute cfg ->
  forall (remaining : nat) (attempt : Z) (lastError : option JsError) (r : Run T),
    0 <= currentConcurrent (final r) < maxConcurrent cfg ->
    let r' := executeLoop cfg fn random maxRetries remaining attempt lastError r in
    outcome r' <> Hangs
    /\ (invocations r <= invocations r' <= invocations r + remaining)%nat
    /\ currentConcurrent (final r') = currentConcurrent (final r)
    /\ (forall v, outcome r' = Returned v ->
          (invocations r < invocations r')%nat
          /\ fn (Nat.pred (invocations r')) = inr v)
    /\ (forall e, outcome r' = Threw e ->
          (invocations r' = invocations r /\ e = lastError)
          \/ ((invocations r < invocations r')%nat
              /\ exists e', e = Some e'
                            /\ fn (Nat.pred (invocations r')) = inl e')).
Proof.
  intros Hrpm remaining. induction remaining as [|remaining IH];
    intros attempt lastError r Hcc; cbn zeta.
  - cbn. split; [discriminate|]. split; [lia|]. split; [reflexivity|].
    split; [discriminate|]. intros e [= <-]. left. auto.
  - cbn [executeLoop].
    destruct (RateLimiterFacts.waitForSlot_returns cfg (final r) (finished r)
                Hcc Hrpm) as (st' & now' & Hw & Hrel).
    rewrite Hw.
    destruct (fn (invocations r)) as [error|result] eqn:Hfn.
    + assert (Hstep : forall r1,
                invocations r1 = S (invocations r) ->
                final r1 = releaseSlot st' ->
                let r' := executeLoop cfg fn random maxRetries remaining
                            (attempt + 1) (Some error) r1 in
                outcome r' <> Hangs
                /\ (invocations r <= invocations r'
                    <= invocations r + S remaining)%nat
                /\ currentConcurrent (final r') = currentConcurrent (final r)
                /\ (forall v, outcome r' = Returned v ->
                      (invocations r < invocations r')%nat
                      /\ fn (Nat.pred (invocations r')) = inr v)
                /\ (forall e, outcome r' = Threw e ->
                      (invocations r' = invocations r /\ e = lastError)
                      \/ ((invocations r < invocations r')%nat
                          /\ exists e', e = Some e'
                                        /\ fn (Nat.pred (invocations r')) = inl e'))).
      { intros r1 Hi Hf.
        destruct (IH (attempt + 1) (Some error) r1) as (H1 & H2 & H3 & H4 & H5).
        { rewrite Hf, Hrel. exact Hcc. }
        cbv zeta in *. rewrite Hi, Hf, Hrel in *.
        split; [exact H1|]. split; [lia|]. split; [exact H3|]. split.
        - intros v Hv. destruct (H4 v Hv). split; [lia | assumption].
        - intros e He. right. destruct (H5 e He) as [[Hsame ->]|[Hlt Hex]].
          + split; [lia|]. exists error. split; [reflexivity|].
            rewrite Hsame. exact Hfn.
          + split; [lia | exact Hex]. }
      destruct (attempt + 1 <? maxRetries); apply Hstep; reflexivity.
    + cbn [outcome invocations final Nat.pred]. rewrite Hrel.
      split; [discriminate|]. split; [lia|].
      split; [reflexivity|]. split.
      * intros v [= <-]. split; [lia | exact Hfn].
      * discriminate.
Qed.



End RateLimiterRunFacts.

(** ** The result cache: invalidation and the sweep of expired entries *)

Module CacheSweepFacts.
Import Types CacheManager Samples.

Lemma prefix_append (p s : string) : String.prefix p (p +:+ s) = true.
Proof.
  induction p as [|c p IH]; [now destruct s|].
  change (String c p +:+ s) with (String c (p +:+ s)). cbn [String.prefix].
  destruct (Ascii.ascii_dec c c); [exact IH | contradiction].
Qed.

Section Facts.
Variable sha256 : string -> string.
Variable toISOString : Z -> string.
Variable Stored : Type.
Variable JSON_stringify : CachedAnalysis -> Stored.
Variable JSON_parse : Stored -> option CachedAnalysis.
Variable order : list string -> list string.

Abbreviation Redis := (Redis Stored).
Abbreviation redis_get := (redis_get Stored).
Abbreviation redis_del := (redis_del Stored).
Abbreviation redis_keys := (redis_keys Stored order).
Abbreviation key := (generateCacheKey sha256 toISOString).
Abbreviation get := (get sha256 toISOString Stored JSON_parse).
Abbreviation set := (set sha256 toISOString Stored JSON_stringify).
Abbreviation invalidate := (invalidate sha256 Stored JSON_parse order).
Abbreviation clearExpired := (clearExpired Stored JSON_parse order).

(** The two loops over the keys have one shape; [test i parsed] stands for
    the condition under which the [i]-th entry read is deleted. *)
Fixpoint sweep (test : nat -> CachedAnalysis -> bool) (keys : list string)
    (r : Redis) (t : nat -> Z) (n i : nat) (deleted : Z) : option Z * Redis :=
  match keys with
  | [] => (Some deleted, r)
  | k :: rest =>
      match redis_get r k (t n) with
      | None => (None, r)
      | Some None => sweep test rest r t (S n) i deleted
      | Some (Some cached) =>
          match JSON_parse cached with
          | None => (None, r)
          | Some parsed =>
              if test i parsed then
                match redis_del r k with
                | None => (None, r)
                | Some r' => sweep test rest r' t (S (S n)) (S i) (deleted + 1)
                end
              else sweep test rest r t (S n) (S i) deleted
          end
      end
  end.

Lemma invalidateLoop_sweep (projectHash : string) (keys : list string) :
  forall r t n i deleted,
    invalidateLoop Stored JSON_parse projectHash keys r t n deleted
    = sweep (fun _ c => String.eqb (Types.projectHash c) projectHash)
        keys r t n i deleted.
Proof.
  induction keys as [|k keys IH]; intros r t n i deleted; cbn; [reflexivity|].
  destruct (redis_get r k (t n)) as [[cached|]|]; auto.
  destruct (JSON_parse cached) as [parsed|]; auto.
  destruct (String.eqb _ _); auto.
  destruct (redis_del r k); auto.
Qed.

Lemma clearExpiredLoop_sweep (clock : nat -> Z) (keys : list string) :
  forall r t n i deleted,
    clearExpiredLoop Stored JSON_parse keys r t n clock i deleted
    = sweep (fun i c => expiresAt c <? clock i) keys r t n i deleted.
Proof.
  induction keys as [|k keys IH]; intros r t n i deleted; cbn; [reflexivity|].
  destruct (redis_get r k (t n)) as [[cached|]|]; auto.
  destruct (JSON_parse cached) as [parsed|]; auto.
  destruct (expiresAt parsed <? clock i); auto.
  destruct (redis_del r k); auto.
Qed.

(** the entry of [k] can be read and parsed throughout the call *)
Definition readable (r : Redis) (t : nat -> Z) (k : string)
    (c : CachedAnalysis) : Prop :=
  exists v e, table r !! k = Some (v, e)
              /\ (forall m, (e <? t m) = false)
              /\ JSON_parse v = Some c.

(** A sweep over distinct keys whose entries can all be read: it deletes
    the keys in [removed], each of which passed the test at some point, and
    no other; the keys it leaves failed the test. *)
Lemma sweep_spec (test : nat -> CachedAnalysis -> bool) (t : nat -> Z)
    (keys : list string) :
  forall (r : Redis) (n i : nat) (deleted : Z),
    connected r = true ->
    NoDup keys ->
    (forall k, k ∈ keys -> exists c, readable r t k c) ->
    exists r' removed,
      sweep test keys r t n i deleted
      = (Some (deleted + Z.of_nat (List.length removed)), r')
      /\ connected r' = true
      /\ (forall k, table r' !! k
                    = if decide (k ∈ removed) then None else table r !! k)
      /\ NoDup removed
      /\ (forall k, k ∈ removed ->
            k ∈ keys
            /\ exists c j, readable r t k c /\ test j c = true)
      /\ (forall k, k ∈ keys -> k ∉ removed ->
            exists c j, readable r t k c /\ test j c = false)
      /\ (size (table r') + List.length removed)%nat = size (table r).
Proof.
  induction keys as [|k keys IH]; intros r n i deleted Hconn Hnd Hread.
  - exists r, []. cbn. rewrite Z.add_0_r. split; [reflexivity|].
    split; [exact Hconn|]. split; [reflexivity|]. split; [constructor|].
    split; [intros k H; inversion H|]. split; [intros k H; inversion H|]. lia.
  - inversion Hnd as [|? ? Hk Hnd']; subst.
    destruct (Hread k ltac:(left)) as (c & v & e & Hlk & Halive & Hparse).
    assert (Hrest : forall r1,
              (forall k', k' <> k -> table r1 !! k' = table r !! k') ->
              forall k', k' ∈ keys -> exists c', readable r1 t k' c').
    { intros r1 Hr1 k' Hin. destruct (Hread k' ltac:(now right)) as (c' & v' & e' & H1 & H2).
      exists c', v', e'. split; [|exact H2]. rewrite Hr1; [exact H1|].
      intros ->. contradiction. }
    cbn [sweep]. unfold CacheManager.redis_get at 1.
    rewrite Hconn, Hlk, Halive, Hparse.
    destruct (test i c) eqn:Htest.
    + unfold CacheManager.redis_del at 1. rewrite Hconn.
      cbn iota.
      set (r1 := {| table := delete k (table r); connected := true |}).
      destruct (IH r1 (S (S n)) (S i) (deleted + 1)) as
        (r' & removed & Hs & Hc' & Ht' & Hnd'' & Hrem & Hkept & Hsize).
      { reflexivity. }
      { exact Hnd'. }
      { apply Hrest. intros k' Hne. cbn. now apply lookup_delete_ne. }
      exists r', (k :: removed). rewrite Hs. cbn [List.length].
      split; [f_equal; f_equal; lia|]. split; [exact Hc'|].
      assert (Hkrem : k ∉ removed).
      { intros Hin. apply Hrem in Hin. destruct Hin as [Hin _]. contradiction. }
      split; [|split; [|split; [|split]]].
      * intros k'. rewrite Ht'. cbn [table r1].
        destruct (decide (k' ∈ removed)) as [Hin|Hnin].
        -- rewrite decide_True; [reflexivity | now right].
        -- destruct (decide (k' = k)) as [->|Hne].
           ++ rewrite lookup_delete_eq. rewrite decide_True; [reflexivity | left].
           ++ rewrite lookup_delete_ne by congruence.
              rewrite decide_False; [reflexivity|].
              intros Hin. apply elem_of_cons in Hin. destruct Hin; contradiction.
      * now constructor.
      * intros k' Hin. apply elem_of_cons in Hin. destruct Hin as [->|Hin].
        -- split; [left|]. exists c, i. split; [|exact Htest]. now exists v, e.
        -- destruct (Hrem k' Hin) as (Hin' & c' & j & (v' & e' & H1 & H2) & Hj).
           split; [now right|]. exists c', j. split; [|exact Hj].
           exists v', e'. split; [|exact H2].
           cbn in H1. rewrite lookup_delete_ne in H1; [exact H1|].
           intros <-. contradiction.
      * intros k' Hin Hnin. apply elem_of_cons in Hin.
        destruct Hin as [->|Hin]; [exfalso; apply Hnin; left|].
        destruct (Hkept k' Hin) as (c' & j & (v' & e' & H1 & H2) & Hj).
        { intros H. apply Hnin. now right. }
        exists c', j. split; [|exact Hj]. exists v', e'. split; [|exact H2].
        cbn in H1. rewrite lookup_delete_ne in H1; [exact H1|].
        intros <-. contradiction.
      * cbn [table r1] in Hsize.
        rewrite map_size_delete_Some in Hsize by (rewrite Hlk; eauto).
        assert (size (table r) <> 0%nat).
        { apply map_size_ne_0_lookup. exists k. rewrite Hlk. eauto. }
        lia.
    + destruct (IH r (S n) (S i) deleted Hconn Hnd') as
        (r' & removed & Hs & Hc' & Ht' & Hnd'' & Hrem & Hkept & Hsize).
      { apply Hrest. auto. }
      exists r', removed. rewrite Hs. split; [reflexivity|].
      split; [exact Hc'|]. split; [exact Ht'|]. split; [exact Hnd''|].
      split; [|split; [|exact Hsize]].
      * intros k' Hin. destruct (Hrem k' Hin) as [Hin' H]. split; [now right | exact H].
      * intros k' Hin Hnin. apply elem_of_cons in Hin. destruct Hin as [->|Hin].
        -- exists c, i. split; [|exact Htest]. now exists v, e.
        -- now apply Hkept.
Qed.

(** the entries that [KEYS analysis:*] lists at [t 0] *)
Definition listed (r : Redis) (t0 : Z) (k : string) : bool :=
  match table r !! k with
  | Some (_, expiry) => startsWith "analysis:" k && negb (expiry <? t0)
  | None => false
  end.

Lemma redis_keys_spec (r : Redis) (t0 : Z) :
  connected r = true ->
  (forall l, Permutation (order l) l) ->
  exists keys,
    redis_keys r "analysis:" t0 = Some keys
    /\ NoDup keys
    /\ forall k, k ∈ keys <-> listed r t0 k = true.
Proof.
  intros Hconn Hperm. unfold CacheManager.redis_keys. rewrite Hconn.
  eexists. split; [reflexivity|].
  set (f := fun entry : string * (Stored * Z) =>
              startsWith "analysis:" (fst entry) && negb (snd (snd entry) <? t0)).
  split.
  - rewrite (Hperm _). apply DebouncerFacts.NoDup_map_filter.
    apply (NoDup_fst_map_to_list (table r)).
  - intros k. rewrite (Hperm _), list_elem_of_In, in_map_iff. unfold listed.
    split.
    + intros ([k' [v e]] & <- & Hin). apply filter_In in Hin.
      destruct Hin as [Hin Hf]. apply list_elem_of_In, elem_of_map_to_list in Hin.
      cbn. rewrite Hin. exact Hf.
    + destruct (table r !! k) as [[v e]|] eqn:Hlk; [|discriminate].
      intros Hf. exists (k, (v, e)). split; [reflexivity|].
      apply filter_In. split; [|exact Hf].
      now apply list_elem_of_In, elem_of_map_to_list.
Qed.

(** What a call of [invalidate] or [clearExpired] does when the server is
    connected, every entry listed can be parsed and none of them expires
    while the call runs. *)
Lemma sweep_listed (test : nat -> CachedAnalysis -> bool) (r : Redis)
    (t : nat -> Z) :
  connected r = true ->
  (forall l, Permutation (order l) l) ->
  (forall k v e, table r !! k = Some (v, e) -> listed r (t O) k = true ->
                 JSON_parse v <> None) ->
  (forall k v e m, table r !! k = Some (v, e) -> (e <? t O) = false ->
                   (e <? t m) = false) ->
  exists keys r' removed,
    redis_keys r "analysis:" (t O) = Some keys
    /\ sweep test keys r t 1 0 0 = (Some (Z.of_nat (List.length removed)), r')
    /\ connected r' = true
    /\ (forall k, table r' !! k
                  = if decide (k ∈ removed) then None else table r !! k)
    /\ (forall k, k ∈ removed ->
          listed r (t O) k = true
          /\ exists v e c j, table r !! k = Some (v, e)
                             /\ JSON_parse v = Some c /\ test j c = true)
    /\ (forall k, listed r (t O) k = true -> k ∉ removed ->
          exists v e c j, table r !! k = Some (v, e)
                          /\ JSON_parse v = Some c /\ test j c = false)
    /\ (size (table r') + List.length removed)%nat = size (table r).
Proof.
  intros Hconn Hperm Hparse Hstable.
  destruct (redis_keys_spec r (t O) Hconn Hperm) as (keys & Hkeys & Hnd & Hin).
  destruct (sweep_spec test t keys r 1 0 0 Hconn Hnd) as
    (r' & removed & Hs & Hc' & Ht' & _ & Hrem & Hkept & Hsize).
  { intros k Hk. apply Hin in Hk. pose proof Hk as Hl. unfold listed in Hk.
    destruct (table r !! k) as [[v e]|] eqn:Hlk; [|discriminate].
    destruct (JSON_parse v) as [c|] eqn:Hp.
    - exists c, v, e. split; [exact Hlk|]. split; [|exact Hp].
      intros m. apply (Hstable k v e m Hlk).
      apply andb_true_iff in Hk. destruct Hk as [_ Hk].
      now apply negb_true_iff in Hk.
    - exfalso. now apply (Hparse k v e Hlk Hl). }
  exists keys, r', removed. split; [exact Hkeys|]. split; [exact Hs|].
  split; [exact Hc'|]. split; [exact Ht'|]. split; [|split; [|exact Hsize]].
  - intros k Hk. destruct (Hrem k Hk) as (Hk' & c & j & (v & e & H1 & _ & H2) & Hj).
    split; [now apply Hin|]. now exists v, e, c, j.
  - intros k Hk Hnin. apply Hin in Hk.
    destruct (Hkept k Hk Hnin) as (c & j & (v & e & H1 & _ & H2) & Hj).
    now exists v, e, c, j.
Qed.

Lemma invalidate_spec (cm : CacheManager Stored) (projectPath : string)
    (t : nat -> Z) :
  connected (client cm) = true ->
  (forall l, Permutation (order l) l) ->
  (forall k v e, table (client cm) !! k = Some (v, e) ->
                 startsWith "analysis:" k = true -> (e <? t O) = false ->
                 JSON_parse v <> None) ->
  (forall k v e m, table (client cm) !! k = Some (v, e) ->
                   (e <? t O) = false -> (e <? t m) = false) ->
  let after := invalidate cm projectPath t in
  (forall k,
     table (client (snd after)) !! k
     = match table (client cm) !! k with
       | Some (v, e) =>
           if startsWith "analysis:" k && negb (e <? t O)
              && match JSON_parse v with
                 | Some c => String.eqb (projectHash c) (sha256 projectPath)
                 | None => false
                 end
           then None else Some (v, e)
       | None => None
       end)
  /\ fst after
     = Z.of_nat (size (table (client cm)))
       - Z.of_nat (size (table (client (snd after))))
  /\ 0 <= fst after.
Proof.
  intros Hconn Hperm Hparse Hstable after.
  destruct (sweep_listed
              (fun _ c => String.eqb (projectHash c) (sha256 projectPath))
              (client cm) t Hconn Hperm) as
    (keys & r' & removed & Hkeys & Hs & _ & Ht' & Hrem & Hkept & Hsize).
  { intros k v e Hlk Hl. unfold listed in Hl. rewrite Hlk in Hl.
    apply andb_true_iff in Hl. destruct Hl as [Hp Ha].
    apply negb_true_iff in Ha. now apply (Hparse k v e). }
  { exact Hstable. }
  assert (Hafter : after = (Z.of_nat (List.length removed),
                            {| client := r'; ttl := ttl cm |})).
  { subst after. unfold CacheManager.invalidate. rewrite Hkeys.
    rewrite (invalidateLoop_sweep _ _ _ _ _ O), Hs. reflexivity. }
  rewrite Hafter. cbn [fst snd client].
  split; [|split; [lia | lia]].
  intros k. rewrite Ht'.
  destruct (decide (k ∈ removed)) as [Hin|Hnin].
  - destruct (Hrem k Hin) as (Hl & v & e & c & j & Hlk & Hp & Hj).
    unfold listed in Hl. rewrite Hlk in *. now rewrite Hl, Hp, Hj.
  - destruct (table (client cm) !! k) as [[v e]|] eqn:Hlk; [|reflexivity].
    destruct (startsWith "analysis:" k && negb (e <? t O)) eqn:Hl;
      [|reflexivity].
    destruct (Hkept k) as (v' & e' & c & j & Hlk' & Hp & Hj); [|exact Hnin|].
    + unfold listed. now rewrite Hlk.
    + rewrite Hlk in Hlk'. injection Hlk' as <- <-. now rewrite Hp, Hj.
Qed.

(** X11.  [invalidate(projectPath)], when the server is connected, every
    entry it lists for [analysis:*] can be parsed and none of them expires
    while the call runs: it deletes exactly the listed entries whose
    [projectHash] is the hash of [projectPath], leaves every other key of
    the server as it is, and returns the number of keys it deleted. *)
Theorem invalidate_removes_the_entries_of_the_project
    (cm : CacheManager Stored) (projectPath : string) (t : nat -> Z) :
  connected (client cm) = true ->
  (forall l, Permutation (order l) l) ->
  (forall k v e, table (client cm) !! k = Some (v, e) ->
                 startsWith "analysis:" k = true -> (e <? t O) = false ->
                 JSON_parse v <> None) ->
  (forall k v e m, table (client cm) !! k = Some (v, e) ->
                   (e <? t O) = false -> (e <? t m) = false) ->
  let after := invalidate cm projectPath t in
  (forall k,
     table (client (snd after)) !! k
     = match table (client cm) !! k with
       | Some (v, e) =>
           if startsWith "analysis:" k && negb (e <? t O)
              && match JSON_parse v with
                 | Some c => String.eqb (projectHash c) (sha256 projectPath)
                 | None => false
                 end
           then None else Some (v, e)
       | None => None
       end)
  /\ fst after
     = Z.of_nat (size (table (client cm)))
       - Z.of_nat (size (table (client (snd after))))
  /\ 0 <= fst after.
Proof. exact (invalidate_spec cm projectPath t). Qed.

Lemma key_is_listed (projectPath : string) (mtime : Z) :
  startsWith "analysis:" (key projectPath mtime) = true.
Proof. apply prefix_append. Qed.

(** X12.  An entry written by [set(path, mtime, result)] is not handed out
    by [get(path, mtime)] after [invalidate(path)], as long as the clock
    has not gone back, the server is connected, the entries it lists can be
    parsed and none of them expires while [invalidate] runs; and if the
    entry had not expired when [invalidate] listed the keys, [invalidate]
    returns at least 1. *)
Theorem invalidated_entry_is_not_served (cm : CacheManager Stored)
    (projectPath : string) (mtime : Z) (res : AnalysisResult)
    (tNow tSet : Z) (t : nat -> Z) (tGet tCheck : Z) :
  let stored := snd (set cm projectPath mtime res tNow tSet) in
  (forall c, JSON_parse (JSON_stringify c) = Some c) ->
  connected (client cm) = true ->
  (inject_Z (Qfloor (ttl cm)) == ttl cm)%Q ->
  0 < Qfloor (ttl cm) ->
  (forall l, Permutation (order l) l) ->
  (forall k v e, table (client stored) !! k = Some (v, e) ->
                 startsWith "analysis:" k = true -> (e <? t O) = false ->
                 JSON_parse v <> None) ->
  (forall k v e m, table (client stored) !! k = Some (v, e) ->
                   (e <? t O) = false -> (e <? t m) = false) ->
  t O <= tGet ->
  let after := invalidate stored projectPath t in
  fst (get (snd after) projectPath mtime tGet tCheck) = None
  /\ (t O <= tSet + Qfloor (ttl cm) * 1000 -> 1 <= fst after).
Proof.
  intros stored Hjson Hconn Hint Hpos Hperm Hparse Hstable Hlate after.
  assert (Hstored :
    stored
    = {| client :=
           {| table :=
                <[key projectPath mtime :=
                    (JSON_stringify
                       {| result := res; projectHash := sha256 projectPath;
                          lastModified := mtime; createdAt := tNow;
                          expiresAt := tNow + Qfloor (ttl cm) * 1000 |},
                     tSet + Qfloor (ttl cm) * 1000)]> (table (client cm));
              connected := true |};
         ttl := ttl cm |}).
  { subst stored. unfold CacheManager.set, redis_setex. rewrite Hconn.
    replace (Qeq_bool (inject_Z (Qfloor (ttl cm))) (ttl cm)) with true
      by (symmetry; now apply Qeq_bool_iff).
    replace (0 <? Qfloor (ttl cm)) with true by (symmetry; now apply Z.ltb_lt).
    cbn [andb fst snd].
    now rewrite CacheManagerFacts.expiresAt_seconds by exact Hint. }
  assert (Hconn1 : connected (client stored) = true) by now rewrite Hstored.
  destruct (invalidate_spec stored projectPath t Hconn1 Hperm Hparse Hstable)
    as (Hlk & Hcount & Hnonneg).
  fold after in Hlk, Hcount, Hnonneg.
  assert (Hc2 : connected (client (snd after)) = true).
  { subst after. unfold CacheManager.invalidate.
    destruct (CacheManager.redis_keys _ _ _ _ _) as [keys|] eqn:Hk;
      [|exact Hconn1].
    destruct (sweep_listed
                (fun _ c => String.eqb (projectHash c) (sha256 projectPath))
                (client stored) t Hconn1 Hperm) as
      (keys' & r' & removed & Hkeys & Hs & Hc' & _).
    { intros k v e H1 H2. unfold listed in H2. rewrite H1 in H2.
      apply andb_true_iff in H2. destruct H2 as [Hp Ha].
      apply negb_true_iff in Ha. now apply (Hparse k v e). }
    { exact Hstable. }
    rewrite Hkeys in Hk. injection Hk as <-.
    rewrite (invalidateLoop_sweep _ _ _ _ _ O), Hs. exact Hc'. }
  specialize (Hlk (key projectPath mtime)).
  assert (Hst : table (client stored) !! key projectPath mtime
                = Some (JSON_stringify
                          {| result := res; projectHash := sha256 projectPath;
                             lastModified := mtime; createdAt := tNow;
                             expiresAt := tNow + Qfloor (ttl cm) * 1000 |},
                        tSet + Qfloor (ttl cm) * 1000)).
  { rewrite Hstored. cbn [client table]. apply lookup_insert_eq. }
  rewrite Hst, key_is_listed, Hjson in Hlk.
  cbn [projectHash andb] in Hlk. rewrite String.eqb_refl, andb_true_r in Hlk.
  split.
  - unfold CacheManager.get, CacheManager.redis_get. rewrite Hc2, Hlk.
    destruct (tSet + Qfloor (ttl cm) * 1000 <? t O) eqn:E; cbn [negb].
    + replace (tSet + Qfloor (ttl cm) * 1000 <? tGet) with true; [reflexivity|].
      symmetry. apply Z.ltb_lt. apply Z.ltb_lt in E. lia.
    + reflexivity.
  - intros Hlive.
    replace (tSet + Qfloor (ttl cm) * 1000 <? t O) with false in Hlk
      by (symmetry; apply Z.ltb_ge; lia).
    cbn [negb] in Hlk.
    assert (size (table (client (snd after))) <> size (table (client stored))).
    { intros Heq.
      assert (Hsub : table (client (snd after)) ⊆ table (client stored)).
      { apply map_subseteq_spec. intros k x Hx.
        destruct (invalidate_spec stored projectPath t Hconn1 Hperm Hparse
                    Hstable) as (Hlk' & _).
        fold after in Hlk'. rewrite Hlk' in Hx.
        destruct (table (client stored) !! k) as [[v e]|]; [|discriminate].
        destruct (_ && _); [discriminate | exact Hx]. }
      pose proof (map_subseteq_size_eq _ _ Hsub ltac:(lia)) as Heqm.
      rewrite Heqm, Hst in Hlk. discriminate. }
    assert (size (table (client (snd after))) <= size (table (client stored)))%nat.
    { apply map_subseteq_size. apply map_subseteq_spec. intros k x Hx.
      destruct (invalidate_spec stored projectPath t Hconn1 Hperm Hparse
                  Hstable) as (Hlk' & _).
      fold after in Hlk'. rewrite Hlk' in Hx.
      destruct (table (client stored) !! k) as [[v e]|]; [|discriminate].
      destruct (_ && _); [discriminate | exact Hx]. }
    lia.
Qed.

(** X13.  [clearExpired()], when the server is connected, every entry it
    lists for [analysis:*] can be parsed, none of them expires on the server
    while the call runs and the clock stays between [lo] and [hi] during
    the call: every listed entry whose [expiresAt] is before [lo] is
    deleted, every listed entry whose [expiresAt] is not before [hi] is
    kept, as is every key that was not listed, and the number returned is
    the number of keys deleted. *)
Theorem clearExpired_removes_what_has_expired (cm : CacheManager Stored)
    (t clock : nat -> Z) (lo hi : Z) :
  connected (client cm) = true ->
  (forall l, Permutation (order l) l) ->
  (forall k v e, table (client cm) !! k = Some (v, e) ->
                 startsWith "analysis:" k = true -> (e <? t O) = false ->
                 JSON_parse v <> None) ->
  (forall k v e m, table (client cm) !! k = Some (v, e) ->
                   (e <? t O) = false -> (e <? t m) = false) ->
  (forall i, lo <= clock i <= hi) ->
  let after := clearExpired cm t clock in
  (forall k v e c,
     table (client cm) !! k = Some (v, e) ->
     startsWith "analysis:" k = true -> (e <? t O) = false ->
     JSON_parse v = Some c ->
     (expiresAt c < lo -> table (client (snd after)) !! k = None)
     /\ (hi <= expiresAt c -> table (client (snd after)) !! k = Some (v, e)))
  /\ (forall k v e,
        table (client cm) !! k = Some (v, e) ->
        startsWith "analysis:" k && negb (e <? t O) = false ->
        table (client (snd after)) !! k = Some (v, e))
  /\ (forall k, table (client cm) !! k = None ->
                table (client (snd after)) !! k = None)
  /\ fst after
     = Z.of_nat (size (table (client cm)))
       - Z.of_nat (size (table (client (snd after))))
  /\ 0 <= fst after.
Proof.
  intros Hconn Hperm Hparse Hstable Hclock after.
  destruct (sweep_listed (fun i c => expiresAt c <? clock i)
              (client cm) t Hconn Hperm) as
    (keys & r' & removed & Hkeys & Hs & _ & Ht' & Hrem & Hkept & Hsize).
  { intros k v e Hlk Hl. unfold listed in Hl. rewrite Hlk in Hl.
    apply andb_true_iff in Hl. destruct Hl as [Hp Ha].
    apply negb_true_iff in Ha. now apply (Hparse k v e). }
  { exact Hstable. }
  assert (Hafter : after = (Z.of_nat (List.length removed),
                            {| client := r'; ttl := ttl cm |})).
  { subst after. unfold CacheManager.clearExpired. rewrite Hkeys.
    rewrite clearExpiredLoop_sweep, Hs. reflexivity. }
  rewrite Hafter. cbn [fst snd client].
  split; [|split; [|split; [|split; lia]]].
  - intros k v e c Hlk Hp Ha Hc. split.
    + intros Hexp. rewrite Ht'.
      destruct (decide (k ∈ removed)) as [|Hnin]; [reflexivity|]. exfalso.
      destruct (Hkept k) as (v' & e' & c' & j & Hlk' & Hp' & Hj); [|exact Hnin|].
      * unfold listed. now rewrite Hlk, Hp, Ha.
      * rewrite Hlk in Hlk'. injection Hlk' as <- <-.
        rewrite Hc in Hp'. injection Hp' as <-.
        apply Z.ltb_ge in Hj. specialize (Hclock j). lia.
    + intros Hexp. rewrite Ht'.
      destruct (decide (k ∈ removed)) as [Hin|]; [|exact Hlk]. exfalso.
      destruct (Hrem k Hin) as (_ & v' & e' & c' & j & Hlk' & Hp' & Hj).
      rewrite Hlk in Hlk'. injection Hlk' as <- <-.
      rewrite Hc in Hp'. injection Hp' as <-.
      apply Z.ltb_lt in Hj. specialize (Hclock j). lia.
  - intros k v e Hlk Hl. rewrite Ht'.
    destruct (decide (k ∈ removed)) as [Hin|]; [|exact Hlk]. exfalso.
    destruct (Hrem k Hin) as (Hl' & _). unfold listed in Hl'.
    rewrite Hlk in Hl'. congruence.
  - intros k Hlk. rewrite Ht'. now destruct (decide (k ∈ removed)).
Qed.

End Facts.

(** the cache after the result of the sample project was stored at time 0,
    with a TTL of one second *)
Definition demoStored : CacheManager.CacheManager CachedAnalysis :=
  snd (CacheManager.set (fun s => s) (fun _ => "1970-01-01T00:00:00.000Z")
         CachedAnalysis (fun c => c) plainCache "/projects/demo" 0 someResult
         0 1).

(** X11 at that cache, 500 ms later. *)
Lemma invalidate_removes_the_entries_of_the_project_witness :
  let after := CacheManager.invalidate (fun s => s) CachedAnalysis Some
                 (fun l => l) demoStored "/projects/demo" (fun _ => 500) in
  fst after
  = Z.of_nat (size (table (client demoStored)))
    - Z.of_nat (size (table (client (snd after)))).
Proof.
  destruct (invalidate_removes_the_entries_of_the_project (fun s => s)
              CachedAnalysis Some (fun l => l) demoStored "/projects/demo"
              (fun _ => 500)) as (_ & H & _).
  - reflexivity.
  - reflexivity.
  - discriminate.
  - auto.
  - exact H.
Defined.

(** X12 at the empty cache. *)
Lemma invalidated_entry_is_not_served_witness :
  fst (CacheManager.get (fun s => s) (fun _ => "1970-01-01T00:00:00.000Z")
         CachedAnalysis Some
         (snd (CacheManager.invalidate (fun s => s) CachedAnalysis Some
                 (fun l => l) demoStored "/projects/demo" (fun _ => 500)))
         "/projects/demo" 0 600 600)
  = None.
Proof.
  destruct (invalidated_entry_is_not_served (fun s => s)
              (fun _ => "1970-01-01T00:00:00.000Z") CachedAnalysis
              (fun c => c) Some (fun l => l) plainCache "/projects/demo" 0
              someResult 0 1 (fun _ => 500) 600 600) as (H & _).
  - reflexivity.
  - reflexivity.
  - reflexivity.
  - reflexivity.
  - reflexivity.
  - discriminate.
  - auto.
  - lia.
  - exact H.
Defined.

(** X13 at that cache, two seconds later by the clock of the worker. *)
Lemma clearExpired_removes_what_has_expired_witness :
  let after := CacheManager.clearExpired CachedAnalysis Some (fun l => l)
                 demoStored (fun _ => 500) (fun _ => 2000) in
  fst after
  = Z.of_nat (size (table (client demoStored)))
    - Z.of_nat (size (table (client (snd after)))).
Proof.
  destruct (clearExpired_removes_what_has_expired CachedAnalysis Some
              (fun l => l) demoStored (fun _ => 500) (fun _ => 2000) 2000 2000)
    as (_ & _ & _ & H & _).
  - reflexivity.
  - reflexivity.
  - discriminate.
  - auto.
  - lia.
  - exact H.
Defined.

End CacheSweepFacts.

(** ** The worker: what a job leaves behind *)

Module WorkerOutcomeFacts.
Import Types WorkerProcessor WorkerProcessorFacts.

(** the terminal events among the events of a job *)
Definition terminal (k : Kind) : bool :=
  match k with Completed | Failed => true | _ => false end.

Section Facts.
Variable sha256 : string -> string.
Variable toISOString : Z -> string.
Variable Stored : Type.
Variable JSON_stringify : CachedAnalysis -> Stored.
Variable JSON_parse : Stored -> option CachedAnalysis.

Abbreviation World := (World Stored).
Abbreviation processJob :=
  (processJob sha256 toISOString Stored JSON_stringify JSON_parse).
Abbreviation bus := (bus Stored).
Abbreviation db := (db Stored).
Abbreviation cache := (cache Stored).
Abbreviation clock := (clock Stored).
Abbreviation stats := (stats Stored).
Abbreviation statCalls := (statCalls Stored).
Abbreviation progressCalls := (progressCalls Stored).
Abbreviation dbCalls := (dbCalls Stored).
Abbreviation jobProgress := (jobProgress Stored).


(** X15.  A job whose project path does not name a directory that
    [fs.stat] can see is rejected before the cache or the database are
    touched: both are as before the job and no cache hit or miss is
    counted; and if the job store accepts the progress updates, the error
    thrown says that the path does not exist (code ENOENT), that permission
    was denied (code EACCES) or that the path is not a directory, or else is
    the error of [fs.stat] itself, and [analysis:failed] carries its
    message. *)
Theorem a_job_for_a_bad_path_touches_nothing (env : Env) (job : AnalysisJobData)
    (w : World) :
  (forall mtime, fs_stat env (statCalls w) <> StatOk true mtime) ->
  let r := processJob env job w in
  db (snd r) = db w /\ cache (snd r) = cache w
  /\ cacheHits (stats (snd r)) = cacheHits (stats w)
  /\ cacheMisses (stats (snd r)) = cacheMisses (stats w)
  /\ exists error,
       fst r = inl error
       /\ (updateProgress_rejects env (progressCalls w) = None ->
           updateProgress_rejects env (S (progressCalls w)) = None ->
           error
           = match fs_stat env (statCalls w) with
             | StatOk _ _ =>
                 newError ("Path is not a directory: " +:+ job_projectPath job)
             | StatError e =>
                 match code e with
                 | Some c =>
                     if String.eqb c "ENOENT" then
                       newError ("Project path does not exist: "
                                 +:+ job_projectPath job)
                     else if String.eqb c "EACCES" then
                       newError ("Permission denied accessing: "
                                 +:+ job_projectPath job)
                     else e
                 | None => e
                 end
             end
           /\ In {| ev_type := analysis_failed;
                    ev_projectId := job_projectId job;
                    ev_data := FailedData (message error);
                    ev_timestamp := clock w |} (bus (snd r))).
Proof.
  intros Hbad. cbv zeta.
  destruct (processJob env job w) as [res w'] eqn:E.
  destruct w as [d c b jp s clk ns np nd].
  cbn [WorkerProcessor.statCalls WorkerProcessor.progressCalls
       WorkerProcessor.db WorkerProcessor.cache WorkerProcessor.stats
       WorkerProcessor.clock] in *.
  exec_unfold_in E.
  repeat (exec_step_in E; exec_unfold_in E;
          try (exfalso; exact (Hbad _ eq_refl));
          try match goal with
              | H : code (newError _) = Some _ |- _ => discriminate H
              end).
  all: injection E as <- <-.
  all: cbn [fst snd WorkerProcessor.db WorkerProcessor.cache
            WorkerProcessor.stats WorkerProcessor.bus cacheHits cacheMisses].
  all: do 4 (split; [reflexivity|]).
  all: eexists; (split; [reflexivity|]).
  all: intros H1 H2; try congruence.
  all: split; [reflexivity|].
  all: rewrite ?in_app_iff; cbn [In]; tauto.
Qed.

(** the progress percentages that a job stores on its way to completion *)
Definition stages (forceRefresh : bool) : list Z :=
  if forceRefresh then [0; 20; 50; 80; 90; 100]
  else [0; 10; 20; 50; 80; 90; 100].

Definition forced (job : AnalysisJobData) : bool :=
  match job_forceRefresh job with Some b => b | None => false end.

(** What a job does when every collaborator answers and the cache holds
    nothing for it, or is not asked. *)
Lemma fresh_run (env : Env) (job : AnalysisJobData) (w : World)
    (mtime0 : Z) (isDir : bool) (mtime : Z) (context : ProjectContext)
    (res : AnalysisResult) (row : Project) :
  (forall k, updateProgress_rejects env k = None) ->
  (forall k, database_rejects env k = None) ->
  fs_stat env (statCalls w) = StatOk true mtime0 ->
  fs_stat env (S (statCalls w)) = StatOk isDir mtime ->
  (forced job = true
   \/ fst (CacheManager.get sha256 toISOString Stored JSON_parse (cache w)
             (job_projectPath job) mtime (clock w) (clock w)) = None) ->
  extractContext env = inr context ->
  analyzeProject env = inr res ->
  projects (db w) !! job_projectId job = Some row ->
  projectId res = job_projectId job ->
  let r := processJob env job w in
  let finish := clock w + extractTime env + analyzeTime env in
  let asked :=
    if forced job then cache w
    else snd (CacheManager.get sha256 toISOString Stored JSON_parse (cache w)
                (job_projectPath job) mtime (clock w) (clock w)) in
  fst r = inr tt
  /\ analyses (db (snd r)) = analyses (db w) ++ [analysisRow res finish]
  /\ projects (db (snd r))
     = <[job_projectId job := markAnalyzed finish (setContextMetadata context row)]>
         (projects (db w))
  /\ cache (snd r)
     = snd (CacheManager.set sha256 toISOString Stored JSON_stringify asked
              (job_projectPath job) mtime res finish finish)
  /\ (exists ps, jobProgress (snd r) = jobProgress w ++ ps
                 /\ map jp_progress ps = stages (forced job))
  /\ totalTokensUsed (stats (snd r))
     = totalTokensUsed (stats w) + tokensUsed (metadata res)
  /\ clock (snd r) = finish.
Proof.
  intros Hprog Hdb Hstat0 Hstat1 Hmiss Hctx Hres Hrow Hpid. cbv zeta.
  destruct (processJob env job w) as [out w'] eqn:E.
  destruct w as [d c b jp s clk ns np nd].
  cbn [WorkerProcessor.statCalls WorkerProcessor.progressCalls
       WorkerProcessor.db WorkerProcessor.cache WorkerProcessor.stats
       WorkerProcessor.clock WorkerProcessor.jobProgress] in *.
  unfold forced in *.
  exec_unfold_in E. unfold projectAnalysis_create, project_update in E.
  cbn [projects analyses] in E.
  rewrite ?Hprog, ?Hdb, ?Hstat0, ?Hstat1, ?Hctx, ?Hres in E.
  repeat (exec_step_in E; exec_unfold_in E;
          rewrite ?Hprog, ?Hdb, ?Hstat0, ?Hstat1, ?Hctx, ?Hres in E;
          cbn [projects analyses] in E; try congruence).
  all: repeat match goal with
       | H : CacheManager.get _ _ _ _ _ _ _ _ _ = _ |- _ =>
           rewrite H in *; cbn [fst snd] in *
       | H : CacheManager.set _ _ _ _ _ _ _ _ _ _ = _ |- _ =>
           rewrite H in *; cbn [fst snd] in *
       end.
  all: try (destruct Hmiss; discriminate).
  all: cbn [pa_projectId analysisRow] in *.
  all: rewrite ?Hpid in *.
  all: repeat match goal with
       | H : context [<[?k := _]> _ !! ?k] |- _ => rewrite lookup_insert_eq in H
       end.
  all: try congruence.
  all: injection E as <- <-.
  all: cbn [fst snd WorkerProcessor.db WorkerProcessor.cache
            WorkerProcessor.stats WorkerProcessor.jobProgress
            WorkerProcessor.clock projects analyses totalTokensUsed].
  all: repeat match goal with
       | H : Some _ = Some _ |- _ => injection H as <-
       end.
  all: rewrite ?Z.add_assoc.
  all: repeat match goal with
       | H : ?x = (_, _) |- context [?x] => rewrite H
       end; cbn [fst snd].
  all: split; [reflexivity|].
  all: split; [reflexivity|].
  all: split; [now rewrite insert_insert_eq|].
  all: split; [reflexivity|].
  all: split; [eexists; split; [rewrite <- ?app_assoc; reflexivity | reflexivity]|].
  all: split; reflexivity.
Qed.

(** X16.  A job for an existing project directory completes whatever the
    state of the result cache, as long as the cache does not answer with an
    entry or is not asked ([forceRefresh]), the job store and the database
    accept every call, and the extraction and the analysis succeed: it
    resolves; the project row gets the file count, the lines of code and
    the size of the extracted context, status ANALYZED and the time of the
    write; one analysis row built from the result is appended; the progress
    stored on the job runs through 0, (10,) 20, 50, 80, 90, 100; and the
    tokens of the analysis are added to [totalTokensUsed]. *)
Theorem a_fresh_analysis_is_stored_whatever_the_cache (env : Env)
    (job : AnalysisJobData) (w : World) (mtime0 : Z) (isDir : bool) (mtime : Z)
    (context : ProjectContext) (res : AnalysisResult) (row : Project) :
  (forall k, updateProgress_rejects env k = None) ->
  (forall k, database_rejects env k = None) ->
  fs_stat env (statCalls w) = StatOk true mtime0 ->
  fs_stat env (S (statCalls w)) = StatOk isDir mtime ->
  (job_forceRefresh job = Some true
   \/ fst (CacheManager.get sha256 toISOString Stored JSON_parse (cache w)
             (job_projectPath job) mtime (clock w) (clock w)) = None) ->
  extractContext env = inr context ->
  analyzeProject env = inr res ->
  projects (db w) !! job_projectId job = Some row ->
  projectId res = job_projectId job ->
  let r := processJob env job w in
  let finish := clock w + extractTime env + analyzeTime env in
  fst r = inr tt
  /\ analyses (db (snd r)) = analyses (db w) ++ [analysisRow res finish]
  /\ projects (db (snd r))
     = <[job_projectId job := markAnalyzed finish (setContextMetadata context row)]>
         (projects (db w))
  /\ (exists ps,
        jobProgress (snd r) = jobProgress w ++ ps
        /\ map jp_progress ps
           = if match job_forceRefresh job with Some b => b | None => false end
             then [0; 20; 50; 80; 90; 100]
             else [0; 10; 20; 50; 80; 90; 100])
  /\ totalTokensUsed (stats (snd r))
     = totalTokensUsed (stats w) + tokensUsed (metadata res).
Proof.
  intros Hprog Hdb Hstat0 Hstat1 Hmiss Hctx Hres Hrow Hpid.
  assert (Hmiss' :
    forced job = true
    \/ fst (CacheManager.get sha256 toISOString Stored JSON_parse (cache w)
              (job_projectPath job) mtime (clock w) (clock w)) = None).
  { destruct Hmiss as [H|H]; [left; unfold forced; now rewrite H | now right]. }
  destruct (fresh_run env job w mtime0 isDir mtime context res row Hprog Hdb
              Hstat0 Hstat1 Hmiss' Hctx Hres Hrow Hpid)
    as (H1 & H2 & H3 & _ & H5 & H6 & _).
  cbv zeta. repeat split; assumption.
Qed.

Lemma get_keeps_connection (cm : CacheManager.CacheManager Stored)
    (projectPath : string) (lastModified tGet tNow : Z) :
  let cm' := snd (CacheManager.get sha256 toISOString Stored JSON_parse cm
                    projectPath lastModified tGet tNow) in
  CacheManager.connected (CacheManager.client cm')
  = CacheManager.connected (CacheManager.client cm)
  /\ CacheManager.ttl cm' = CacheManager.ttl cm.
Proof.
  unfold CacheManager.get, CacheManager.redis_get, CacheManager.redis_del.
  destruct (CacheManager.connected (CacheManager.client cm)) eqn:Hc;
    [|cbn; auto].
  destruct (CacheManager.table (CacheManager.client cm) !! _) as [[v e]|];
    [|cbn; auto].
  destruct (e <? tGet); [cbn; auto|].
  destruct (JSON_parse v) as [parsed|]; [|cbn; auto].
  destruct (expiresAt parsed <? tNow); cbn; auto.
Qed.

(** What is written is read back, while the server holds the key and the
    clock has not passed [expiresAt]. *)
Lemma set_then_get (cm : CacheManager.CacheManager Stored)
    (projectPath : string) (mtime : Z) (res : AnalysisResult)
    (tNow tSet tGet tCheck : Z) :
  (forall c, JSON_parse (JSON_stringify c) = Some c) ->
  CacheManager.connected (CacheManager.client cm) = true ->
  (inject_Z (Qfloor (CacheManager.ttl cm)) == CacheManager.ttl cm)%Q ->
  0 < Qfloor (CacheManager.ttl cm) ->
  tGet <= tSet + Qfloor (CacheManager.ttl cm) * 1000 ->
  tCheck <= tNow + Qfloor (CacheManager.ttl cm) * 1000 ->
  fst (CacheManager.get sha256 toISOString Stored JSON_parse
         (snd (CacheManager.set sha256 toISOString Stored JSON_stringify cm
                 projectPath mtime res tNow tSet))
         projectPath mtime tGet tCheck)
  = Some {| result := res; projectHash := sha256 projectPath;
            lastModified := mtime; createdAt := tNow;
            expiresAt := tNow + Qfloor (CacheManager.ttl cm) * 1000 |}.
Proof.
  intros Hjson Hconn Hint Hpos Hget Hcheck.
  unfold CacheManager.set, CacheManager.redis_setex. rewrite Hconn.
  replace (Qeq_bool (inject_Z (Qfloor (CacheManager.ttl cm))) (CacheManager.ttl cm))
    with true by (symmetry; now apply Qeq_bool_iff).
  replace (0 <? Qfloor (CacheManager.ttl cm)) with true
    by (symmetry; now apply Z.ltb_lt).
  cbn [andb fst snd]. rewrite CacheManagerFacts.expiresAt_seconds by exact Hint.
  unfold CacheManager.get, CacheManager.redis_get.
  cbn [CacheManager.client CacheManager.connected CacheManager.table].
  rewrite lookup_insert_eq.
  replace (tSet + Qfloor (CacheManager.ttl cm) * 1000 <? tGet) with false
    by (symmetry; apply Z.ltb_ge; lia).
  rewrite Hjson. cbn [expiresAt].
  replace (tNow + Qfloor (CacheManager.ttl cm) * 1000 <? tCheck) with false
    by (symmetry; apply Z.ltb_ge; lia).
  reflexivity.
Qed.

(** X17.  After a job that analyzed its project afresh, the result cache
    hands out the result of that job for the path and modification time of
    the project, for as long as its time to live lasts: provided the server
    of the cache is connected, the TTL is a positive whole number of seconds
    and [JSON.parse] reads back what [JSON.stringify] wrote.  So the next
    job for the unchanged project is served from the cache. *)
Theorem a_fresh_result_is_cached_for_the_next_job (env : Env)
    (job : AnalysisJobData) (w : World) (mtime0 : Z) (isDir : bool) (mtime : Z)
    (context : ProjectContext) (res : AnalysisResult) (row : Project)
    (tGet tCheck : Z) :
  (forall k, updateProgress_rejects env k = None) ->
  (forall k, database_rejects env k = None) ->
  fs_stat env (statCalls w) = StatOk true mtime0 ->
  fs_stat env (S (statCalls w)) = StatOk isDir mtime ->
  (job_forceRefresh job = Some true
   \/ fst (CacheManager.get sha256 toISOString Stored JSON_parse (cache w)
             (job_projectPath job) mtime (clock w) (clock w)) = None) ->
  extractContext env = inr context ->
  analyzeProject env = inr res ->
  projects (db w) !! job_projectId job = Some row ->
  projectId res = job_projectId job ->
  (forall c, JSON_parse (JSON_stringify c) = Some c) ->
  CacheManager.connected (CacheManager.client (cache w)) = true ->
  (inject_Z (Qfloor (CacheManager.ttl (cache w))) == CacheManager.ttl (cache w))%Q ->
  0 < Qfloor (CacheManager.ttl (cache w)) ->
  let r := processJob env job w in
  let expires := clock (snd r) + Qfloor (CacheManager.ttl (cache w)) * 1000 in
  tGet <= expires -> tCheck <= expires ->
  exists entry,
    fst (CacheManager.get sha256 toISOString Stored JSON_parse (cache (snd r))
           (job_projectPath job) mtime tGet tCheck) = Some entry
    /\ result entry = res
    /\ lastModified entry = mtime
    /\ expiresAt entry = expires.
Proof.
  intros Hprog Hdb Hstat0 Hstat1 Hmiss Hctx Hres Hrow Hpid Hjson Hconn Hint Hpos.
  assert (Hmiss' :
    forced job = true
    \/ fst (CacheManager.get sha256 toISOString Stored JSON_parse (cache w)
              (job_projectPath job) mtime (clock w) (clock w)) = None).
  { destruct Hmiss as [H|H]; [left; unfold forced; now rewrite H | now right]. }
  destruct (fresh_run env job w mtime0 isDir mtime context res row Hprog Hdb
              Hstat0 Hstat1 Hmiss' Hctx Hres Hrow Hpid)
    as (_ & _ & _ & H4 & _ & _ & H7).
  cbv zeta in *. intros Hget Hcheck. rewrite H7 in Hget, Hcheck. rewrite H4, H7.
  set (asked := if forced job then cache w else _) in *.
  assert (Hasked :
    CacheManager.connected (CacheManager.client asked) = true
    /\ CacheManager.ttl asked = CacheManager.ttl (cache w)).
  { subst asked. destruct (forced job); [split; [exact Hconn | reflexivity]|].
    destruct (get_keeps_connection (cache w) (job_projectPath job) mtime
                (clock w) (clock w)) as [H1 H2].
    cbv zeta in *. rewrite H1, H2. split; [exact Hconn | reflexivity]. }
  destruct Hasked as [Hc Ht].
  eexists. split.
  - apply set_then_get; rewrite ?Ht; assumption.
  - rewrite Ht. repeat split; reflexivity.
Qed.

(** a project row after a job keeps what the job has no business with *)
Definition kept (row row' : Project) : Prop :=
  id row' = id row /\ name row' = name row /\ path row' = path row
  /\ isActive row' = isActive row
  /\ (status row' = status row \/ status row' = ANALYZED).

Definition evolved (m m' : gmap string Project) : Prop :=
  (forall pid, m' !! pid = None <-> m !! pid = None)
  /\ forall pid row row',
       m !! pid = Some row -> m' !! pid = Some row' -> kept row row'.

Lemma evolved_refl (m : gmap string Project) : evolved m m.
Proof.
  split; [tauto|]. intros pid row row' H1 H2. rewrite H1 in H2.
  injection H2 as <-. unfold kept. tauto.
Qed.

Lemma evolved_update (m m' : gmap string Project) (pid : string)
    (row : Project) (change : Project -> Project) :
  evolved m m' -> m' !! pid = Some row ->
  (forall row0, kept row0 row -> kept row0 (change row)) ->
  evolved m (<[pid := change row]> m').
Proof.
  intros [Hdom Hrows] Hrow Hchange. split.
  - intros pid'. destruct (decide (pid = pid')) as [<-|Hne].
    + rewrite lookup_insert_eq. split; [discriminate|].
      intros H. apply Hdom in H. congruence.
    + rewrite lookup_insert_ne by exact Hne. apply Hdom.
  - intros pid' row0 row' H0 H'. destruct (decide (pid = pid')) as [<-|Hne].
    + rewrite lookup_insert_eq in H'. injection H' as <-.
      apply Hchange. now apply (Hrows pid).
    + rewrite lookup_insert_ne in H' by exact Hne. now apply (Hrows pid').
Qed.

Lemma evolved_metadata (m m' : gmap string Project) (pid : string)
    (row : Project) (context : ProjectContext) :
  evolved m m' -> m' !! pid = Some row ->
  evolved m (<[pid := setContextMetadata context row]> m').
Proof.
  intros He Hrow. apply (evolved_update m m' pid row _ He Hrow).
  unfold kept. cbn. tauto.
Qed.

Lemma evolved_analyzed (m m' : gmap string Project) (pid : string)
    (row : Project) (now : Z) :
  evolved m m' -> m' !! pid = Some row ->
  evolved m (<[pid := markAnalyzed now row]> m').
Proof.
  intros He Hrow. apply (evolved_update m m' pid row _ He Hrow).
  unfold kept. cbn. tauto.
Qed.

(** X18.  Whatever the collaborators answer, [processJob] creates and
    deletes no project row, changes neither [id], [name], [path] nor
    [isActive] of any row, sets no status other than ANALYZED, and appends
    at most one analysis row, leaving the earlier ones as they are. *)
Theorem a_job_only_marks_projects_analyzed (env : Env) (job : AnalysisJobData)
    (w : World) :
  let r := processJob env job w in
  (forall pid,
     projects (db (snd r)) !! pid = None <-> projects (db w) !! pid = None)
  /\ (forall pid row row',
        projects (db w) !! pid = Some row ->
        projects (db (snd r)) !! pid = Some row' ->
        id row' = id row /\ name row' = name row /\ path row' = path row
        /\ isActive row' = isActive row
        /\ (status row' = status row \/ status row' = ANALYZED))
  /\ exists added,
       analyses (db (snd r)) = analyses (db w) ++ added
       /\ (List.length added <= 1)%nat.
Proof.
  cbv zeta. destruct (processJob env job w) as [out w'] eqn:E.
  destruct w as [d c b jp s clk ns np nd].
  cbn [fst snd WorkerProcessor.db].
  assert (H : evolved (projects d) (projects (db w'))
              /\ exists added, analyses (db w') = analyses d ++ added
                               /\ (List.length added <= 1)%nat).
  { exec_unfold_in E. unfold projectAnalysis_create, project_update in E.
    repeat (exec_step_in E; exec_unfold_in E).
    all: injection E as <- <-.
    all: cbn [WorkerProcessor.db projects analyses].
    all: repeat match goal with
         | H : inr _ = inr _ |- _ => injection H as ? ?; subst
         | H : inl _ = inr _ |- _ => discriminate H
         | H : inr _ = inl _ |- _ => discriminate H
         end.
    all: cbn [projects analyses] in *.
    all: split;
      [ repeat first
          [ apply evolved_refl
          | apply evolved_metadata; [|assumption]
          | apply evolved_analyzed; [|assumption] ]
      | first [ exists []; split; [now rewrite app_nil_r | cbn; lia]
              | eexists [_]; split; [reflexivity | cbn; lia] ] ]. }
  destruct H as [[Hdom Hrows] Hadded].
  split; [exact Hdom|]. split; [|exact Hadded].
  intros pid row row' H1 H2. exact (Hrows pid row row' H1 H2).
Qed.

End Facts.

Import Samples.

(** as [demoEnv], but the project directory is gone *)
Definition missingPath : Env :=
  {| fs_stat :=
       fun _ => StatError (mkError None (Some "ENOENT")
                             (Some "ENOENT: no such file or directory"));
     updateProgress_rejects := updateProgress_rejects demoEnv;
     database_rejects := database_rejects demoEnv;
     extractContext := extractContext demoEnv;
     extractTime := extractTime demoEnv;
     analyzeProject := analyzeProject demoEnv;
     analyzeTime := analyzeTime demoEnv |}.

(** X15 at a job whose project directory is gone. *)
Lemma a_job_for_a_bad_path_touches_nothing_witness :
  WorkerProcessor.db CachedAnalysis
    (snd (demoProcessJob missingPath demoJob demoWorld))
  = WorkerProcessor.db CachedAnalysis demoWorld
  /\ WorkerProcessor.cache CachedAnalysis
       (snd (demoProcessJob missingPath demoJob demoWorld))
     = WorkerProcessor.cache CachedAnalysis demoWorld.
Proof.
  destruct (a_job_for_a_bad_path_touches_nothing (fun s => s)
              (fun _ => "1970-01-01T00:08:20.000Z") CachedAnalysis (fun c => c)
              Some missingPath demoJob demoWorld) as (H1 & H2 & _).
  - intros mtime. discriminate.
  - split; [exact H1 | exact H2].
Defined.

(** X16 at the first job for the sample project. *)
Lemma a_fresh_analysis_is_stored_whatever_the_cache_witness :
  fst (demoProcessJob demoEnv demoJob demoWorld) = inr tt
  /\ analyses (WorkerProcessor.db CachedAnalysis
                 (snd (demoProcessJob demoEnv demoJob demoWorld)))
     = analyses (WorkerProcessor.db CachedAnalysis demoWorld)
         ++ [analysisRow someResult
               (WorkerProcessor.clock CachedAnalysis demoWorld
                + extractTime demoEnv + analyzeTime demoEnv)].
Proof.
  destruct (a_fresh_analysis_is_stored_whatever_the_cache (fun s => s)
              (fun _ => "1970-01-01T00:08:20.000Z") CachedAnalysis (fun c => c)
              Some demoEnv demoJob demoWorld 500000 true 500000 demoContext
              someResult demoProject) as (H1 & H2 & _).
  - reflexivity.
  - reflexivity.
  - reflexivity.
  - reflexivity.
  - right. reflexivity.
  - reflexivity.
  - reflexivity.
  - reflexivity.
  - reflexivity.
  - split; [exact H1 | exact H2].
Defined.

(** X17 at the first job for the sample project: one hour later the cache
    still answers with its result. *)
Lemma a_fresh_result_is_cached_for_the_next_job_witness :
  exists entry,
    fst (CacheManager.get (fun s => s) (fun _ => "1970-01-01T00:08:20.000Z")
           CachedAnalysis Some
           (WorkerProcessor.cache CachedAnalysis
              (snd (demoProcessJob demoEnv demoJob demoWorld)))
           (job_projectPath demoJob) 500000 4600000 4600000) = Some entry
    /\ result entry = someResult.
Proof.
  destruct (a_fresh_result_is_cached_for_the_next_job (fun s => s)
              (fun _ => "1970-01-01T00:08:20.000Z") CachedAnalysis (fun c => c)
              Some demoEnv demoJob demoWorld 500000 true 500000 demoContext
              someResult demoProject 4600000 4600000)
    as (entry & H1 & H2 & _).
  - reflexivity.
  - reflexivity.
  - reflexivity.
  - reflexivity.
  - right. reflexivity.
  - reflexivity.
  - reflexivity.
  - reflexivity.
  - reflexivity.
  - reflexivity.
  - reflexivity.
  - reflexivity.
  - reflexivity.
  - vm_compute. discriminate.
  - vm_compute. discriminate.
  - exists entry. split; [exact H1 | exact H2].
Defined.

End WorkerOutcomeFacts.

(** ** The context extractor: the walk of the project tree and the order of
    the files *)

Module ContextExtractorWalkFacts.
Import ContextExtractor.

Lemma sort_insert_perm {A} (after : A -> A -> bool) (x : A) (l : list A) :
  Permutation (sort_insert after x l) (x :: l).
Proof.
  induction l as [|y l IH]; cbn [sort_insert]; [reflexivity|].
  destruct (after x y); [|reflexivity].
  rewrite IH. apply perm_swap.
Qed.

Lemma stable_sort_perm {A} (after : A -> A -> bool) (l : list A) :
  Permutation (stable_sort after l) l.
Proof.
  induction l as [|x l IH]; cbn; [reflexivity|].
  fold (stable_sort after l). rewrite sort_insert_perm. now rewrite IH.
Qed.

(** no element of [l] is put strictly after a later one *)
Fixpoint ordered {A} (after : A -> A -> bool) (l : list A) : Prop :=
  match l with
  | [] => True
  | x :: l' => (forall y, In y l' -> after x y = false) /\ ordered after l'
  end.

Lemma ordered_split {A} (after : A -> A -> bool) (pre : list A) (a : A)
    (mid : list A) (b : A) (post : list A) :
  ordered after (pre ++ a :: mid ++ b :: post) -> after a b = false.
Proof.
  induction pre as [|x pre IH]; cbn [app ordered].
  - intros [H _]. apply H. apply in_or_app. right. now left.
  - intros [_ H]. exact (IH H).
Qed.

Section Order.
Context {A : Type} (after : A -> A -> bool).
Hypothesis after_trans :
  forall x y z, after x y = false -> after y z = false -> after x z = false.
Hypothesis after_asym : forall x y, after x y = true -> after y x = false.

Lemma sort_insert_ordered (x : A) (l : list A) :
  ordered after l -> ordered after (sort_insert after x l).
Proof.
  induction l as [|y l IH]; cbn [sort_insert ordered].
  - intros _. split; [intros ? []|exact I].
  - intros [Hy Hl]. destruct (after x y) eqn:E; cbn [ordered].
    + split; [|exact (IH Hl)].
      intros z Hz. apply ContextExtractorFacts.In_sort_insert in Hz.
      destruct Hz as [-> | Hz]; [exact (after_asym _ _ E) | exact (Hy z Hz)].
    + split; [|split; assumption].
      intros z [<- | Hz]; [exact E|].
      exact (after_trans _ _ _ E (Hy z Hz)).
Qed.

Lemma stable_sort_ordered (l : list A) : ordered after (stable_sort after l).
Proof.
  induction l as [|x l IH]; cbn; [exact I|].
  fold (stable_sort after l). now apply sort_insert_ordered.
Qed.

End Order.

(** [PRIORITY_FILES.includes(path.basename(file.path))] *)
Definition isPriority (file : FileEntry) : bool :=
  arr_includes (basename (path file)) PRIORITY_FILES.

(** [path.relative(projectPath, file.path).split(path.sep).length] *)
Definition depth (projectPath : string) (file : FileEntry) : Z :=
  Z.of_nat (List.length (split path_sep (relative projectPath (path file)))).

Lemma compareFiles_cases (projectPath : string) (a b : FileEntry) :
  compareFiles projectPath a b
  = if isPriority a && negb (isPriority b) then -1
    else if negb (isPriority a) && isPriority b then 1
    else if negb (depth projectPath a =? depth projectPath b)
         then depth projectPath a - depth projectPath b
         else size a - size b.
Proof. reflexivity. Qed.

Lemma compareFiles_trans (projectPath : string) (x y z : FileEntry) :
  (0 <? compareFiles projectPath x y) = false ->
  (0 <? compareFiles projectPath y z) = false ->
  (0 <? compareFiles projectPath x z) = false.
Proof.
  rewrite !compareFiles_cases, !Z.ltb_ge.
  destruct (isPriority x), (isPriority y), (isPriority z); cbn [andb negb];
    try lia;
    destruct (Z.eqb_spec (depth projectPath x) (depth projectPath y)),
             (Z.eqb_spec (depth projectPath y) (depth projectPath z)),
             (Z.eqb_spec (depth projectPath x) (depth projectPath z));
    cbn [negb]; lia.
Qed.

Lemma compareFiles_asym (projectPath : string) (x y : FileEntry) :
  (0 <? compareFiles projectPath x y) = true ->
  (0 <? compareFiles projectPath y x) = false.
Proof.
  rewrite !compareFiles_cases, Z.ltb_ge, Z.ltb_lt.
  destruct (isPriority x), (isPriority y); cbn [andb negb];
    try lia;
    destruct (Z.eqb_spec (depth projectPath x) (depth projectPath y)),
             (Z.eqb_spec (depth projectPath y) (depth projectPath x));
    cbn [negb]; lia.
Qed.

(** X19.  [prioritizeFiles] rearranges the files it is given, losing and
    adding none, so that of any two files of the result the earlier one is
    never ranked behind the later one by the comparator: no priority file
    comes after a file that is none; among files that are both priority
    files or both none, none comes after a file that lies deeper below the
    project directory; and among those of the same depth none comes after a
    larger one. *)
Theorem prioritizeFiles_sorts_by_priority_depth_and_size
    (projectPath : string) (files : list FileEntry) :
  let sortedFiles := prioritizeFiles projectPath files in
  Permutation sortedFiles files
  /\ forall pre a mid b post,
       sortedFiles = pre ++ a :: mid ++ b :: post ->
       compareFiles projectPath a b <= 0
       /\ (isPriority b = true -> isPriority a = true)
       /\ (isPriority a = isPriority b ->
           depth projectPath a <= depth projectPath b)
       /\ (isPriority a = isPriority b ->
           depth projectPath a = depth projectPath b -> size a <= size b).
Proof.
  intros sortedFiles. split; [apply stable_sort_perm|].
  intros pre a mid b post Hsplit.
  assert (Hord : ordered (fun a b => 0 <? compareFiles projectPath a b) sortedFiles).
  { apply stable_sort_ordered;
      [apply compareFiles_trans | apply compareFiles_asym]. }
  rewrite Hsplit in Hord. apply ordered_split in Hord.
  apply Z.ltb_ge in Hord. split; [exact Hord|].
  rewrite compareFiles_cases in Hord.
  destruct (isPriority a), (isPriority b); cbn [andb negb] in Hord;
    try lia;
    (split; [auto|]);
    destruct (Z.eqb_spec (depth projectPath a) (depth projectPath b));
    cbn [negb] in Hord; split; intros; try lia; try discriminate.
Qed.


(** induction on a directory tree *)
Section Dirent_induction.
Variable P : Dirent -> Prop.
Hypothesis file_case : forall name size, P (RegularFile name size).
Hypothesis other_case : forall name, P (Other name).
Hypothesis unreadable_case : forall name, P (Subdirectory name None).
Hypothesis directory_case :
  forall name entries, Forall P entries -> P (Subdirectory name (Some entries)).

Fixpoint Dirent_tree_ind (entry : Dirent) : P entry :=
  match entry with
  | RegularFile name size => file_case name size
  | Other name => other_case name
  | Subdirectory name None => unreadable_case name
  | Subdirectory name (Some entries) =>
      directory_case name entries
        ((fix all (l : list Dirent) : Forall P l :=
            match l with
            | [] => List.Forall_nil P
            | e :: l' => @List.Forall_cons _ P e l' (Dirent_tree_ind e) (all l')
            end) entries)
  end.
End Dirent_induction.

(** the directories that [getAllFiles] does not enter *)
Definition skipped (name : string) : bool :=
  arr_includes name SKIP_DIRECTORIES || startsWith "." name.

(** [file] is the record of a regular file of the tree [entries] below
    [dirPath] whose size [fs.stat] gives, reached through readable
    directories none of which is skipped *)
Inductive holds : string -> list Dirent -> FileEntry -> Prop :=
  | holds_here (dirPath : string) (entries : list Dirent) (name : string)
        (size : Z) :
      In (RegularFile name (Some size)) entries ->
      holds dirPath entries
        {| path := path_join dirPath name; size := size; ext := extname name |}
  | holds_below (dirPath : string) (entries : list Dirent) (name : string)
        (sub : list Dirent) (file : FileEntry) :
      In (Subdirectory name (Some sub)) entries ->
      skipped name = false ->
      holds (path_join dirPath name) sub file ->
      holds dirPath entries file.

(** [fs.stat] gives the size of every regular file that the walk comes to *)
Fixpoint statable (entry : Dirent) : bool :=
  match entry with
  | RegularFile _ None => false
  | RegularFile _ (Some _) => true
  | Subdirectory name (Some entries) => skipped name || forallb statable entries
  | Subdirectory _ None => true
  | Other _ => true
  end.

Lemma skip_test (name : string) :
  negb (arr_includes name SKIP_DIRECTORIES) && negb (startsWith "." name)
  = negb (skipped name).
Proof. unfold skipped. now rewrite negb_orb. Qed.

Lemma holds_cons (dirPath : string) (entry : Dirent) (entries : list Dirent)
    (file : FileEntry) :
  holds dirPath entries file -> holds dirPath (entry :: entries) file.
Proof.
  intros H. destruct H as [d es n s Hin | d es n sub f Hin Hskip Hsub].
  - apply holds_here. now right.
  - eapply holds_below; eauto. now right.
Qed.

(** what the loop pushes, it pushes behind what was there *)
Definition pushes (visit : Dirent -> list FileEntry -> option (list FileEntry))
    (Q : FileEntry -> Prop) (entry : Dirent) : Prop :=
  forall files files',
    visit entry files = Some files' ->
    exists added, files' = files ++ added /\ Forall Q added.

Lemma forEntries_pushes (visit : Dirent -> list FileEntry -> option (list FileEntry))
    (Q : Dirent -> FileEntry -> Prop) (entries : list Dirent) :
  Forall (fun e => pushes visit (Q e) e) entries ->
  forall files, exists added,
    forEntries visit entries files = files ++ added
    /\ Forall (fun f => exists e, In e entries /\ Q e f) added.
Proof.
  induction 1 as [|e l He Hl IH]; intros files; cbn [forEntries].
  - exists []. now rewrite app_nil_r.
  - destruct (visit e files) as [files'|] eqn:E.
    + destruct (He _ _ E) as (a1 & -> & H1).
      destruct (IH (files ++ a1)) as (a2 & -> & H2).
      exists (a1 ++ a2). rewrite app_assoc. split; [reflexivity|].
      apply Forall_app. split.
      * eapply List.Forall_impl; [|exact H1]. intros f Hf. exists e. split; [now left|exact Hf].
      * eapply List.Forall_impl; [|exact H2]. intros f (e' & Hin & Hf).
        exists e'. split; [now right|exact Hf].
    + exists []. now rewrite app_nil_r.
Qed.

(** the files that the visit of one entry of [dirPath] may push *)
Definition of_entry (dirPath : string) (entry : Dirent) (file : FileEntry) : Prop :=
  match entry with
  | RegularFile name (Some size) =>
      file = {| path := path_join dirPath name; size := size; ext := extname name |}
  | Subdirectory name (Some sub) =>
      skipped name = false /\ holds (path_join dirPath name) sub file
  | _ => False
  end.

Lemma visitEntry_pushes (entry : Dirent) :
  forall dirPath, pushes (visitEntry dirPath) (of_entry dirPath entry) entry.
Proof.
  induction entry as [name size | name | name | name entries IH]
    using Dirent_tree_ind; intros dirPath files files' Hv;
    cbn [visitEntry] in Hv.
  - destruct size as [size|]; [|discriminate]. injection Hv as <-.
    eexists. split; [reflexivity|]. constructor; [reflexivity|constructor].
  - injection Hv as <-. exists []. now rewrite app_nil_r.
  - destruct (_ && _); injection Hv as <-; exists []; now rewrite app_nil_r.
  - rewrite skip_test in Hv. destruct (skipped name) eqn:Hs; cbn [negb] in Hv;
      injection Hv as <-.
    + exists []. now rewrite app_nil_r.
    + destruct (forEntries_pushes (visitEntry (path_join dirPath name))
                  (of_entry (path_join dirPath name)) entries) with (files := files)
        as (added & -> & Hadded).
      { eapply List.Forall_impl; [|exact IH]. intros e He. apply He. }
      exists added. split; [reflexivity|].
      eapply List.Forall_impl; [|exact Hadded].
      intros f (e & Hin & Hf). cbn [of_entry]. split; [exact Hs|].
      destruct e as [n [s|] | n [sub|] | n]; cbn [of_entry] in Hf; try contradiction.
      * subst f. now apply holds_here.
      * destruct Hf as [Hs' Hf]. eapply holds_below; eauto.
Qed.

Lemma getAllFiles_sound (dirPath : string) (entries : list Dirent)
    (file : FileEntry) :
  In file (getAllFiles dirPath (Some entries)) -> holds dirPath entries file.
Proof.
  unfold getAllFiles.
  destruct (forEntries_pushes (visitEntry dirPath) (of_entry dirPath) entries)
    with (files := @nil FileEntry) as (added & -> & Hadded).
  { apply List.Forall_forall. intros e _. apply visitEntry_pushes. }
  cbn [app]. intros Hin.
  rewrite List.Forall_forall in Hadded. destruct (Hadded _ Hin) as (e & He & Hf).
  destruct e as [n [s|] | n [sub|] | n]; cbn [of_entry] in Hf; try contradiction.
  - subst file. now apply holds_here.
  - destruct Hf as [Hs Hf]. eapply holds_below; eauto.
Qed.

(** the loop keeps what was pushed *)
Lemma visitEntry_keeps (entry : Dirent) :
  forall dirPath files files' f,
    visitEntry dirPath entry files = Some files' -> In f files -> In f files'.
Proof.
  intros dirPath files files' f Hv Hin.
  destruct (visitEntry_pushes entry dirPath files files' Hv) as (added & -> & _).
  apply in_or_app. now left.
Qed.

Lemma forEntries_keeps (dirPath : string) (entries : list Dirent)
    (files : list FileEntry) (f : FileEntry) :
  In f files -> In f (forEntries (visitEntry dirPath) entries files).
Proof.
  revert files. induction entries as [|e l IH]; intros files Hin;
    cbn [forEntries]; [exact Hin|].
  destruct (visitEntry dirPath e files) as [files'|] eqn:E; [|exact Hin].
  apply IH. eapply visitEntry_keeps; eauto.
Qed.

Lemma statable_visit (entry : Dirent) (dirPath : string) (files : list FileEntry) :
  statable entry = true -> visitEntry dirPath entry files <> None.
Proof.
  destruct entry as [n [s|] | n [sub|] | n]; cbn [statable visitEntry];
    try discriminate; intros _; destruct (_ && _); discriminate.
Qed.

Lemma forEntries_complete (P : Dirent -> Prop) (dirPath : string)
    (entries : list Dirent) :
  Forall (fun e => statable e = true) entries ->
  forall e f,
    In e entries ->
    (forall files files', visitEntry dirPath e files = Some files' -> In f files') ->
    forall files, In f (forEntries (visitEntry dirPath) entries files).
Proof.
  induction 1 as [|e0 l He0 Hl IH]; intros e f Hin Hpush files; [destruct Hin|].
  cbn [forEntries].
  destruct (visitEntry dirPath e0 files) as [files'|] eqn:E;
    [|now apply statable_visit in E].
  destruct Hin as [-> | Hin].
  - apply forEntries_keeps. exact (Hpush _ _ E).
  - exact (IH e f Hin Hpush files').
Qed.

Lemma getAllFiles_complete_below (dirPath : string) (entries : list Dirent)
    (file : FileEntry) :
  holds dirPath entries file ->
  forallb statable entries = true ->
  forall files, In file (forEntries (visitEntry dirPath) entries files).
Proof.
  induction 1 as [d es n s Hin | d es n sub f Hin Hskip Hsub IH];
    intros Hstat files; rewrite forallb_forall in Hstat.
  - eapply (forEntries_complete (fun _ => True)); [now apply List.Forall_forall | exact Hin |].
    cbn [visitEntry]. intros fs fs' [= <-]. apply in_or_app. right. now left.
  - eapply (forEntries_complete (fun _ => True)); [now apply List.Forall_forall | exact Hin |].
    cbn [visitEntry]. rewrite skip_test, Hskip. cbn [negb].
    intros fs fs' [= <-]. apply IH.
    specialize (Hstat _ Hin). cbn [statable] in Hstat.
    now rewrite Hskip in Hstat.
Qed.

Lemma forEntries_stops (visit : Dirent -> list FileEntry -> option (list FileEntry))
    (pre : list Dirent) (entry : Dirent) (post : list Dirent) :
  (forall files, visit entry files = None) ->
  forall files,
    forEntries visit (pre ++ entry :: post) files = forEntries visit pre files.
Proof.
  intros Hnone. induction pre as [|e l IH]; intros files; cbn [app forEntries].
  - now rewrite Hnone.
  - destruct (visit e files); [apply IH | reflexivity].
Qed.

(** X20.  [getAllFiles] lists only regular files whose size [fs.stat]
    gives and that lie in the directory itself or below it in readable
    directories none of which is on the skip list or hidden, each with the
    path built by [path.join] from the names on the way and the extension
    of its name; if [fs.stat] fails for no file the walk comes to, it lists
    every such file; and a file for which [fs.stat] fails ends the listing
    of its own directory, nothing of the entries behind it being listed,
    while the walk goes on in the directory above. *)
Theorem getAllFiles_lists_the_files_outside_skipped_directories
    (dirPath : string) (entries : list Dirent) :
  (forall file,
     In file (getAllFiles dirPath (Some entries)) -> holds dirPath entries file)
  /\ (forallb statable entries = true ->
      forall file,
        holds dirPath entries file -> In file (getAllFiles dirPath (Some entries)))
  /\ (forall pre name post,
        entries = pre ++ RegularFile name None :: post ->
        getAllFiles dirPath (Some entries) = getAllFiles dirPath (Some pre))
  /\ (forall parent dir pre name post files,
        skipped dir = false ->
        visitEntry parent
          (Subdirectory dir (Some (pre ++ RegularFile name None :: post))) files
        = visitEntry parent (Subdirectory dir (Some pre)) files
        /\ visitEntry parent (Subdirectory dir (Some pre)) files <> None)
  /\ getAllFiles dirPath None = [].
Proof.
  split; [|split; [|split; [|split]]].
  - intros file. apply getAllFiles_sound.
  - intros Hstat file Hholds. now apply getAllFiles_complete_below.
  - intros pre name post ->. unfold getAllFiles. now apply forEntries_stops.
  - intros parent dir pre name post files Hskip. cbn [visitEntry].
    rewrite skip_test, Hskip. cbn [negb]. split; [|discriminate].
    f_equal. now apply forEntries_stops.
  - reflexivity.
Qed.


(** a project directory with a hidden file, a skipped directory and a
    source directory *)
Definition sampleTree : list Dirent :=
  [ RegularFile "README.md" (Some 120);
    Subdirectory "node_modules" (Some [RegularFile "index.js" None]);
    Subdirectory "src"
      (Some [RegularFile "main.ts" (Some 300); Other "latest";
             Subdirectory "gen" None]);
    RegularFile ".env" (Some 16) ].

(** X20 at that directory: the files listed are [README.md], [src/main.ts]
    and [.env]. *)
Lemma getAllFiles_lists_the_files_outside_skipped_directories_witness :
  forallb statable sampleTree = true
  /\ holds "/work/app" sampleTree
       {| path := "/work/app/src/main.ts"; size := 300; ext := ".ts" |}
  /\ In {| path := "/work/app/src/main.ts"; size := 300; ext := ".ts" |}
       (getAllFiles "/work/app" (Some sampleTree))
  /\ map path (getAllFiles "/work/app" (Some sampleTree))
     = ["/work/app/README.md"; "/work/app/src/main.ts"; "/work/app/.env"].
Proof.
  assert (Hstat : forallb statable sampleTree = true) by reflexivity.
  assert (Hholds : holds "/work/app" sampleTree
                     {| path := "/work/app/src/main.ts"; size := 300; ext := ".ts" |}).
  { eapply holds_below with (name := "src");
      [right; right; left; reflexivity | reflexivity |].
    apply (holds_here "/work/app/src" _ "main.ts" 300). left. reflexivity. }
  split; [exact Hstat|]. split; [exact Hholds|]. split; [|reflexivity].
  exact (proj1 (proj2 (getAllFiles_lists_the_files_outside_skipped_directories
                         "/work/app" sampleTree)) Hstat _ Hholds).
Defined.

Lemma language_row (language : string) (extensions : list string) :
  In (language, extensions) LANGUAGE_EXTENSIONS ->
  language <> "plaintext"
  /\ (language = "c" -> extensions = [".c"; ".h"]).
Proof.
  unfold LANGUAGE_EXTENSIONS. cbn [In].
  intros H.
  repeat (destruct H as [H | H];
          [injection H as <- <-; split; [discriminate | try discriminate; auto]|]).
  destruct H.
Qed.

Lemma language_found (ext : string) :
  getLanguageFromExtension ext <> "plaintext" ->
  exists extensions,
    In (getLanguageFromExtension ext, extensions) LANGUAGE_EXTENSIONS
    /\ arr_includes ext extensions = true.
Proof.
  unfold getLanguageFromExtension.
  destruct (List.find _ LANGUAGE_EXTENSIONS) as [[language extensions]|] eqn:E;
    [|intros H; now destruct H].
  apply find_some in E. intros _. now exists extensions.
Qed.

(** X21.  [getLanguageFromExtension] answers with the first row of
    [LANGUAGE_EXTENSIONS] that lists the extension: the answer is
    [plaintext] exactly if no row lists it, any other answer is the language
    of a row that lists it, and since the row of C++ comes before the row of
    C and both list [.h], the answer is [c] for the extension [.c] alone: a
    header file is labelled C++, never C. *)
Theorem getLanguageFromExtension_takes_the_first_row (ext : string) :
  (getLanguageFromExtension ext = "plaintext"
   <-> forall language extensions,
         In (language, extensions) LANGUAGE_EXTENSIONS ->
         arr_includes ext extensions = false)
  /\ (getLanguageFromExtension ext <> "plaintext" ->
      exists extensions,
        In (getLanguageFromExtension ext, extensions) LANGUAGE_EXTENSIONS
        /\ arr_includes ext extensions = true)
  /\ (getLanguageFromExtension ext = "c" <-> ext = ".c")
  /\ (ext = ".h" -> getLanguageFromExtension ext = "cpp").
Proof.
  split; [|split; [exact (language_found ext)|split]].
  - unfold getLanguageFromExtension.
    destruct (List.find _ LANGUAGE_EXTENSIONS) as [[language extensions]|] eqn:E.
    + apply find_some in E. destruct E as [Hin Hinc].
      destruct (language_row _ _ Hin) as [Hplain _].
      split; [intros H; now destruct Hplain|].
      intros H. rewrite (H _ _ Hin) in Hinc. discriminate.
    + split; [|reflexivity]. intros _ language extensions Hin.
      exact (find_none _ _ E (language, extensions) Hin).
  - split; [|intros ->; reflexivity].
    intros Hc.
    destruct (language_found ext) as (extensions & Hin & Hinc);
      [rewrite Hc; discriminate|].
    rewrite Hc in Hin. apply language_row in Hin. destruct Hin as [_ Hrow].
    rewrite (Hrow eq_refl) in Hinc.
    cbn [arr_includes existsb] in Hinc. rewrite orb_false_r in Hinc.
    apply orb_true_iff in Hinc.
    destruct Hinc as [H | H]; apply String.eqb_eq in H; [exact H|].
    subst ext. discriminate Hc.
  - intros ->. reflexivity.
Qed.

End ContextExtractorWalkFacts.

(** ** The validator: paths, precedence of markers and the shape of the
    result *)

Module ValidatorShapeFacts.
Import Validator ValidatorFacts.

Lemma split_nonempty (sep : ascii) (s : string) : split sep s <> [].
Proof.
  destruct s as [|c s]; cbn [split]; [discriminate|].
  destruct (Ascii.eqb c sep); [discriminate|].
  destruct (split sep s); discriminate.
Qed.

Lemma split_app_sep (sep : ascii) (a b : string) :
  split sep (a +:+ String sep b) = split sep a ++ split sep b.
Proof.
  induction a as [|c a IH].
  - change (EmptyString +:+ String sep b) with (String sep b).
    cbn [split]. now rewrite Ascii.eqb_refl.
  - change (String c a +:+ String sep b) with (String c (a +:+ String sep b)).
    cbn [split]. rewrite IH.
    destruct (Ascii.eqb c sep); [reflexivity|].
    pose proof (split_nonempty sep a) as Hne.
    destruct (split sep a) as [|h t]; [now destruct Hne | reflexivity].
Qed.

Lemma includes_sep (s : string) :
  includes "/" s = existsb (Ascii.eqb path_sep) (list_ascii_of_string s).
Proof.
  induction s as [|c s IH]; [reflexivity|].
  cbn [includes list_ascii_of_string existsb String.prefix]. rewrite IH.
  unfold path_sep.
  destruct (ascii_dec "/" c) as [<- | Hne].
  - rewrite Ascii.eqb_refl. now destruct s.
  - apply Ascii.eqb_neq in Hne. now rewrite Hne.
Qed.

Lemma split_plain (s : string) :
  includes "/" s = false -> split path_sep s = [s].
Proof.
  rewrite includes_sep.
  induction s as [|c s IH]; cbn [list_ascii_of_string existsb split];
    [reflexivity|].
  intros H. apply orb_false_iff in H. destruct H as [Hc Hs].
  rewrite Ascii.eqb_sym, Hc, (IH Hs). reflexivity.
Qed.

Lemma split_with_sep (s : string) :
  includes "/" s = true -> (2 <= List.length (split path_sep s))%nat.
Proof.
  rewrite includes_sep.
  induction s as [|c s IH]; cbn [list_ascii_of_string existsb split];
    [discriminate|].
  intros H. destruct (Ascii.eqb c path_sep) eqn:Hc.
  - pose proof (split_nonempty path_sep s).
    destruct (split path_sep s); [contradiction | cbn; lia].
  - rewrite Ascii.eqb_sym, Hc in H. cbn [orb] in H. specialize (IH H).
    destruct (split path_sep s); cbn in *; lia.
Qed.

Lemma basename_join (dir name : string) :
  includes "/" name = false -> basename (dir +:+ "/" +:+ name) = name.
Proof.
  intros H. unfold basename.
  change ("/" +:+ name) with (String path_sep name).
  rewrite split_app_sep, (split_plain _ H).
  apply last_last.
Qed.

Lemma basename_plain (name : string) :
  includes "/" name = false -> basename name = name.
Proof. intros H. unfold basename. now rewrite (split_plain _ H). Qed.


Lemma sort_keeps_best {A} (after : A -> A -> bool) (x : A) (post : list A) :
  (forall y, In y post -> after x y = false) ->
  stable_sort after (x :: post) = x :: stable_sort after post.
Proof.
  intros H. change (stable_sort after (x :: post))
    with (sort_insert after x (stable_sort after post)).
  assert (H' : forall y, In y (stable_sort after post) -> after x y = false).
  { intros y Hy. apply ContextExtractorFacts.In_stable_sort in Hy. auto. }
  destruct (stable_sort after post) as [|y l]; [reflexivity|].
  cbn [sort_insert]. now rewrite (H' y (or_introl eq_refl)).
Qed.

(** The first element of a sorted array is the first of the elements that
    no other element is put strictly before. *)
Lemma sort_head {A} (after : A -> A -> bool) (pre : list A) (x : A)
    (post : list A) :
  (forall y, In y pre -> after y x = true) ->
  (forall y, In y post -> after x y = false) ->
  exists rest, stable_sort after (pre ++ x :: post) = x :: rest.
Proof.
  intros Hpre Hpost. induction pre as [|y pre IH]; cbn [app].
  - rewrite sort_keeps_best by exact Hpost. now eexists.
  - destruct IH as (rest & E); [intros z Hz; apply Hpre; now right|].
    change (stable_sort after (y :: pre ++ x :: post))
      with (sort_insert after y (stable_sort after (pre ++ x :: post))).
    rewrite E. cbn [sort_insert]. rewrite (Hpre y (or_introl eq_refl)).
    now eexists.
Qed.

(** the indicators of [detectGenericProject], in the order of the checks *)
Definition indicators (entries : list (string * Entry)) (files : list string)
    : list bool :=
  [ arr_includes ".git" files;
    existsb isReadme files;
    checkForDirectories entries files commonSourceDirs;
    fst (analyzeCodeFiles files);
    existsb (fun f => arr_includes f configFiles
                      || existsb (fun c => startsWith c f) configFiles) files;
    checkForDirectories entries files ["docs"; "documentation"; "doc"];
    checkForDirectories entries files ["test"; "tests"; "__tests__"; "spec"] ].

(** the confidence that [detectGenericProject] adds up *)
Definition genericConfidence (hasGit hasReadme hasSourceDir hasCodeFiles
    hasConfig hasDocs hasTests : bool) : float :=
  let confidence := 0%float in
  let confidence := if hasGit then (confidence + 0.25)%float else confidence in
  let confidence := if hasReadme then (confidence + 0.15)%float else confidence in
  let confidence := if hasSourceDir then (confidence + 0.2)%float else confidence in
  let confidence := if hasCodeFiles then (confidence + 0.15)%float else confidence in
  let confidence := if hasConfig then (confidence + 0.1)%float else confidence in
  let confidence := if hasDocs then (confidence + 0.05)%float else confidence in
  let confidence := if hasTests then (confidence + 0.05)%float else confidence in
  Math_min confidence 0.95.

Lemma genericConfidence_facts (b1 b2 b3 b4 b5 b6 b7 : bool) :
  let c := genericConfidence b1 b2 b3 b4 b5 b6 b7 in
  (c <=? 0.95)%float = true
  /\ ((c <? 0.5)%float = false ->
      (3 <= count_occ bool_dec [b1; b2; b3; b4; b5; b6; b7] true)%nat)
  /\ (b1 = true -> b3 = true -> b2 || b4 || b5 || b6 || b7 = true ->
      (c <? 0.5)%float = false).
Proof.
  destruct b1, b2, b3, b4, b5, b6, b7; vm_compute;
    (split; [reflexivity|split; [intros; solve [discriminate | lia] |]]);
    intros; first [reflexivity | discriminate].
Qed.

Section Facts.
Variable JSON_parse : string -> option PackageJson.

Abbreviation rootDetections := (rootDetections JSON_parse).
Abbreviation detectProjectType := (detectProjectType JSON_parse).
Abbreviation validateProject := (validateProject JSON_parse).
Abbreviation analyzeNodeProject := (analyzeNodeProject JSON_parse).

Lemma detectGenericProject_confidence (entries : list (string * Entry))
    (files : list string) :
  confidence (detectGenericProject entries files)
  = match indicators entries files with
    | [b1; b2; b3; b4; b5; b6; b7] => genericConfidence b1 b2 b3 b4 b5 b6 b7
    | _ => 0%float
    end.
Proof. reflexivity. Qed.


Lemma rootDetections_shape (entries : list (string * Entry))
    (files : list string) (d : Detection) :
  In d (rootDetections entries files) ->
  projectType d <> unknown
  /\ (confidence d <=? 0.95)%float = true
  /\ (confidence d <? 0.5)%float = false.
Proof.
  unfold Validator.rootDetections. intros H.
  repeat (apply in_app_or in H; destruct H as [H | H]);
    repeat match type of H with
           | In _ (if ?b then _ else _) => destruct b
           | In _ (let _ := _ in _) => cbv zeta in H
           end;
    cbn [In] in H; try contradiction;
    destruct H as [<- | []]; cbn [projectType confidence detection];
    try (destruct (2 <=? _)%nat);
    (split; [discriminate | split; reflexivity]).
Qed.

Lemma nestedMarkers_shape (subdirFiles : list string) (d : Detection) :
  nestedMarkers subdirFiles = Some d ->
  projectType d <> unknown /\ confidence d = 0.85%float /\ framework d <> Some "".
Proof.
  unfold nestedMarkers. intros H.
  repeat match type of H with
         | (if ?b then _ else _) = _ => destruct b
         end;
    try discriminate; injection H as <-;
    (split; [discriminate | split; [reflexivity | discriminate]]).
Qed.

Lemma firstNested_spec (entries : list (string * Entry)) (subdirs : list string) :
  match firstNested entries subdirs with
  | Some d =>
      exists pre subdir post subdirFiles,
        subdirs = pre ++ subdir :: post
        /\ readdir entries subdir = Some subdirFiles
        /\ nestedMarkers subdirFiles = Some d
        /\ forall s l, In s pre -> readdir entries s = Some l ->
                       nestedMarkers l = None
  | None =>
      forall s l, In s subdirs -> readdir entries s = Some l ->
                  nestedMarkers l = None
  end.
Proof.
  induction subdirs as [|subdir rest IH]; cbn [firstNested].
  - intros s l [].
  - destruct (readdir entries subdir) as [subdirFiles|] eqn:Hr.
    + destruct (nestedMarkers subdirFiles) as [d|] eqn:Hm.
      * exists [], subdir, rest, subdirFiles. repeat split; auto. intros s l [].
      * destruct (firstNested entries rest) as [d|].
        -- destruct IH as (pre & s0 & post & l0 & -> & H1 & H2 & H3).
           exists (subdir :: pre), s0, post, l0. repeat split; auto.
           intros s l [<- | Hin] Hl; [|eauto]. rewrite Hr in Hl. now injection Hl as <-.
        -- intros s l [<- | Hin] Hl; [|eauto]. rewrite Hr in Hl. now injection Hl as <-.
    + destruct (firstNested entries rest) as [d|].
      * destruct IH as (pre & s0 & post & l0 & -> & H1 & H2 & H3).
        exists (subdir :: pre), s0, post, l0. repeat split; auto.
        intros s l [<- | Hin] Hl; [|eauto]. rewrite Hr in Hl. discriminate.
      * intros s l [<- | Hin] Hl; [|eauto]. rewrite Hr in Hl. discriminate.
Qed.

(** where the answer of [detectProjectType] comes from *)
Lemma detectProjectType_cases (entries : list (string * Entry))
    (files : list string) :
  let d := detectProjectType entries files in
  In d (rootDetections entries files)
  \/ (rootDetections entries files = []
      /\ checkNestedProjects entries files = Some d)
  \/ (rootDetections entries files = []
      /\ checkNestedProjects entries files = None
      /\ (0 <? confidence (detectGenericProject entries files))%float = true
      /\ d = detectGenericProject entries files)
  \/ (rootDetections entries files = []
      /\ checkNestedProjects entries files = None
      /\ (0 <? confidence (detectGenericProject entries files))%float = false
      /\ d = noDetection).
Proof.
  unfold Validator.detectProjectType.
  destruct (rootDetections entries files) as [|d0 l] eqn:Hroot; cbn [isEmpty app].
  - right. destruct (checkNestedProjects entries files) as [nested|];
      cbn [isEmpty app].
    + left. split; reflexivity.
    + right. destruct (0 <? confidence (detectGenericProject entries files))%float;
        cbn [app]; [left | right]; repeat split; reflexivity.
  - left.
    set (sorted := stable_sort _ (d0 :: l)).
    assert (Hin : forall y, In y sorted <-> In y (d0 :: l))
      by (intros y; apply ContextExtractorFacts.In_stable_sort).
    destruct sorted as [|best rest].
    + exfalso. exact (proj2 (Hin d0) (or_introl eq_refl)).
    + apply Hin. now left.
Qed.


Lemma detect_head (entries : list (string * Entry)) (files : list string)
    (pre : list Detection) (x : Detection) (post : list Detection) :
  rootDetections entries files = pre ++ x :: post ->
  (forall y, In y pre -> (0 <? confidence x - confidence y)%float = true) ->
  (forall y, In y post -> (0 <? confidence y - confidence x)%float = false) ->
  detectProjectType entries files = x.
Proof.
  intros Hroot Hpre Hpost. unfold Validator.detectProjectType. rewrite Hroot.
  assert (Hne : isEmpty (pre ++ x :: post) = false) by now destruct pre.
  rewrite Hne. cbv zeta. rewrite Hne.
  destruct (sort_head (fun a b => (0 <? confidence b - confidence a)%float)
              pre x post Hpre Hpost) as (rest & ->).
  reflexivity.
Qed.

(** the confidence of a detection pushed for a root marker *)
Ltac segment_confidence H :=
  repeat (apply in_app_or in H; destruct H as [H | H]);
  repeat match type of H with
         | In _ (if ?b then _ else _) => destruct b
         end;
  cbn [In] in H; try contradiction;
  destruct H as [<- | []]; cbn [confidence detection];
  try match goal with
      | |- context [if ?b then 0.9%float else _] => destruct b
      end;
  reflexivity.

(** X24.  When several markers are found in the project directory, the
    detection returned is the first pushed among those of the highest
    confidence: [package.json] decides whatever else is there; without it
    [Cargo.toml] decides; without both [go.mod]; and without the three
    [pubspec.yaml], even beside Python, Java, PHP or Ruby markers. *)
Theorem first_marker_of_highest_confidence_decides
    (entries : list (string * Entry)) (files : list string) :
  let d := detectProjectType entries files in
  (arr_includes "package.json" files = true ->
   d = detection nodejs 0.95 (analyzeNodeProject entries))
  /\ (arr_includes "package.json" files = false ->
      arr_includes "Cargo.toml" files = true ->
      d = detection rust 0.95 (None, Some "Rust", Some "cargo"))
  /\ (arr_includes "package.json" files = false ->
      arr_includes "Cargo.toml" files = false ->
      arr_includes "go.mod" files = true ->
      d = detection go 0.95 (None, Some "Go", Some "go modules"))
  /\ (arr_includes "package.json" files = false ->
      arr_includes "Cargo.toml" files = false ->
      arr_includes "go.mod" files = false ->
      arr_includes "pubspec.yaml" files = true ->
      d = detection nodejs 0.95 (Some "Flutter", Some "Dart", Some "pub")).
Proof.
  cbv zeta. split; [|split; [|split]].
  - intros Hnode.
    eapply (detect_head entries files []).
    + unfold Validator.rootDetections. rewrite Hnode. cbn [app]. reflexivity.
    + intros y [].
    + intros y Hy. cbv zeta in Hy. segment_confidence Hy.
  - intros Hnode Hrust.
    eapply detect_head.
    + unfold Validator.rootDetections. rewrite Hnode, Hrust. cbn [app]. reflexivity.
    + intros y Hy. cbv zeta in Hy. segment_confidence Hy.
    + intros y Hy. cbv zeta in Hy. segment_confidence Hy.
  - intros Hnode Hrust Hgo.
    eapply detect_head.
    + unfold Validator.rootDetections. rewrite Hnode, Hrust, Hgo. cbn [app].
      reflexivity.
    + intros y Hy. cbv zeta in Hy. segment_confidence Hy.
    + intros y Hy. cbv zeta in Hy. segment_confidence Hy.
  - intros Hnode Hrust Hgo Hdart.
    eapply detect_head with (post := []).
    + unfold Validator.rootDetections. rewrite Hnode, Hrust, Hgo, Hdart.
      cbn [app]. rewrite !app_assoc. reflexivity.
    + intros y Hy. cbv zeta in Hy. segment_confidence Hy.
    + intros y [].
Qed.



(** X23.  The two shapes of a validation result.  A rejection carries the
    project type [unknown], no framework, language or package manager, and
    a confidence below 0.5.  An acceptance is only given for a readable,
    non-empty directory whose name is not that of a system directory; it is
    the detection of [detectProjectType], its project type is never
    [unknown] and its confidence is never above 0.95. *)
Theorem validateProject_result_shape (projectPath : string) (root : Root) :
  let v := validateProject projectPath root in
  (isValid v = false ->
   projectType (result v) = unknown
   /\ framework (result v) = None
   /\ language (result v) = None
   /\ packageManager (result v) = None
   /\ (confidence (result v) <? 0.5)%float = true)
  /\ (isValid v = true ->
      projectType (result v) <> unknown
      /\ (confidence (result v) <=? 0.95)%float = true
      /\ isSystemDirectory projectPath = false
      /\ exists entries,
           root = Directory (Some entries)
           /\ entries <> []
           /\ result v = detectProjectType entries (map fst entries)).
Proof.
  cbv zeta. unfold Validator.validateProject, isSystemDirectory.
  destruct root as [| |listing];
    try (split; [intros _; repeat split; reflexivity | discriminate]).
  destruct (arr_includes (basename projectPath) SYSTEM_DIRECTORIES
            || startsWith "." (basename projectPath));
    [split; [intros _; repeat split; reflexivity | discriminate]|].
  destruct listing as [entries|];
    [|split; [intros _; repeat split; reflexivity | discriminate]].
  destruct (isEmpty (map fst entries)) eqn:Hempty;
    [split; [intros _; repeat split; reflexivity | discriminate]|].
  destruct (confidence (detectProjectType entries (map fst entries)) <? 0.5)%float
    eqn:Hlow; cbn [isValid result invalid projectType framework language
                   packageManager confidence].
  - split; [intros _; repeat split; auto | discriminate].
  - split; [discriminate|]. intros _.
    assert (Hshape : projectType (detectProjectType entries (map fst entries))
                     <> unknown
                     /\ (confidence (detectProjectType entries (map fst entries))
                         <=? 0.95)%float = true).
    { destruct (detectProjectType_cases entries (map fst entries))
        as [Hin | [(_ & Hn) | [(_ & _ & _ & Hg) | (_ & _ & _ & Hno)]]].
      - destruct (rootDetections_shape _ _ _ Hin) as (? & ? & _). now split.
      - unfold checkNestedProjects in Hn.
        pose proof (firstNested_spec entries
                      (List.filter
                         (fun file =>
                            match isDirectory entries file with
                            | Some true =>
                                negb (startsWith "." file)
                                && negb (arr_includes file SYSTEM_DIRECTORIES)
                            | _ => false
                            end) (map fst entries))) as Hspec.
        rewrite Hn in Hspec. destruct Hspec as (_ & _ & _ & l & _ & _ & Hm & _).
        destruct (nestedMarkers_shape _ _ Hm) as (? & Hc & _).
        split; [assumption|]. now rewrite Hc.
      - rewrite Hg. split; [discriminate|].
        rewrite detectGenericProject_confidence. cbn [indicators].
        apply genericConfidence_facts.
      - rewrite Hno in Hlow. discriminate Hlow. }
    destruct Hshape as [Ht Hc]. repeat split; auto.
    exists entries. repeat split; auto.
    intros ->. discriminate Hempty.
Qed.

(** X25.  The detection of [detectGenericProject] always has the project
    type [nodejs], no framework and no package manager, and a confidence of
    at most 0.95; its confidence reaches the threshold of 0.5 only if at
    least three of the seven indicators are present, and it does reach it
    when [.git], a source directory and any third indicator are present. *)
Theorem generic_detection_needs_three_indicators
    (entries : list (string * Entry)) (files : list string) :
  let d := detectGenericProject entries files in
  projectType d = nodejs /\ framework d = None /\ packageManager d = None
  /\ (confidence d <=? 0.95)%float = true
  /\ ((confidence d <? 0.5)%float = false ->
      (3 <= count_occ bool_dec (indicators entries files) true)%nat)
  /\ (arr_includes ".git" files = true ->
      checkForDirectories entries files commonSourceDirs = true ->
      (3 <= count_occ bool_dec (indicators entries files) true)%nat ->
      (confidence d <? 0.5)%float = false).
Proof.
  cbv zeta. rewrite detectGenericProject_confidence. cbn [indicators].
  do 3 (split; [reflexivity|]).
  pose proof (genericConfidence_facts
                (arr_includes ".git" files) (existsb isReadme files)
                (checkForDirectories entries files commonSourceDirs)
                (fst (analyzeCodeFiles files))
                (existsb (fun f => arr_includes f configFiles
                                   || existsb (fun c => startsWith c f) configFiles)
                   files)
                (checkForDirectories entries files ["docs"; "documentation"; "doc"])
                (checkForDirectories entries files
                   ["test"; "tests"; "__tests__"; "spec"])) as (H1 & H2 & H3).
  split; [exact H1|]. split; [exact H2|].
  intros Hgit Hsrc Hcount. apply H3; [exact Hgit | exact Hsrc |].
  unfold indicators in Hcount. rewrite Hgit, Hsrc in Hcount.
  cbn [count_occ] in Hcount.
  repeat match goal with
         | |- context [existsb ?f ?l] => destruct (existsb f l)
         | |- context [fst ?x] => destruct (fst x)
         | |- context [checkForDirectories ?a ?b ?c] =>
             destruct (checkForDirectories a b c)
         end; cbn in *; try reflexivity; lia.
Qed.


(** the subdirectories that [checkNestedProjects] looks into *)
Definition eligible (entries : list (string * Entry)) (file : string) : bool :=
  match isDirectory entries file with
  | Some true =>
      negb (startsWith "." file) && negb (arr_includes file SYSTEM_DIRECTORIES)
  | _ => false
  end.

Lemma no_root_marker (entries : list (string * Entry)) (files : list string) :
  hasStrongMarker files = false -> pythonMarkerCount files = 0%nat ->
  rootDetections entries files = [].
Proof.
  intros Hstrong Hpy.
  apply map_eq_nil with (f := confidence).
  rewrite rootDetections_confidences, Hpy.
  unfold hasStrongMarker in Hstrong.
  repeat (apply orb_false_iff in Hstrong; destruct Hstrong as [Hstrong ?]).
  repeat match goal with H : _ = false |- _ => rewrite H; clear H end.
  reflexivity.
Qed.

(** X26.  A directory without a marker of its own is typed by its
    subdirectories: if [checkNestedProjects] finds a detection, that
    detection is the answer of [detectProjectType], with confidence 0.85,
    the generic indicators are not consulted, and the directory is accepted
    unless its own name is that of a system directory.  The detection is
    read off the first subdirectory, in the order of the listing, that is
    a readable directory with a marker and whose name neither starts with a
    dot nor is on the list of system directories. *)
Theorem nested_marker_types_the_parent (entries : list (string * Entry))
    (d : Detection) :
  let files := map fst entries in
  hasStrongMarker files = false ->
  pythonMarkerCount files = 0%nat ->
  checkNestedProjects entries files = Some d ->
  detectProjectType entries files = d
  /\ confidence d = 0.85%float
  /\ (forall projectPath,
        isSystemDirectory projectPath = false ->
        validateProject projectPath (Directory (Some entries))
        = {| isValid := true; result := d |})
  /\ exists pre subdir post subdirFiles,
       List.filter (eligible entries) files = pre ++ subdir :: post
       /\ isDirectory entries subdir = Some true
       /\ startsWith "." subdir = false
       /\ arr_includes subdir SYSTEM_DIRECTORIES = false
       /\ readdir entries subdir = Some subdirFiles
       /\ nestedMarkers subdirFiles = Some d
       /\ forall s l, In s pre -> readdir entries s = Some l ->
                      nestedMarkers l = None.
Proof.
  intros files Hstrong Hpy Hnested.
  pose proof (no_root_marker entries files Hstrong Hpy) as Hroot.
  pose proof (firstNested_spec entries (List.filter (eligible entries) files))
    as Hspec.
  change (firstNested entries (List.filter (eligible entries) files))
    with (checkNestedProjects entries files) in Hspec.
  rewrite Hnested in Hspec.
  destruct Hspec as (pre & subdir & post & subdirFiles & Hsplit & Hread & Hm & Hpre).
  destruct (nestedMarkers_shape _ _ Hm) as (Htype & Hconf & _).
  assert (Hdetect : detectProjectType entries files = d).
  { unfold Validator.detectProjectType. rewrite Hroot. cbn [isEmpty].
    rewrite Hnested. reflexivity. }
  assert (Hin : In subdir (List.filter (eligible entries) files)).
  { rewrite Hsplit. apply in_or_app. right. now left. }
  apply filter_In in Hin. destruct Hin as [Hin Hel].
  split; [exact Hdetect|]. split; [exact Hconf|]. split.
  - intros projectPath Hsys. unfold Validator.validateProject.
    unfold isSystemDirectory in Hsys. rewrite Hsys. fold files.
    assert (Hne : isEmpty files = false) by (destruct files; [destruct Hin | reflexivity]).
    rewrite Hne, Hdetect, Hconf. reflexivity.
  - exists pre, subdir, post, subdirFiles.
    unfold eligible in Hel.
    destruct (isDirectory entries subdir) as [[|]|]; try discriminate.
    apply andb_true_iff in Hel. destruct Hel as [Hdot Hsysd].
    apply negb_true_iff in Hdot, Hsysd. repeat split; auto.
Qed.

End Facts.


(** a Rust crate with a JavaScript front end in the same directory *)
Definition mixedProject : list (string * Entry) :=
  [ ("Cargo.toml", File (Some "[package]")); ("src", Dir (Some ["main.rs"]));
    ("package.json", File (Some "{}")); ("requirements.txt", File (Some "")) ].

(** X24 at that directory: it is reported as a Node.js project. *)
Lemma first_marker_of_highest_confidence_decides_witness :
  arr_includes "package.json" (map fst mixedProject) = true
  /\ arr_includes "Cargo.toml" (map fst mixedProject) = true
  /\ projectType (Validator.detectProjectType (fun _ => None) mixedProject
                    (map fst mixedProject)) = nodejs.
Proof.
  assert (H : arr_includes "package.json" (map fst mixedProject) = true)
    by reflexivity.
  split; [exact H|]. split; [reflexivity|].
  rewrite (proj1 (first_marker_of_highest_confidence_decides (fun _ => None)
                    mixedProject (map fst mixedProject)) H).
  reflexivity.
Defined.

(** a directory that holds two services and no marker of its own *)
Definition monorepo : list (string * Entry) :=
  [ ("notes.txt", File (Some ""));
    (".cache", Dir (Some ["package.json"]));
    ("vendor", Dir (Some ["Cargo.toml"]));
    ("docs", Dir (Some ["index.md"]));
    ("api", Dir (Some ["go.mod"; "main.go"]));
    ("web", Dir (Some ["package.json"])) ].

(** X26 at that directory: it is accepted as a Go project. *)
Lemma nested_marker_types_the_parent_witness :
  hasStrongMarker (map fst monorepo) = false
  /\ pythonMarkerCount (map fst monorepo) = 0%nat
  /\ Validator.validateProject (fun _ => None) "/projects/platform"
       (Directory (Some monorepo))
     = {| isValid := true;
          result := detection go 0.85 (None, Some "Go", Some "go modules") |}.
Proof.
  assert (H1 : hasStrongMarker (map fst monorepo) = false) by reflexivity.
  assert (H2 : pythonMarkerCount (map fst monorepo) = 0%nat) by reflexivity.
  assert (H3 : checkNestedProjects monorepo (map fst monorepo)
               = Some (detection go 0.85 (None, Some "Go", Some "go modules")))
    by reflexivity.
  split; [exact H1|]. split; [exact H2|].
  destruct (nested_marker_types_the_parent (fun _ => None) monorepo _ H1 H2 H3)
    as (_ & _ & Hvalid & _).
  exact (Hvalid "/projects/platform" eq_refl).
Defined.

(** X25 at a directory with [.git], [src] and a README: confidence 0.6. *)
Lemma generic_detection_needs_three_indicators_witness :
  let entries := [ (".git", Dir (Some ["HEAD"])); ("src", Dir (Some ["main.zig"]));
                   ("README.md", File (Some "")) ] in
  (confidence (detectGenericProject entries (map fst entries)) <? 0.5)%float
  = false.
Proof.
  intros entries.
  destruct (generic_detection_needs_three_indicators entries (map fst entries))
    as (_ & _ & _ & _ & _ & H).
  apply H; [reflexivity | reflexivity | vm_compute; lia].
Defined.

End ValidatorShapeFacts.

(** ** The file watcher: which directories reach the debouncer *)

Module FileWatcherFacts.
Import Validator FileWatcher ValidatorShapeFacts.

Lemma length_append (a b : string) :
  String.length (a +:+ b) = (String.length a + String.length b)%nat.
Proof.
  induction a as [|c a IH]; [reflexivity|].
  change (String c a +:+ b) with (String c (a +:+ b)).
  cbn [String.length]. now rewrite IH.
Qed.

Lemma append_not_self (a b : string) : String.eqb (a +:+ "/" +:+ b) a = false.
Proof.
  apply String.eqb_neq. intros H.
  apply (f_equal String.length) in H.
  rewrite !length_append in H. cbn [String.length] in H. lia.
Qed.

Lemma prefix_app (a b : string) : String.prefix a (a +:+ b) = true.
Proof.
  induction a as [|c a IH]; [now destruct b|].
  change (String c a +:+ b) with (String c (a +:+ b)).
  cbn [String.prefix]. destruct (ascii_dec c c); [exact IH | contradiction].
Qed.

Lemma string_drop_app (a b : string) :
  string_drop (String.length a) (a +:+ b) = b.
Proof.
  induction a as [|c a IH]; [reflexivity|].
  change (String c a +:+ b) with (String c (a +:+ b)). exact IH.
Qed.

Lemma relative_below (from rel : string) :
  relative from (from +:+ "/" +:+ rel) = rel.
Proof.
  unfold relative.
  assert (E : from +:+ "/" +:+ rel = (from +:+ "/") +:+ rel).
  { induction from as [|c a IH]; [reflexivity|].
    change (String c a +:+ "/" +:+ rel) with (String c (a +:+ "/" +:+ rel)).
    now rewrite IH. }
  rewrite E, prefix_app.
  replace (String.length from + 1)%nat with (String.length (from +:+ "/"))
    by (rewrite length_append; reflexivity).
  apply string_drop_app.
Qed.

Section Facts.
Variable watchPath : string.
Variable debounceDelay : nat.


End Facts.

End FileWatcherFacts.

(** ** The analyzer client: errors on their way to the rate limiter *)

Module ClaudeAnalyzerFacts.
Import RateLimiter ClaudeAnalyzer.

(** [error.name === 'AbortError' || error.message?.includes('aborted')] *)
Definition aborted (name : option string) (error : JsError) : bool :=
  match name with
  | Some n => String.eqb n "AbortError"
  | None => false
  end
  || message_includes error "aborted".

Lemma rate_limit_prefix (m : string) :
  includes "rate limit" ("Rate limit exceeded: " +:+ m) = includes "rate limit" m
  /\ includes "429" ("Rate limit exceeded: " +:+ m) = includes "429" m.
Proof. split; reflexivity. Qed.

Lemma overloaded_prefix (m : string) :
  includes "rate limit" ("API overloaded: " +:+ m) = includes "rate limit" m
  /\ includes "429" ("API overloaded: " +:+ m) = includes "429" m.
Proof. split; reflexivity. Qed.

Lemma undefined_says_nothing :
  includes "rate limit" "undefined" = false /\ includes "429" "undefined" = false.
Proof. split; reflexivity. Qed.

Lemma rewritten_message (prefix : string) (error : JsError) :
  (forall m, includes "rate limit" (prefix +:+ m) = includes "rate limit" m
             /\ includes "429" (prefix +:+ m) = includes "429" m) ->
  isRateLimitError (newError (prefix +:+ template (message error)))
  = message_includes error "rate limit" || message_includes error "429".
Proof.
  intros H. unfold isRateLimitError, message_includes, newError.
  cbn [status message orb].
  destruct (H (template (message error))) as [-> ->].
  destruct (message error); reflexivity.
Qed.

(** X28.  What the rate limiter can tell from an error that went through
    the [catch] block of [analyzeProject].  An aborted request never counts
    as a rate limit.  An error that the block recognises as a rate limit or
    as an overload (status 429 or 529, or [rate_limit] or [overloaded] in
    the message) is replaced by a new error without status, so it counts as
    a rate limit for [execute] exactly if the message of the original error
    contains [rate limit] or [429]: the status 429 alone no longer does.
    Any other error is passed on as it is. *)
Theorem rate_limit_status_is_lost_on_the_way (name : option string)
    (error : JsError) :
  let thrown := rethrow name error in
  (aborted name error = true -> isRateLimitError thrown = false)
  /\ (aborted name error = false ->
      status_is error 429 || message_includes error "rate_limit"
      || status_is error 529 || message_includes error "overloaded" = true ->
      status thrown = None
      /\ isRateLimitError thrown
         = message_includes error "rate limit" || message_includes error "429")
  /\ (aborted name error = false ->
      status_is error 429 || message_includes error "rate_limit"
      || status_is error 529 || message_includes error "overloaded" = false ->
      thrown = error)
  /\ (status_is error 429 = true -> isRateLimitError error = true).
Proof.
  cbv zeta. unfold rethrow. fold (aborted name error).
  split; [|split; [|split]].
  - intros ->. reflexivity.
  - intros -> H.
    destruct (status_is error 429 || message_includes error "rate_limit") eqn:E1.
    + split; [reflexivity|]. apply rewritten_message, rate_limit_prefix.
    + cbn [orb] in H.
      rewrite H. split; [reflexivity|].
      apply rewritten_message, overloaded_prefix.
  - intros -> H.
    apply orb_false_iff in H. destruct H as [H H4].
    apply orb_false_iff in H. destruct H as [H H3].
    now rewrite H, H3, H4.
  - unfold status_is, isRateLimitError. intros ->. reflexivity.
Qed.

(** an error of the API client for a response with status 429 *)
Definition tooManyRequests : JsError :=
  {| status := Some 429; code := None;
     message := Some "Too many requests, please slow down" |}.

(** X28 at that error: [execute] backs off as for any other error. *)
Lemma rate_limit_status_is_lost_on_the_way_witness :
  aborted None tooManyRequests = false
  /\ isRateLimitError tooManyRequests = true
  /\ isRateLimitError (rethrow None tooManyRequests) = false
  /\ forall cfg attempt random,
       calculateBackoff cfg attempt
         (isRateLimitError (rethrow None tooManyRequests)) random
       = calculateBackoff cfg attempt false random.
Proof.
  destruct (rate_limit_status_is_lost_on_the_way None tooManyRequests)
    as (_ & H & _ & H').
  destruct (H eq_refl eq_refl) as [_ E].
  split; [reflexivity|]. split; [exact (H' eq_refl)|].
  split; [rewrite E; reflexivity|].
  intros cfg attempt random. rewrite E. reflexivity.
Defined.

End ClaudeAnalyzerFacts.

(** ** The line counter *)

Module LineCounterFacts.
Import LineCounter ValidatorShapeFacts.

(** the line feed that [countLinesInFile] splits at *)
Definition lf : ascii := ascii_of_nat 10.

(** [inBlockComment] when the loop over the lines of [content] ends *)
Definition openAtEnd (content extension : string) : bool :=
  snd (countLines extension (split lf content) (0, false)).

(** a line with something other than white space on it *)
Definition nonBlank (line : string) : bool :=
  negb (String.eqb (trim line) EmptyString).

Lemma countLines_app (extension : string) (l1 l2 : list string) (state : Z * bool) :
  countLines extension (l1 ++ l2) state
  = countLines extension l2 (countLines extension l1 state).
Proof. apply fold_left_app. Qed.

Lemma countLine_step (extension : string) (state : Z * bool) (line : string) :
  let state' := countLine extension state line in
  fst state <= fst state' <= fst state + (if nonBlank line then 1 else 0).
Proof.
  unfold countLine, nonBlank. destruct state as [count inBlock]. cbn [fst snd].
  destruct (String.eqb (trim line) EmptyString); cbn [negb fst]; [lia|].
  destruct (startsWith "/*" (trim line) || startsWith "/**" (trim line));
    [cbn [fst]; lia|].
  destruct inBlock; [cbn [fst]; lia|].
  destruct (existsb _ lineCommentPatterns); [cbn [fst]; lia|].
  destruct (String.eqb extension ".py" && _); cbn [fst]; lia.
Qed.

Lemma countLines_bounds (extension : string) (lines : list string)
    (state : Z * bool) :
  fst state <= fst (countLines extension lines state)
  <= fst state + Z.of_nat (List.length (List.filter nonBlank lines)).
Proof.
  revert state. induction lines as [|line lines IH]; intros state;
    cbn [countLines fold_left List.filter].
  - cbn. lia.
  - fold (countLines extension lines (countLine extension state line)).
    specialize (IH (countLine extension state line)).
    pose proof (countLine_step extension state line) as Hs. cbv zeta in Hs.
    destruct (nonBlank line); cbn [List.length]; lia.
Qed.

(** the count does not depend on the count so far *)
Lemma countLine_shift (extension : string) (count : Z) (inBlock : bool)
    (line : string) :
  countLine extension (count, inBlock) line
  = (count + fst (countLine extension (0, inBlock) line),
     snd (countLine extension (0, inBlock) line)).
Proof.
  unfold countLine. cbn [fst snd].
  repeat match goal with
         | |- context [if ?b then _ else _] => destruct b
         end; cbn [fst snd]; f_equal; lia.
Qed.

Lemma countLines_shift (extension : string) (lines : list string) (count : Z)
    (inBlock : bool) :
  countLines extension lines (count, inBlock)
  = (count + fst (countLines extension lines (0, inBlock)),
     snd (countLines extension lines (0, inBlock))).
Proof.
  revert count inBlock. induction lines as [|line lines IH]; intros count inBlock;
    cbn [countLines fold_left].
  - cbn [fst snd]. f_equal. lia.
  - fold (countLines extension lines (countLine extension (count, inBlock) line)).
    fold (countLines extension lines (countLine extension (0, inBlock) line)).
    rewrite (countLine_shift extension count).
    destruct (countLine extension (0, inBlock) line) as [cx ox]. cbn [fst snd].
    rewrite (IH (count + cx)), (IH cx). cbn [fst snd]. f_equal. lia.
Qed.

(** a loop that starts inside a block comment counts no more than one that
    starts outside, and the two end in the same state unless the first is
    still inside *)
Lemma countLine_inside (extension : string) (c1 c2 : Z) (o2 : bool)
    (line : string) :
  c1 <= c2 ->
  let s1 := countLine extension (c1, true) line in
  let s2 := countLine extension (c2, o2) line in
  fst s1 <= fst s2 /\ (snd s1 = snd s2 \/ snd s1 = true).
Proof.
  intros Hc. unfold countLine. cbn [fst snd].
  destruct (String.eqb (trim line) EmptyString); cbn [fst snd];
    [split; [lia | now right]|].
  destruct (startsWith "/*" (trim line) || startsWith "/**" (trim line));
    cbn [fst snd].
  - split; [lia | now left].
  - destruct o2; cbn [fst snd]; [split; [lia | now left]|].
    destruct (endsWith "*/" (trim line)) eqn:E;
      repeat match goal with
             | |- context [if ?b then _ else _] => destruct b
             end; cbn [fst snd]; split; try lia; auto.
Qed.

Lemma countLines_inside (extension : string) (lines : list string) (c1 c2 : Z)
    (o1 o2 : bool) :
  c1 <= c2 -> o1 = o2 \/ o1 = true ->
  fst (countLines extension lines (c1, o1))
  <= fst (countLines extension lines (c2, o2)).
Proof.
  revert c1 c2 o1 o2. induction lines as [|line lines IH];
    intros c1 c2 o1 o2 Hc Ho; cbn [countLines fold_left]; [exact Hc|].
  fold (countLines extension lines (countLine extension (c1, o1) line)).
  fold (countLines extension lines (countLine extension (c2, o2) line)).
  destruct (countLine extension (c1, o1) line) as [c1' o1'] eqn:E1.
  destruct (countLine extension (c2, o2) line) as [c2' o2'] eqn:E2.
  destruct Ho as [-> | ->].
  - rewrite (countLine_shift extension c1) in E1.
    rewrite (countLine_shift extension c2) in E2.
    injection E1 as <- <-. injection E2 as <- <-.
    apply IH; [lia | now left].
  - pose proof (countLine_inside extension c1 c2 o2 line Hc) as H.
    cbv zeta in H. rewrite E1, E2 in H. cbn [fst snd] in H.
    apply IH; tauto.
Qed.

Lemma lines_of_joined (a b : string) :
  split lf (a +:+ LF +:+ b) = split lf a ++ split lf b.
Proof. apply split_app_sep. Qed.

(** X29.  The count of [countLinesInFile] is never negative and never more
    than the number of lines that hold something other than white space.
    Counting two texts joined by a line feed gives at most the sum of the
    two counts, and exactly the sum if the first text does not end inside a
    block comment. *)
Theorem countLinesInFile_of_joined_texts (a b extension : string) :
  0 <= countLinesInFile a extension
       <= Z.of_nat (List.length (List.filter nonBlank (split lf a)))
  /\ countLinesInFile (a +:+ LF +:+ b) extension
     <= countLinesInFile a extension + countLinesInFile b extension
  /\ (openAtEnd a extension = false ->
      countLinesInFile (a +:+ LF +:+ b) extension
      = countLinesInFile a extension + countLinesInFile b extension).
Proof.
  unfold countLinesInFile, openAtEnd. cbv zeta. fold lf.
  rewrite lines_of_joined, countLines_app.
  split; [exact (countLines_bounds extension (split lf a) (0, false))|].
  destruct (countLines extension (split lf a) (0, false)) as [ca oa] eqn:Ea.
  cbn [fst snd].
  rewrite (countLines_shift extension (split lf b) ca oa). cbn [fst].
  split.
  - pose proof (countLines_inside extension (split lf b) 0 0 oa false
                  (Z.le_refl 0)) as H.
    destruct oa; [specialize (H (or_intror eq_refl)) | specialize (H (or_introl eq_refl))];
      lia.
  - intros ->. reflexivity.
Qed.

Lemma countLines_swallowed (extension : string) (lines : list string) (count : Z) :
  (forall l, In l lines -> endsWith "*/" (trim l) = false) ->
  countLines extension lines (count, true) = (count, true).
Proof.
  induction lines as [|line lines IH]; intros H; cbn [countLines fold_left];
    [reflexivity|].
  fold (countLines extension lines (countLine extension (count, true) line)).
  assert (E : countLine extension (count, true) line = (count, true)).
  { unfold countLine. cbn [fst snd].
    destruct (String.eqb (trim line) EmptyString); [reflexivity|].
    rewrite (H line (or_introl eq_refl)).
    now destruct (startsWith "/*" (trim line) || startsWith "/**" (trim line)). }
  rewrite E. apply IH. intros l Hl. apply H. now right.
Qed.

(** X30.  A line that opens a block comment and does not end with its
    closing, be it that the comment is closed earlier on the line, switches
    the counter off: nothing is counted from that line on until a line ends
    with the closing of a block comment, and if no later line does, the
    count of the file is the count of the lines before. *)
Theorem block_comment_not_closed_at_line_end_hides_the_rest
    (content extension : string) (before : list string) (line : string)
    (rest : list string) :
  split lf content = before ++ line :: rest ->
  startsWith "/*" (trim line) = true ->
  endsWith "*/" (trim line) = false ->
  (forall l, In l rest -> endsWith "*/" (trim l) = false) ->
  countLinesInFile content extension
  = fst (countLines extension before (0, false))
  /\ openAtEnd content extension = true.
Proof.
  intros Hsplit Hopen Hclose Hrest.
  unfold countLinesInFile, openAtEnd. cbv zeta. fold lf.
  rewrite Hsplit, countLines_app.
  destruct (countLines extension before (0, false)) as [count inBlock].
  cbn [countLines fold_left].
  assert (E : countLine extension (count, inBlock) line = (count, true)).
  { unfold countLine. cbn [fst snd]. rewrite Hopen, Hclose. cbn [orb].
    destruct (String.eqb_spec (trim line) EmptyString) as [E|]; [|reflexivity].
    rewrite E in Hopen. discriminate Hopen. }
  rewrite E.
  fold (countLines extension rest (count, true)).
  rewrite (countLines_swallowed extension rest count Hrest). split; reflexivity.
Qed.

(** a C file in which a declaration follows a comment on the same line *)
Definition flagsFile : string :=
  "int a;" +:+ LF +:+ "/* flags */ int b;" +:+ LF +:+ "int c;" +:+ LF +:+ "int d;".

(** X30 at that file: one line is counted. *)
Lemma block_comment_not_closed_at_line_end_hides_the_rest_witness :
  split lf flagsFile = ["int a;"] ++ "/* flags */ int b;" :: ["int c;"; "int d;"]
  /\ countLinesInFile flagsFile ".c" = 1.
Proof.
  assert (H : split lf flagsFile
              = ["int a;"] ++ "/* flags */ int b;" :: ["int c;"; "int d;"])
    by reflexivity.
  split; [exact H|].
  destruct (block_comment_not_closed_at_line_end_hides_the_rest flagsFile ".c"
              _ _ _ H eq_refl eq_refl) as [E _].
  - intros l [<- | [<- | []]]; reflexivity.
  - rewrite E. reflexivity.
Defined.

(** X29 at two small files. *)
Lemma countLinesInFile_of_joined_texts_witness :
  openAtEnd "int a;" ".c" = false
  /\ countLinesInFile ("int a;" +:+ LF +:+ "int b;") ".c" = 2.
Proof.
  assert (H : openAtEnd "int a;" ".c" = false) by reflexivity.
  split; [exact H|].
  rewrite (proj2 (proj2 (countLinesInFile_of_joined_texts "int a;" "int b;" ".c")) H).
  reflexivity.
Defined.

End LineCounterFacts.
